(** * factory_boy: definition registry, shared counters and argument assembly

    A shallow embedding of [factory/base.py]: the per-definition options
    object ([FactoryOptions]), the metaclass registration path
    ([FactoryMetaClass.__new__] / [contribute_to_class]), the shared
    sequence counter ([_Counter]), the argument pipeline
    ([prepare_arguments] / [instantiate]), the batch and by-name entry
    points of [BaseFactory] and the dictionary and list factories; and of
    the fuzzers of [factory/fuzzy.py] that draw integers, text, bytes,
    choices, dates and times of day.

    Python objects that are mutated and aliased (factory classes with their
    [_meta], and [_Counter] instances) live in an explicit store; exceptions
    are an outcome that keeps the store as the raising code left it. *)

From stdpp Require Import gmap strings list fin_maps sorting.
From Stdlib Require Import ZArith Lia.

Open Scope Z_scope.
Open Scope string_scope.

(** ** Python-level basics *)

(** Identity of a factory class object (index in the store). *)
Abbreviation fid := nat.
(** Identity of a [_Counter] instance (index in the store). *)
Abbreviation addr := nat.

(** The exceptions raised by [base.py].  [Dangling] and [OutOfFuel] do not
    exist in Python: they mark a store lookup that cannot fail on a store
    built by registration, and exhausted recursion fuel. *)
Inductive exn :=
| TypeError (msg : string)
| ValueError (msg : string)
| KeyError (key : string)
| AssertionError
| NotImplementedError (msg : string)
| FactoryError (msg : string)
| UnknownStrategy (msg : string)
| UnsupportedStrategy
| CyclicDefinitionError (msg : string)
| AttributeError (msg : string)
| Dangling
| OutOfFuel.

Inductive outcome (A : Type) :=
| Return (a : A)
| Raise (e : exn).
Arguments Return {A} a.
Arguments Raise {A} e.

(** A model class (the target type of a definition): a class object.
    [cls_id] tells apart class objects that otherwise look alike (two
    classes may share their [__name__] and even their bases);
    [cls_mro_tail] is [__mro__[1:]]: the proper ancestors, nearest first,
    as the class objects they are. *)
#[warnings="-register-all"] Inductive pyclass := PyClass {
  cls_id : nat;
  cls_name : string;
  cls_mro_tail : list pyclass;
}.

(** [c is d] on class objects. *)
#[export] Instance pyclass_eq_dec : EqDecision pyclass.
Proof.
  refine (fix go (c d : pyclass) {struct c} : Decision (c = d) :=
    match c, d with
    | PyClass i n l, PyClass j m k =>
        cast_if_and3 (decide (i = j)) (decide (n = m))
          (@list_eq_dec _ go l k)
    end); congruence.
Defined.

(** [issubclass(c, d)], as [type] checks it (no [__subclasscheck__] of a
    metaclass in between): the class object [d] occurs in [c.__mro__],
    which starts with [c]. *)
Definition issubclass (c d : pyclass) : bool :=
  bool_decide (d ∈ c :: cls_mro_tail c).

(** Attribute values.  [SKIP] is the sentinel [declarations.SKIP]. *)
Inductive value :=
| SKIP
| PyNone
| PyInt (z : Z)
| PyStr (s : string)
| PyBool (b : bool).

#[export] Instance value_eq_dec : EqDecision value.
Proof. solve_decision. Defined.

(** Keyword mappings: [**kwargs]. *)
Abbreviation kwargs := (gmap string value).

(** [enums.BUILD_STRATEGY], [enums.CREATE_STRATEGY], [enums.STUB_STRATEGY]
    ([BaseFactory.generate] looks the strategy up as a method name). *)
Definition BUILD_STRATEGY : string := "build".
Definition CREATE_STRATEGY : string := "create".
Definition STUB_STRATEGY : string := "stub".

(** ** Declarations and parameters *)

Inductive BuilderPhase := ATTRIBUTES | POST_INSTANTIATION.

#[export] Instance BuilderPhase_eq_dec : EqDecision BuilderPhase.
Proof. solve_decision. Defined.

(** What a class body may bind a name to. [Declared] stands for any object
    with a builder phase ([enums.get_builder_phase]). *)
Inductive attr :=
| ClassMethod
| StaticMethod
| Declared (phase : BuilderPhase) (body : value)
| Plain (v : value).

Definition get_builder_phase (a : attr) : option BuilderPhase :=
  match a with Declared p _ => Some p | _ => None end.

(** Ordered mappings (a Python [dict] whose iteration order is observed). *)
Definition odict (V : Type) := list (string * V).

Definition od_keys {V} (d : odict V) : list string := d.*1.

Fixpoint od_get {V} (d : odict V) (k : string) : option V :=
  match d with
  | [] => None
  | (k', v) :: d' => if decide (k' = k) then Some v else od_get d' k
  end.

(** [d[k] = v]: an existing key keeps its position, a new key goes last. *)
Fixpoint od_set {V} (d : odict V) (k : string) (v : V) : odict V :=
  match d with
  | [] => [(k, v)]
  | (k', v') :: d' =>
      if decide (k' = k) then (k, v) :: d' else (k', v') :: od_set d' k v
  end.

(** [d.update(e)] *)
Definition od_update {V} (d e : odict V) : odict V :=
  foldl (λ acc kv, od_set acc kv.1 kv.2) d e.

#[export] Instance outcome_ret : MRet outcome := λ A a, Return a.

#[export] Instance outcome_bind : MBind outcome := λ A B k m,
  match m with
  | Return a => k a
  | Raise e => Raise e
  end.

(** What instantiation returns: an instance built by calling the model
    class, or the generic container [StubObject] with its attributes. *)
Inductive pyobject :=
| Instance (cls : pyclass) (args : list value) (kw : kwargs)
| Stub (attrs : gmap string value).

(** [setattr(obj, field, value)] on the attribute table of an object. *)
Definition setattr (field : string) (v : value)
    (attrs : gmap string value) : gmap string value :=
  <[field := v]> attrs.

(** [StubObject.__init__] *)
Definition StubObject (kw : kwargs) : pyobject :=
  Stub (map_fold setattr ∅ kw).

(** [model_class( *args, **kwargs )]: the body of the default [_build] and
    [_create]; calling [None] raises. *)
Definition call_model (model_class : option pyclass)
    (args : list value) (kw : kwargs) : outcome pyobject :=
  match model_class with
  | Some c => Return (Instance c args kw)
  | None => Raise (TypeError "'NoneType' object is not callable")
  end.

(** ** Introspectors *)

(** A field descriptor of the host model system; only its class
    ([field.__class__]) matters. *)
Record field := { field_class : pyclass }.

Record FieldContext := {
  fc_field : option field;
  fc_field_name : string;
  fc_model : option pyclass;
  fc_factory : fid;
  fc_skips : list string;
}.

(** An introspector class: its [__name__], the two methods subclasses must
    provide and the [DEFAULT_BUILDERS] table, a list of pairs of a field
    class and a recipe. *)
Record IntrospectorClass := {
  introspector_name : string;
  DEFAULT_BUILDERS : list (pyclass * (FieldContext → option attr));
  get_default_field_names : option pyclass → outcome (list string);
  get_field_by_name : option pyclass → string → outcome (option field);
}.

(** [dict(self.DEFAULT_BUILDERS).get(field_class)]: when the list names a
    class more than once, the last recipe stays. *)
Fixpoint builder_for (builders : list (pyclass * (FieldContext → option attr)))
    (field_class : pyclass) : option (FieldContext → option attr) :=
  match builders with
  | [] => None
  | (c, builder) :: rest =>
      match builder_for rest field_class with
      | Some later => Some later
      | None => if decide (c = field_class) then Some builder else None
      end
  end.

(** [BaseIntrospector]: both extraction methods raise
    [NotImplementedError]; of their messages, which go on to print the
    introspector, the field and the model, the fixed beginning is kept. *)
Definition BaseIntrospector : IntrospectorClass :=
  {| introspector_name := "BaseIntrospector";
     DEFAULT_BUILDERS := [];
     get_default_field_names := λ _,
       Raise (NotImplementedError "Introspector doesn't know how to extract fields");
     get_field_by_name := λ _ _,
       Raise (NotImplementedError "Introspector doesn't know how to fetch field") |}.

(** [BaseIntrospector.build_declaration] *)
Definition build_declaration (ic : IntrospectorClass)
    (field_ctxt : FieldContext) : outcome (option attr) :=
  match fc_field field_ctxt with
  | None => Return None
  | Some fld =>
      match builder_for (DEFAULT_BUILDERS ic) (field_class fld) with
      | None => Raise (NotImplementedError "Introspector lacks recipe for building field")
      | Some builder => Return (builder field_ctxt)
      end
  end.

(** [sk[len(pattern):]] *)
Definition drop_prefix (pattern sk : string) : string :=
  String.substring (String.length pattern)
    (String.length sk - String.length pattern) sk.

(** [BaseIntrospector.build_declarations]; the introspector was created for
    [factory_class], whose model at that time is [model]. *)
Fixpoint build_declarations_loop (ic : IntrospectorClass) (factory_class : fid)
    (model : option pyclass) (for_fields : list string)
    (skip_fields : gset string) (declarations : odict attr)
    : outcome (odict attr) :=
  match for_fields with
  | [] => Return declarations
  | field_name :: rest =>
      if decide (field_name ∈ skip_fields) then
        build_declarations_loop ic factory_class model rest skip_fields declarations
      else
        let sub_skip_pattern := field_name +:+ "__" in
        let sub_skips :=
          drop_prefix sub_skip_pattern <$>
            filter (λ sk, String.prefix sub_skip_pattern sk = true)
                   (elements skip_fields) in
        fld ← get_field_by_name ic model field_name;
        let field_ctxt :=
          {| fc_field := fld; fc_field_name := field_name; fc_model := model;
             fc_factory := factory_class; fc_skips := sub_skips |} in
        declaration ← build_declaration ic field_ctxt;
        build_declarations_loop ic factory_class model rest skip_fields
          match declaration with
          | Some d => od_set declarations field_name d
          | None => declarations
          end
  end.

Definition build_declarations (ic : IntrospectorClass) (factory_class : fid)
    (model : option pyclass) (for_fields skip_fields : gset string)
    : outcome (odict attr) :=
  build_declarations_loop ic factory_class model (elements for_fields) skip_fields [].

(** ** Options classes and overridden class methods *)

(** [FactoryOptions] or a subclass of it, as far as [contribute_to_class]
    reads the class of [self]: the class attribute
    [DEFAULT_INTROSPECTOR_CLASS].  The methods are those of
    [FactoryOptions]. *)
Record OptionsClass := {
  DEFAULT_INTROSPECTOR_CLASS : IntrospectorClass;
}.

(** [FactoryOptions] itself. *)
Definition FactoryOptions_class : OptionsClass :=
  {| DEFAULT_INTROSPECTOR_CLASS := BaseIntrospector |}.

(** The class methods [build] and [create] as [base.py] writes them: in
    [BaseFactory], and overridden in [StubFactory]. *)
Inductive build_body := BaseFactory_build | StubFactory_build.
Inductive create_body := BaseFactory_create | StubFactory_create.

(** ** The options object and the store *)

(** [class Meta]: every recognised option is either absent ([None]) or set;
    [meta_unknown] lists the other public attributes of the block. *)
Record MetaBlock := {
  meta_model : option (option pyclass);
  meta_abstract : option bool;
  meta_strategy : option string;
  meta_inline_args : option (list string);
  meta_exclude : option (list string);
  meta_rename : option (odict string);
  meta_introspector_class : option (option IntrospectorClass);
  meta_default_auto_fields : option bool;
  meta_include_auto_fields : option (list string);
  meta_exclude_auto_fields : option (list string);
  meta_unknown : list string;
}.

(** A [class Meta] block that sets nothing. *)
Definition no_options : MetaBlock :=
  {| meta_model := None; meta_abstract := None; meta_strategy := None;
     meta_inline_args := None; meta_exclude := None; meta_rename := None;
     meta_introspector_class := None; meta_default_auto_fields := None;
     meta_include_auto_fields := None; meta_exclude_auto_fields := None;
     meta_unknown := [] |}.

(** The block [meta] (or an empty one) with [strategy = s] added. *)
Definition set_meta_strategy (meta : option MetaBlock) (s : string) : MetaBlock :=
  let m := default no_options meta in
  {| meta_model := meta_model m; meta_abstract := meta_abstract m;
     meta_strategy := Some s;
     meta_inline_args := meta_inline_args m; meta_exclude := meta_exclude m;
     meta_rename := meta_rename m;
     meta_introspector_class := meta_introspector_class m;
     meta_default_auto_fields := meta_default_auto_fields m;
     meta_include_auto_fields := meta_include_auto_fields m;
     meta_exclude_auto_fields := meta_exclude_auto_fields m;
     meta_unknown := meta_unknown m |}.

Section Registry.

(** [declarations.Parameter] and its subclasses are not part of this file's
    source; the registry is generic in them. *)
Context {Param : Type}.

(** [builder.DeclarationSet] is likewise outside this file's source. *)
Context {DeclarationSet : Type}.

(** The filled options object of a registered definition.  Every
    definition derives from [BaseFactory]; [base_factory] is the registered
    definition it extends, and [None] when that base is [BaseFactory]
    itself (the case of [Factory]). *)
Record FactoryOptions := {
  factory : fid;
  base_factory : option fid;
  model : option pyclass;
  abstract : bool;
  strategy : string;
  inline_args : list string;
  exclude : list string;
  rename : odict string;
  introspector_class : option IntrospectorClass;
  default_auto_fields : bool;
  include_auto_fields : list string;
  exclude_auto_fields : list string;
  base_declarations : odict attr;
  parameters : odict Param;
  pre_declarations : DeclarationSet;
  post_declarations : DeclarationSet;
  introspector : IntrospectorClass;
  _counter : option addr;
  counter_reference : fid;
}.

(** A factory class object: its names, the factories of [__mro__[1:]]
    (nearest first), its [_meta], and its class attributes as attribute
    lookup resolves them: [_options_class], the hooks the options object
    calls back, and which [build] and [create] the class has.
    [BaseFactory] itself, whose options object is never filled, adds
    nothing to any loop over the ancestors and is left out of [mro_tail]. *)
Record Factory := {
  __name__ : string;
  __qualname__ : string;
  __module__ : string;
  mro_tail : list fid;
  _meta : FactoryOptions;
  _options_class : OptionsClass;
  _setup_next_sequence : Z;
  _adjust_kwargs : kwargs → kwargs;
  _build : option pyclass → list value → kwargs → outcome pyobject;
  _create : option pyclass → list value → kwargs → outcome pyobject;
  classmethod_build : build_body;
  classmethod_create : create_body;
}.

Record store := {
  classes : list Factory;
  counters : list Z;
}.

(** *** Field updates (Python attribute assignment) *)

Definition set__counter (o : FactoryOptions) (c : option addr) : FactoryOptions :=
  {| factory := factory o; base_factory := base_factory o; model := model o;
     abstract := abstract o; strategy := strategy o;
     inline_args := inline_args o; exclude := exclude o; rename := rename o;
     introspector_class := introspector_class o;
     default_auto_fields := default_auto_fields o;
     include_auto_fields := include_auto_fields o;
     exclude_auto_fields := exclude_auto_fields o;
     base_declarations := base_declarations o; parameters := parameters o;
     pre_declarations := pre_declarations o;
     post_declarations := post_declarations o;
     introspector := introspector o;
     _counter := c; counter_reference := counter_reference o |}.

Definition set_strategy (o : FactoryOptions) (s : string) : FactoryOptions :=
  {| factory := factory o; base_factory := base_factory o; model := model o;
     abstract := abstract o; strategy := s;
     inline_args := inline_args o; exclude := exclude o; rename := rename o;
     introspector_class := introspector_class o;
     default_auto_fields := default_auto_fields o;
     include_auto_fields := include_auto_fields o;
     exclude_auto_fields := exclude_auto_fields o;
     base_declarations := base_declarations o; parameters := parameters o;
     pre_declarations := pre_declarations o;
     post_declarations := post_declarations o;
     introspector := introspector o;
     _counter := _counter o; counter_reference := counter_reference o |}.

Definition set__meta (cls : Factory) (o : FactoryOptions) : Factory :=
  {| __name__ := __name__ cls; __qualname__ := __qualname__ cls;
     __module__ := __module__ cls;
     mro_tail := mro_tail cls; _meta := o;
     _options_class := _options_class cls;
     _setup_next_sequence := _setup_next_sequence cls;
     _adjust_kwargs := _adjust_kwargs cls;
     _build := _build cls; _create := _create cls;
     classmethod_build := classmethod_build cls;
     classmethod_create := classmethod_create cls |}.

Definition set_classes (σ : store) (cs : list Factory) : store :=
  {| classes := cs; counters := counters σ |}.

Definition set_counters (σ : store) (hs : list Z) : store :=
  {| classes := classes σ; counters := hs |}.

(** *** Computations over the store that may raise *)

Definition M (A : Type) : Type := store → outcome A * store.

#[export] Instance M_ret : MRet M := λ A a σ, (Return a, σ).

#[export] Instance M_bind : MBind M := λ A B k m σ,
  match m σ with
  | (Return a, σ') => k a σ'
  | (Raise e, σ') => (Raise e, σ')
  end.

Definition raise {A} (e : exn) : M A := λ σ, (Raise e, σ).

(** Dereference a factory class. *)
Definition get_class (f : fid) : M Factory := λ σ,
  match classes σ !! f with
  | Some cls => (Return cls, σ)
  | None => (Raise Dangling, σ)
  end.

(** [f._meta] *)
Definition get_meta (f : fid) : M FactoryOptions :=
  cls ← get_class f; mret (_meta cls).

(** [self._counter = c], where [self] is the options object of [f]. *)
Definition assign__counter (f : fid) (c : option addr) : M unit := λ σ,
  match classes σ !! f with
  | Some cls =>
      (Return (), set_classes σ (<[f := set__meta cls (set__counter (_meta cls) c)]> (classes σ)))
  | None => (Raise Dangling, σ)
  end.

(** ** [_Counter] *)

(** [_Counter(seq=seq)]: a fresh object. *)
Definition Counter_new (seq : Z) : M addr := λ σ,
  (Return (length (counters σ)), set_counters σ (counters σ ++ [seq])).

(** [_Counter.next] *)
Definition Counter_next (c : addr) : M Z := λ σ,
  match counters σ !! c with
  | Some value => (Return value, set_counters σ (<[c := value + 1]> (counters σ)))
  | None => (Raise Dangling, σ)
  end.

(** [_Counter.reset] *)
Definition Counter_reset (c : addr) (next_value : Z) : M unit := λ σ,
  match counters σ !! c with
  | Some _ => (Return (), set_counters σ (<[c := next_value]> (counters σ)))
  | None => (Raise Dangling, σ)
  end.

(** [self._counter.<method>]: calling a method on [None] raises. *)
Definition deref_counter (c : option addr) : M addr :=
  match c with
  | Some a => mret a
  | None => raise (AttributeError "'NoneType' object has no attribute")
  end.

(** ** Counter management of [FactoryOptions] *)

(** [repr] of a class object, as [%r] prints it: [type.__repr__] shows
    the module and the qualified name, and the qualified name alone for a
    class of the module [builtins]. *)
Definition type_repr (module qualname : string) : string :=
  if decide (module = "builtins")
  then "<class '" +:+ qualname +:+ "'>"
  else "<class '" +:+ module +:+ "." +:+ qualname +:+ "'>".

Definition repr_class (cls : Factory) : string :=
  type_repr (__module__ cls) (__qualname__ cls).

(** [FactoryOptions._initialize_counter]; [self] is the options object of
    factory [self].  The recursion follows [counter_reference]. *)
Fixpoint _initialize_counter (fuel : nat) (self : fid) : M unit :=
  match fuel with
  | O => raise OutOfFuel
  | S fuel' =>
      meta ← get_meta self;
      match _counter meta with
      | Some _ => mret ()
      | None =>
          if decide (counter_reference meta = self) then
            fcls ← get_class (factory meta);
            c ← Counter_new (_setup_next_sequence fcls);
            assign__counter self (Some c)
          else
            _initialize_counter fuel' (counter_reference meta);;
            ref ← get_meta (counter_reference meta);
            assign__counter self (_counter ref)
      end
  end.

(** [FactoryOptions.next_sequence] *)
Definition next_sequence (fuel : nat) (self : fid) : M Z :=
  _initialize_counter fuel self;;
  meta ← get_meta self;
  c ← deref_counter (_counter meta);
  Counter_next c.

Definition reset_error_message (fcls rcls : Factory) : string :=
  "Can't reset a sequence on descendant factory " +:+ repr_class fcls
  +:+ "; reset sequence on " +:+ repr_class rcls
  +:+ " or use `force=True`.".

(** [FactoryOptions.reset_sequence] *)
Definition reset_sequence (fuel : nat) (self : fid)
    (value : option Z) (force : bool) : M unit :=
  _initialize_counter fuel self;;
  meta ← get_meta self;
  if bool_decide (counter_reference meta ≠ self) && negb force then
    fcls ← get_class (factory meta);
    ref ← get_meta (counter_reference meta);
    rcls ← get_class (factory ref);
    raise (ValueError (reset_error_message fcls rcls))
  else
    value ← match value with
            | Some v => mret v
            | None =>
                ref ← get_meta (counter_reference meta);
                rcls ← get_class (factory ref);
                mret (_setup_next_sequence rcls)
            end;
    c ← deref_counter (_counter meta);
    Counter_reset c value.

(** ** Definition-time configuration *)

(** [OptionDefault.apply] (no built-in option carries a checker).
    [from_meta] is [getattr(meta, name)] when the block sets the attribute;
    [from_base] reads the resolved option of the base's options object. *)
Definition OptionDefault_apply {T} (value : T) (inherit : bool)
    (from_meta : MetaBlock → option T) (from_base : FactoryOptions → T)
    (meta : option MetaBlock) (base_meta : option FactoryOptions) : T :=
  let value :=
    match base_meta with
    | Some b => if inherit then from_base b else value
    | None => value
    end in
  match meta with
  | Some m => match from_meta m with Some v => v | None => value end
  | None => value
  end.

(** The option values [_fill_from_meta] sets on the options object. *)
Record OptionValues := {
  o_model : option pyclass;
  o_abstract : bool;
  o_strategy : string;
  o_inline_args : list string;
  o_exclude : list string;
  o_rename : odict string;
  o_introspector_class : option IntrospectorClass;
  o_default_auto_fields : bool;
  o_include_auto_fields : list string;
  o_exclude_auto_fields : list string;
}.

Definition string_le (a b : string) : Prop := String.leb a b = true.

#[export] Instance string_le_dec (a b : string) : Decision (string_le a b) :=
  decide (String.leb a b = true).

(** [sorted(names)] *)
Definition sorted (names : list string) : list string :=
  merge_sort string_le names.

(** [FactoryOptions._fill_from_meta], with the table of
    [_build_default_options] inlined. *)
Definition _fill_from_meta (factory_repr : string)
    (meta : option MetaBlock) (base_meta : option FactoryOptions)
    : outcome OptionValues :=
  let meta_attrs :=
    match meta with
    | None => []
    | Some m => filter (λ k, String.prefix "_" k = false) (meta_unknown m)
    end in
  let values :=
    {| o_model := OptionDefault_apply None true meta_model model meta base_meta;
       o_abstract := OptionDefault_apply false false meta_abstract abstract meta base_meta;
       o_strategy :=
         OptionDefault_apply CREATE_STRATEGY true meta_strategy strategy meta base_meta;
       o_inline_args :=
         OptionDefault_apply [] true meta_inline_args inline_args meta base_meta;
       o_exclude := OptionDefault_apply [] true meta_exclude exclude meta base_meta;
       o_rename := OptionDefault_apply [] true meta_rename rename meta base_meta;
       o_introspector_class :=
         OptionDefault_apply None true meta_introspector_class introspector_class
           meta base_meta;
       o_default_auto_fields :=
         OptionDefault_apply false true meta_default_auto_fields default_auto_fields
           meta base_meta;
       o_include_auto_fields :=
         OptionDefault_apply [] false meta_include_auto_fields include_auto_fields
           meta base_meta;
       o_exclude_auto_fields :=
         OptionDefault_apply [] false meta_exclude_auto_fields exclude_auto_fields
           meta base_meta |} in
  match meta_attrs with
  | [] => Return values
  | _ =>
      Raise (TypeError ("'class Meta' for " +:+ factory_repr
                        +:+ " got unknown attribute(s) "
                        +:+ String.concat "," (sorted meta_attrs)))
  end.

(** [cs[f]._meta] *)
Definition lookup_meta (cs : list Factory) (f : fid) : outcome FactoryOptions :=
  match cs !! f with
  | Some cls => Return (_meta cls)
  | None => Raise Dangling
  end.

(** [FactoryOptions._get_counter_reference]; [self] is the definition being
    registered, [self_model] its resolved model.  [self.base_factory] is
    never [None] for a class that derives from [BaseFactory]: without a
    registered base it is [BaseFactory], whose options object is the bare
    [FactoryOptions()], which has no attribute [model]. *)
Definition _get_counter_reference (cs : list Factory) (self : fid)
    (self_model : option pyclass) (self_base_factory : option fid)
    : outcome fid :=
  match self_model with
  | None => Return self
  | Some m =>
      match self_base_factory with
      | None =>
          Raise (AttributeError "'FactoryOptions' object has no attribute 'model'")
      | Some b =>
          base ← lookup_meta cs b;
          match model base with
          | Some base_model =>
              if issubclass m base_model
              then Return (counter_reference base)
              else Return self
          | None => Return self
          end
      end
  end.

(** [FactoryOptions._is_declaration] *)
Definition _is_declaration (name : string) (v : attr) : bool :=
  match v with
  | ClassMethod | StaticMethod => false
  | _ =>
      match get_builder_phase v with
      | Some _ => true
      | None => negb (String.prefix "_" name)
      end
  end.

(** Lines 363-377 of [contribute_to_class]: the candidate field names handed
    to the introspector.  [default_names] is what
    [get_default_field_names] returned; [factory_parents] are the options of
    the ancestors, furthest first. *)
Definition candidate_field_names (self_default_auto_fields : bool)
    (default_names : list string) (factory_parents : list FactoryOptions)
    (self_include self_exclude : list string) (declared : list string)
    : gset string :=
  let field_names : gset string := ∅ in
  let field_names :=
    if self_default_auto_fields
    then field_names ∪ list_to_set default_names
    else field_names in
  let field_names :=
    foldl (λ (names : gset string) parent,
             (names ∪ list_to_set (include_auto_fields parent))
               ∖ list_to_set (exclude_auto_fields parent))
          field_names factory_parents in
  let field_names := field_names ∪ list_to_set self_include in
  let exclude_auto : gset string := list_to_set declared in
  let exclude_auto := exclude_auto ∪ list_to_set self_exclude in
  field_names ∖ exclude_auto.

(** The loop over [auto_declarations.items()]. *)
Fixpoint merge_auto_declarations (introspector_cls : IntrospectorClass)
    (field_names : gset string) (auto_declarations : odict attr)
    (declarations : odict attr) : outcome (odict attr) :=
  match auto_declarations with
  | [] => Return declarations
  | (field_name, auto_declaration) :: rest =>
      if decide (field_name ∈ field_names) then
        merge_auto_declarations introspector_cls field_names rest
          (od_set declarations field_name auto_declaration)
      else
        Raise (ValueError ("Introspector " +:+ introspector_name introspector_cls
                           +:+ " returned a field (" +:+ field_name
                           +:+ ") that it was not asked for"))
  end.

(** *** Parameter dependencies *)

(** What [declarations], [utils] and [builder] provide to the code of this
    file: [SimpleParameter.wrap], [sort_ordered_objects] (with the getter
    the code passes), [isinstance(_, declarations.Parameter)],
    [Parameter.get_revdeps], and [builder.parse_declarations] applied to
    the [declarations] property of the options object, which merges the
    base declarations with what [as_declarations] of each parameter
    returns. *)
Context {RawParam : Type}.
Variable wrap : RawParam → Param.
Variable sort_ordered_objects : odict RawParam → odict RawParam.
Variable isinstance_Parameter : Param → bool.
Variable get_revdeps : Param → odict Param → list string.
Variable parse_declarations :
  odict attr → odict Param → outcome (DeclarationSet * DeclarationSet).

(** [d[k]] on a [defaultdict(set)]: a missing key is inserted. *)
Definition dd_get (d : odict (gset string)) (k : string)
    : gset string * odict (gset string) :=
  match od_get d k with
  | Some s => (s, d)
  | None => (∅, od_set d k ∅)
  end.

(** [set.union( *(deep_revdeps[dep] for dep in field_revdeps) )] *)
Definition union_of_revdeps (deep_revdeps : odict (gset string))
    (field_revdeps : list string) : gset string * odict (gset string) :=
  foldl (λ '(acc, d) dep, let '(s, d') := dd_get d dep in (acc ∪ s, d'))
        (∅, deep_revdeps) field_revdeps.

(** [for dep in field_revdeps: deps[dep].add(name)] *)
Definition add_deps (deps : odict (gset string)) (name : string)
    (field_revdeps : list string) : odict (gset string) :=
  foldl (λ d dep, let '(s, d') := dd_get d dep in od_set d' dep (s ∪ {[name]}))
        deps field_revdeps.

(** One iteration of the loop over [parameters.items()]. *)
Definition check_parameter (parameters : odict Param)
    (st : odict (gset string) * odict (gset string))
    (item : string * Param) : odict (gset string) * odict (gset string) :=
  let '(deep_revdeps, deps) := st in
  let '(name, parameter) := item in
  if isinstance_Parameter parameter then
    let field_revdeps := get_revdeps parameter parameters in
    match field_revdeps with
    | [] => (deep_revdeps, deps)
    | _ =>
        let '(u, deep_revdeps) := union_of_revdeps deep_revdeps field_revdeps in
        let deep_revdeps := od_set deep_revdeps name u in
        let '(s, deep_revdeps) := dd_get deep_revdeps name in
        let deep_revdeps := od_set deep_revdeps name (s ∪ list_to_set field_revdeps) in
        (deep_revdeps, add_deps deps name field_revdeps)
    end
  else (deep_revdeps, deps).

(** [name for name, field_deps in deep_revdeps.items() if name in field_deps] *)
Definition cyclic_names (deep_revdeps : odict (gset string)) : list string :=
  (filter (λ item : string * gset string, item.1 ∈ item.2) deep_revdeps).*1.

Definition cyclic_message (factory_repr : string) (cyclic : list string) : string :=
  "Cyclic definition detected on " +:+ factory_repr
  +:+ "; Params around " +:+ String.concat ", " cyclic.

(** [FactoryOptions._check_parameter_dependencies] *)
Definition _check_parameter_dependencies (factory_repr : string)
    (parameters : odict Param) : outcome (odict (gset string)) :=
  let '(deep_revdeps, deps) := foldl (check_parameter parameters) ([], []) parameters in
  let cyclic := cyclic_names deep_revdeps in
  match cyclic with
  | [] => Return deps
  | _ => Raise (CyclicDefinitionError (cyclic_message factory_repr cyclic))
  end.

(** *** Registration of a definition *)

(** What a [class ...(Base):] statement hands to the metaclass, for a
    class with one base, which is [BaseFactory] or derives from it: the
    names; the base ([parent_factories[0]]: a registered definition, or
    [None] for [BaseFactory] itself, as in the module's own
    [FactoryMetaClass('Factory', (BaseFactory,), ...)]); the class
    attributes other than [Meta], [Params] and those listed next; the two
    blocks; and what the body itself defines of [_options_class], of the
    hooks [_setup_next_sequence], [_adjust_kwargs], [_build] and [_create],
    and of the class methods [build] and [create]. *)
Record ClassBody := {
  body_name : string;
  body_qualname : string;
  body_module : string;
  body_base : option fid;
  body_attrs : odict attr;
  body_Meta : option MetaBlock;
  body_Params : option (odict RawParam);
  body_options_class : option OptionsClass;
  body_setup_next_sequence : option Z;
  body_adjust_kwargs : option (kwargs → kwargs);
  body_build : option (option pyclass → list value → kwargs → outcome pyobject);
  body_create : option (option pyclass → list value → kwargs → outcome pyobject);
  body_classmethod_build : option build_body;
  body_classmethod_create : option create_body;
}.

(** [repr] of the class under construction. *)
Definition repr_body (body : ClassBody) : string :=
  type_repr (body_module body) (body_qualname body).

(** The loop over [vars(self.factory).items()]. *)
Definition own_declarations (attrs : odict attr)
    (declarations : odict attr) : odict attr :=
  foldl (λ acc kv, if _is_declaration kv.1 kv.2 then od_set acc kv.1 kv.2 else acc)
        declarations attrs.

(** The loop over the sorted [vars(params).items()]. *)
Definition own_parameters (params : odict RawParam)
    (acc : odict Param) : odict Param :=
  foldl (λ acc kv, if String.prefix "_" kv.1 then acc else od_set acc kv.1 (wrap kv.2))
        acc (sort_ordered_objects params).

(** What [contribute_to_class] has set on the options object when it
    reaches the check of the parameter dependencies. *)
Record Collected := {
  col_options : OptionValues;
  col_introspector : IntrospectorClass;
  col_model : option pyclass;
  col_abstract : bool;
  col_counter_reference : fid;
  col_base_declarations : odict attr;
  col_parameters : odict Param;
}.

(** [FactoryOptions.contribute_to_class], from its first line to the merge
    of the parameters, on an options object of class [options_class], for
    the new class [self], whose [__mro__[1:]] holds the factories [mro]
    (nearest first). *)
Definition contribute_to_class_until_check (options_class : OptionsClass)
    (cs : list Factory) (self : fid)
    (mro : list fid) (body : ClassBody) (base_meta : option FactoryOptions)
    (self_base_factory : option fid) : outcome Collected :=
  opts ← _fill_from_meta (repr_body body) (body_Meta body) base_meta;
  let self_introspector :=
    match o_introspector_class opts with
    | None => DEFAULT_INTROSPECTOR_CLASS options_class
    | Some ic => ic
    end in
  let self_model := o_model opts in
  let self_abstract :=
    match self_model with None => true | Some _ => o_abstract opts end in
  self_counter_reference ←
    _get_counter_reference cs self self_model self_base_factory;
  factory_parents ← mapM (lookup_meta cs) (reverse mro);
  let self_base_declarations :=
    foldl (λ acc parent, od_update acc (base_declarations parent)) [] factory_parents in
  let self_parameters :=
    foldl (λ acc parent, od_update acc (parameters parent)) [] factory_parents in
  let self_base_declarations :=
    own_declarations (body_attrs body) self_base_declarations in
  self_base_declarations ←
    (if negb self_abstract
        && (o_default_auto_fields opts
            || bool_decide (o_include_auto_fields opts ≠ []))
     then
       default_names ←
         (if o_default_auto_fields opts
          then get_default_field_names self_introspector self_model
          else Return []);
       let field_names :=
         candidate_field_names (o_default_auto_fields opts) default_names
           factory_parents (o_include_auto_fields opts)
           (o_exclude_auto_fields opts) (od_keys self_base_declarations) in
       let exclude_auto : gset string :=
         list_to_set (od_keys self_base_declarations)
           ∪ list_to_set (o_exclude_auto_fields opts) in
       auto_declarations ←
         build_declarations self_introspector self self_model field_names exclude_auto;
       merge_auto_declarations self_introspector field_names auto_declarations
         self_base_declarations
     else Return self_base_declarations);
  let self_parameters :=
    match body_Params body with
    | Some params => own_parameters params self_parameters
    | None => self_parameters
    end in
  Return
    {| col_options := opts; col_introspector := self_introspector;
       col_model := self_model; col_abstract := self_abstract;
       col_counter_reference := self_counter_reference;
       col_base_declarations := self_base_declarations;
       col_parameters := self_parameters |}.

(** [FactoryOptions.contribute_to_class]: the part above, then the check of
    the parameter dependencies and the split into pre- and
    post-declarations.  The result is the filled options object. *)
Definition contribute_to_class (options_class : OptionsClass)
    (cs : list Factory) (self : fid)
    (mro : list fid) (body : ClassBody) (base_meta : option FactoryOptions)
    (self_base_factory : option fid) : outcome FactoryOptions :=
  col ← contribute_to_class_until_check options_class cs self mro body base_meta
          self_base_factory;
  let opts := col_options col in
  _ ← _check_parameter_dependencies (repr_body body) (col_parameters col);
  '(pre, post) ← parse_declarations (col_base_declarations col) (col_parameters col);
  Return
    {| factory := self; base_factory := self_base_factory;
       model := col_model col; abstract := col_abstract col;
       strategy := o_strategy opts; inline_args := o_inline_args opts;
       exclude := o_exclude opts; rename := o_rename opts;
       introspector_class := o_introspector_class opts;
       default_auto_fields := o_default_auto_fields opts;
       include_auto_fields := o_include_auto_fields opts;
       exclude_auto_fields := o_exclude_auto_fields opts;
       base_declarations := col_base_declarations col;
       parameters := col_parameters col;
       pre_declarations := pre; post_declarations := post;
       introspector := col_introspector col;
       _counter := None; counter_reference := col_counter_reference col |}.

(** [BaseFactory._adjust_kwargs] *)
Definition BaseFactory_adjust_kwargs (kw : kwargs) : kwargs := kw.

(** [BaseFactory._setup_next_sequence] *)
Definition BaseFactory_setup_next_sequence : Z := 0.

(** A class attribute defined by the body, else inherited, else the one of
    [BaseFactory] (for [_options_class], which [BaseFactory] does not
    define, the default of [resolve_attribute]). *)
Definition resolve_method {T} (own : option T) (base : option Factory)
    (inherited : Factory → T) (default : T) : T :=
  match own, base with
  | Some m, _ => m
  | None, Some b => inherited b
  | None, None => default
  end.

(** [FactoryMetaClass.__new__]: create the options object (of the class
    that [resolve_attribute('_options_class', bases, FactoryOptions)]
    finds), create the class object, run [contribute_to_class] on the
    options, and return the new class.  When [contribute_to_class] raises,
    no class comes into existence.  The bare options object of
    [BaseFactory] reads as no [base_meta]: every [getattr] on it falls back
    to the default. *)
Definition FactoryMetaClass_new (body : ClassBody) : M fid := λ σ,
  let cs := classes σ in
  let new_class := length cs in
  let base := body_base body ≫= (λ b, cs !! b) in
  let mro := match body_base body, base with
             | Some b, Some bcls => b :: mro_tail bcls
             | _, _ => []
             end in
  let base_meta := _meta <$> base in
  let options_class :=
    match base with
    | Some bcls => _options_class bcls
    | None => FactoryOptions_class
    end in
  match body_base body, base with
  | Some _, None => (Raise Dangling, σ)
  | _, _ =>
      match contribute_to_class options_class cs new_class mro body base_meta
              (body_base body) with
      | Raise e => (Raise e, σ)
      | Return meta =>
          let cls :=
            {| __name__ := body_name body; __qualname__ := body_qualname body;
               __module__ := body_module body;
               mro_tail := mro; _meta := meta;
               _options_class :=
                 resolve_method (body_options_class body) base
                   _options_class FactoryOptions_class;
               _setup_next_sequence :=
                 resolve_method (body_setup_next_sequence body) base
                   _setup_next_sequence BaseFactory_setup_next_sequence;
               _adjust_kwargs :=
                 resolve_method (body_adjust_kwargs body) base
                   _adjust_kwargs BaseFactory_adjust_kwargs;
               _build := resolve_method (body_build body) base _build call_model;
               _create := resolve_method (body_create body) base _create call_model;
               classmethod_build :=
                 resolve_method (body_classmethod_build body) base
                   classmethod_build BaseFactory_build;
               classmethod_create :=
                 resolve_method (body_classmethod_create body) base
                   classmethod_create BaseFactory_create |} in
          (Return new_class, set_classes σ (cs ++ [cls]))
      end
  end.

(** ** Invocation *)

(** [builder.StepBuilder(meta, params, strategy).build()], from a module
    outside this file's source. *)
Variable StepBuilder_build : fid → kwargs → string → M pyobject.

Definition abstract_error_message (f : string) : string :=
  "Cannot generate instances of abstract factory " +:+ f
  +:+ "; Ensure " +:+ f +:+ ".Meta.model is set and " +:+ f
  +:+ ".Meta.abstract is either not set or False.".

(** [BaseFactory._generate] *)
Definition _generate (cls : fid) (strategy_name : string) (params : kwargs)
    : M pyobject :=
  c ← get_class cls;
  if abstract (_meta c) then
    raise (FactoryError (abstract_error_message (__name__ c)))
  else
    StepBuilder_build cls params strategy_name.

(** [cls.stub( **kwargs )]: [BaseFactory.stub], which no class of
    [base.py] overrides. *)
Definition stub (cls : fid) (kw : kwargs) : M pyobject :=
  _generate cls STUB_STRATEGY kw.

(** [cls.build( **kwargs )]: the attribute lookup on the class finds
    [BaseFactory.build] or [StubFactory.build]. *)
Definition build (cls : fid) (kw : kwargs) : M pyobject :=
  c ← get_class cls;
  match classmethod_build c with
  | BaseFactory_build => _generate cls BUILD_STRATEGY kw
  | StubFactory_build => stub cls kw
  end.

(** [cls.create( **kwargs )]: [BaseFactory.create] or [StubFactory.create]. *)
Definition create (cls : fid) (kw : kwargs) : M pyobject :=
  c ← get_class cls;
  match classmethod_create c with
  | BaseFactory_create => _generate cls CREATE_STRATEGY kw
  | StubFactory_create => raise UnsupportedStrategy
  end.

(** [FactoryMetaClass.__call__] *)
Definition FactoryMetaClass_call (cls : fid) (kw : kwargs) : M pyobject :=
  c ← get_class cls;
  if decide (strategy (_meta c) = BUILD_STRATEGY) then build cls kw
  else if decide (strategy (_meta c) = CREATE_STRATEGY) then create cls kw
  else if decide (strategy (_meta c) = STUB_STRATEGY) then stub cls kw
  else raise (UnknownStrategy ("Unknown Meta.strategy: " +:+ strategy (_meta c))).

(** [kwargs.pop(name)] *)
Definition pop (kw : kwargs) (name : string) : outcome (value * kwargs) :=
  match kw !! name with
  | Some v => Return (v, delete name kw)
  | None => Raise (KeyError name)
  end.

(** Step 2 of [prepare_arguments]: the dict comprehension. *)
Definition remove_hidden (meta : FactoryOptions) (kw : kwargs) : kwargs :=
  filter (λ kv : string * value,
            (kv.1 ∉ exclude meta) ∧ (kv.1 ∉ od_keys (parameters meta)) ∧ (kv.2 ≠ SKIP))
         kw.

(** Step 3: the loop over [self.rename.items()]. *)
Fixpoint rename_fields (renames : odict string) (kw : kwargs) : outcome kwargs :=
  match renames with
  | [] => Return kw
  | (old_name, new_name) :: rest =>
      '(v, kw) ← pop kw old_name;
      rename_fields rest (<[new_name := v]> kw)
  end.

(** Step 4: the generator over [self.inline_args]. *)
Fixpoint extract_inline_args (names : list string) (kw : kwargs)
    : outcome (list value * kwargs) :=
  match names with
  | [] => Return ([], kw)
  | arg_name :: rest =>
      '(v, kw) ← pop kw arg_name;
      '(args, kw) ← extract_inline_args rest kw;
      Return (v :: args, kw)
  end.

(** [FactoryOptions.prepare_arguments]; [cls] is [self.factory]. *)
Definition prepare_arguments (cls : Factory) (attributes : kwargs)
    : outcome (list value * kwargs) :=
  let meta := _meta cls in
  let kw := attributes in
  let kw := _adjust_kwargs cls kw in
  let kw := remove_hidden meta kw in
  kw ← rename_fields (rename meta) kw;
  extract_inline_args (inline_args meta) kw.

(** [FactoryOptions.get_model_class] *)
Definition get_model_class (meta : FactoryOptions) : option pyclass := model meta.

(** [FactoryOptions.instantiate]; [strategy_name] is [step.builder.strategy]. *)
Definition instantiate (cls : Factory) (strategy_name : string)
    (args : list value) (kw : kwargs) : outcome pyobject :=
  let model_class := get_model_class (_meta cls) in
  if decide (strategy_name = BUILD_STRATEGY) then _build cls model_class args kw
  else if decide (strategy_name = CREATE_STRATEGY) then _create cls model_class args kw
  else if decide (strategy_name = STUB_STRATEGY) then Return (StubObject kw)
  else Raise AssertionError.

(** [use_strategy(new_strategy)(klass)] *)
Definition use_strategy (new_strategy : string) (klass : fid) : M fid := λ σ,
  match classes σ !! klass with
  | Some cls =>
      (Return klass,
       set_classes σ (<[klass := set__meta cls (set_strategy (_meta cls) new_strategy)]>
                        (classes σ)))
  | None => (Raise Dangling, σ)
  end.

(** ** Stores built by registration, and what a shared counter will yield *)

Definition registered (σ : store) (f : fid) : Prop := is_Some (classes σ !! f).

(** [f._meta.counter_reference] *)
Definition reference (σ : store) (f : fid) : fid :=
  match classes σ !! f with
  | Some cls => counter_reference (_meta cls)
  | None => f
  end.

(** [f._meta._counter] *)
Definition counter_of (σ : store) (f : fid) : option addr :=
  cls ← classes σ !! f; _counter (_meta cls).

(** The shape of every store reached by registering definitions and using
    their sequences: references point at registered owners, which are their
    own reference; an initialised definition holds the very counter object
    of its owner; distinct owners hold distinct objects. *)
Record wf_store (σ : store) : Prop := {
  wf_factory : ∀ f cls, classes σ !! f = Some cls → factory (_meta cls) = f;
  wf_reference : ∀ f, registered σ f →
    registered σ (reference σ f) ∧ reference σ (reference σ f) = reference σ f;
  wf_shared : ∀ f c, counter_of σ f = Some c →
    counter_of σ (reference σ f) = Some c;
  wf_alloc : ∀ f c, counter_of σ f = Some c → (c < length (counters σ))%nat;
  wf_separate : ∀ f g c, counter_of σ f = Some c → counter_of σ g = Some c →
    reference σ f = reference σ g;
}.

(** The stores a program can reach: class statements, calls of the
    sequence interface on registered definitions, and [use_strategy]. *)
Inductive reachable : store → Prop :=
| reachable_start : reachable {| classes := []; counters := [] |}
| reachable_class body σ :
    reachable σ → reachable (FactoryMetaClass_new body σ).2
| reachable_next fuel f σ :
    reachable σ → registered σ f → (2 ≤ fuel)%nat →
    reachable (next_sequence fuel f σ).2
| reachable_reset fuel f value force σ :
    reachable σ → registered σ f → (2 ≤ fuel)%nat →
    reachable (reset_sequence fuel f value force σ).2
| reachable_use_strategy new_strategy klass σ :
    reachable σ → reachable (use_strategy new_strategy klass σ).2.

(** The integer the counter owned by [r] yields next: the [seq] of its
    counter object, or, before first use, the owner's
    [_setup_next_sequence()]. *)
Definition cursor (σ : store) (r : fid) : Z :=
  match classes σ !! r with
  | Some cls =>
      match _counter (_meta cls) with
      | Some c => default 0 (counters σ !! c)
      | None => _setup_next_sequence cls
      end
  | None => 0
  end.

(** Everything of a class except the [_counter] field of its options. *)
Definition forget_counter (cls : Factory) : Factory :=
  set__meta cls (set__counter (_meta cls) None).

Definition same_definitions (σ σ' : store) : Prop :=
  forget_counter <$> classes σ = forget_counter <$> classes σ'.

(** A caller's use of the sequence interface. *)
Inductive call :=
| Next (f : fid)
| Reset (f : fid) (v : option Z) (force : bool).

Definition call_target (c : call) : fid :=
  match c with Next f => f | Reset f _ _ => f end.

Definition do_call (fuel : nat) (c : call) : M (option Z) :=
  match c with
  | Next f => v ← next_sequence fuel f; mret (Some v)
  | Reset f v force => reset_sequence fuel f v force;; mret None
  end.

(** A caller performing the calls in order, observing each outcome (an
    exception ends that call only). *)
Fixpoint run (fuel : nat) (calls : list call) (σ : store)
    : list (call * outcome (option Z)) * store :=
  match calls with
  | [] => ([], σ)
  | c :: rest =>
      let '(o, σ1) := do_call fuel c σ in
      let '(log, σ2) := run fuel rest σ1 in
      ((c, o) :: log, σ2)
  end.

(** The integers handed out, in order, to definitions whose counter
    reference is [r]. *)
Fixpoint sequence_values (σ : store) (r : fid)
    (log : list (call * outcome (option Z))) : list Z :=
  match log with
  | [] => []
  | (Next f, Return (Some v)) :: rest =>
      if decide (reference σ f = r)
      then v :: sequence_values σ r rest
      else sequence_values σ r rest
  | _ :: rest => sequence_values σ r rest
  end.

(** A reset that the ownership rule lets through, on the counter of [r]. *)
Definition resets (σ : store) (r : fid) (c : call) : Prop :=
  match c with
  | Next _ => False
  | Reset f _ force => reference σ f = r ∧ (f = r ∨ force = true)
  end.

(** How many of the calls ask the counter of [r] for a value. *)
Fixpoint next_calls (σ : store) (r : fid) (calls : list call) : nat :=
  match calls with
  | [] => O
  | Next f :: rest =>
      if decide (reference σ f = r)
      then S (next_calls σ r rest)
      else next_calls σ r rest
  | Reset _ _ _ :: rest => next_calls σ r rest
  end.

(** [n, n+1, ..., n+k-1] *)
Fixpoint consecutive (n : Z) (k : nat) : list Z :=
  match k with
  | O => []
  | S k' => n :: consecutive (n + 1) k'
  end.

(** ** Reference readings of the argument pipeline and of field selection *)

(** [x] declares [y] among its reverse-dependencies. *)
Definition depends (parameters : odict Param) (x y : string) : Prop :=
  ∃ p, (x, p) ∈ parameters ∧ isinstance_Parameter p = true
       ∧ y ∈ get_revdeps p parameters.

(** The set a [defaultdict(set)] holds for [k] (empty when absent). *)
Definition dd_value (d : odict (gset string)) (k : string) : gset string :=
  default ∅ (od_get d k).

(** The same class statement with [strategy = s] in its [Meta] block. *)
Definition with_strategy (body : ClassBody) (s : string) : ClassBody :=
  {| body_name := body_name body; body_qualname := body_qualname body;
     body_module := body_module body;
     body_base := body_base body; body_attrs := body_attrs body;
     body_Meta := Some (set_meta_strategy (body_Meta body) s);
     body_Params := body_Params body;
     body_options_class := body_options_class body;
     body_setup_next_sequence := body_setup_next_sequence body;
     body_adjust_kwargs := body_adjust_kwargs body;
     body_build := body_build body; body_create := body_create body;
     body_classmethod_build := body_classmethod_build body;
     body_classmethod_create := body_classmethod_create body |}.

(** The candidate set read as one union minus one union: the default set
    (when enabled) and every inclusion of the chain, minus every exclusion
    of the chain and the declared names. *)
Definition claimed_field_names (self_default_auto_fields : bool)
    (default_names : list string) (factory_parents : list FactoryOptions)
    (self_include self_exclude : list string) (declared : list string)
    : gset string :=
  ((if self_default_auto_fields then list_to_set default_names else ∅)
     ∪ ⋃ ((λ p, list_to_set (include_auto_fields p)) <$> factory_parents)
     ∪ list_to_set self_include)
  ∖ (⋃ ((λ p, list_to_set (exclude_auto_fields p)) <$> factory_parents)
       ∪ list_to_set self_exclude ∪ list_to_set declared).

(** Whether the ancestors hand the name [x] down: the nearest ancestor that
    mentions [x] decides, an exclusion beating an inclusion of the same
    ancestor; [by_default] decides when no ancestor mentions it. *)
Fixpoint inherited_decision (nearest_first : list FactoryOptions)
    (x : string) (by_default : bool) : bool :=
  match nearest_first with
  | [] => by_default
  | parent :: further =>
      if decide (x ∈ exclude_auto_fields parent) then false
      else if decide (x ∈ include_auto_fields parent) then true
      else inherited_decision further x by_default
  end.

(** An entry that step 2 of [prepare_arguments] removes. *)
Definition hidden (meta : FactoryOptions) (k : string) (v : value) : Prop :=
  k ∈ exclude meta ∨ k ∈ od_keys (parameters meta) ∨ v = SKIP.

(** Applying the rename map, pair by pair in its order: the entry stored
    under the declared name moves to the constructor name. *)
Inductive renamed_by : odict string → kwargs → kwargs → Prop :=
| renamed_done kw : renamed_by [] kw kw
| renamed_move old_name new_name rest kw v kw' :
    kw !! old_name = Some v →
    renamed_by rest (<[new_name := v]> (delete old_name kw)) kw' →
    renamed_by ((old_name, new_name) :: rest) kw kw'.

(** The four steps, in order, as a relation between the resolved attributes
    and the returned pair. *)
Definition prepared_by_steps (cls : Factory) (attributes : kwargs)
    (args : list value) (kw : kwargs) : Prop :=
  let meta := _meta cls in
  ∃ visible renamed : kwargs,
    (∀ k v, visible !! k = Some v
            ↔ _adjust_kwargs cls attributes !! k = Some v ∧ ¬ hidden meta k v)
    ∧ renamed_by (rename meta) visible renamed
    ∧ NoDup (inline_args meta)
    ∧ Forall2 (λ name v, renamed !! name = Some v) (inline_args meta) args
    ∧ (∀ k, kw !! k = if decide (k ∈ inline_args meta) then None else renamed !! k).

(** [σ] after [self._counter = c] on the options of [f]. *)
Definition with_counter (σ : store) (f : fid) (cls : Factory)
    (c : option addr) : store :=
  set_classes σ (<[f := set__meta cls (set__counter (_meta cls) c)]> (classes σ)).

(** [σ'] is [σ] after some counters were initialised: no definition lost
    its counter and nothing an owner will yield has changed. *)
Definition extends (σ σ' : store) : Prop :=
  same_definitions σ σ'
  ∧ (∀ g c, counter_of σ g = Some c → counter_of σ' g = Some c)
  ∧ (∀ q, registered σ q → reference σ q = q → cursor σ' q = cursor σ q).

(** Every later element is strictly greater than every earlier one. *)
Definition strictly_increasing (l : list Z) : Prop :=
  ∀ i j a b, (i < j)%nat → l !! i = Some a → l !! j = Some b → a < b.

(** ** Batches and generation by strategy name *)

(** [[action( **kwargs ) for _ in range(size)]]: the calls are made in
    order and the first exception ends the comprehension. *)
Fixpoint repeat_call {A} (action : M A) (n : nat) : M (list A) :=
  match n with
  | O => mret []
  | S n' => x ← action; xs ← repeat_call action n'; mret (x :: xs)
  end.

(** [BaseFactory.build_batch], [create_batch] and [stub_batch], which call
    [cls.build], [cls.create] and [cls.stub]; [range(size)] is empty for
    [size <= 0]. *)
Definition build_batch (cls : fid) (size : Z) (kw : kwargs) : M (list pyobject) :=
  repeat_call (build cls kw) (Z.to_nat size).

Definition create_batch (cls : fid) (size : Z) (kw : kwargs) : M (list pyobject) :=
  repeat_call (create cls kw) (Z.to_nat size).

Definition stub_batch (cls : fid) (size : Z) (kw : kwargs) : M (list pyobject) :=
  repeat_call (stub cls kw) (Z.to_nat size).

(** [BaseFactory.generate]: [getattr(cls, strategy)] is the class method of
    that name, as the class has it. *)
Definition generate (cls : fid) (strategy_name : string) (kw : kwargs)
    : M pyobject :=
  if bool_decide (strategy_name ∈ [STUB_STRATEGY; BUILD_STRATEGY; CREATE_STRATEGY])
  then
    if decide (strategy_name = BUILD_STRATEGY) then build cls kw
    else if decide (strategy_name = CREATE_STRATEGY) then create cls kw
    else stub cls kw
  else raise AssertionError.

(** [BaseFactory.generate_batch]: [getattr(cls, '%s_batch' % strategy)];
    no class of [base.py] overrides the batch methods. *)
Definition generate_batch (cls : fid) (strategy_name : string) (size : Z)
    (kw : kwargs) : M (list pyobject) :=
  if bool_decide (strategy_name ∈ [STUB_STRATEGY; BUILD_STRATEGY; CREATE_STRATEGY])
  then
    if decide (strategy_name = BUILD_STRATEGY) then build_batch cls size kw
    else if decide (strategy_name = CREATE_STRATEGY) then create_batch cls size kw
    else stub_batch cls size kw
  else raise AssertionError.

(** [BaseFactory.simple_generate] *)
Definition simple_generate (cls : fid) (create : bool) (kw : kwargs) : M pyobject :=
  let strategy_name := if create then CREATE_STRATEGY else BUILD_STRATEGY in
  generate cls strategy_name kw.

(** [BaseFactory.simple_generate_batch] *)
Definition simple_generate_batch (cls : fid) (create : bool) (size : Z)
    (kw : kwargs) : M (list pyobject) :=
  let strategy_name := if create then CREATE_STRATEGY else BUILD_STRATEGY in
  generate_batch cls strategy_name size kw.

(** [BaseFactory.auto_factory]: a class statement assembled at run time.
    [type(factory_name, (cls,), attrs)] is called from [factory/base.py],
    which is therefore the module of the new class, and the qualified name
    is the name.  [field_overrides] are the keyword arguments that set
    plain attributes: not [Params] (which the metaclass would take for the
    parameter block) nor a name the class statement treats apart
    ([__module__], [__qualname__], a hook or a class method).  They become
    the class attributes, except that [attrs['Meta'] = Meta] replaces an
    override of that name. *)
Definition auto_factory (cls : fid) (model : pyclass)
    (default_auto_fields : bool)
    (include_auto_fields exclude_auto_fields : list string)
    (introspector_class : option IntrospectorClass)
    (field_overrides : odict attr) : M fid :=
  let factory_name := cls_name model +:+ "AutoFactory" in
  let Meta :=
    {| meta_model := Some (Some model); meta_abstract := None;
       meta_strategy := None; meta_inline_args := None; meta_exclude := None;
       meta_rename := None;
       meta_introspector_class :=
         match introspector_class with
         | Some ic => Some (Some ic)
         | None => None
         end;
       meta_default_auto_fields := Some default_auto_fields;
       meta_include_auto_fields := Some include_auto_fields;
       meta_exclude_auto_fields := Some exclude_auto_fields;
       meta_unknown := [] |} in
  FactoryMetaClass_new
    {| body_name := factory_name; body_qualname := factory_name;
       body_module := "factory.base";
       body_base := Some cls;
       body_attrs := filter (λ kv, kv.1 ≠ "Meta") field_overrides;
       body_Meta := Some Meta; body_Params := None;
       body_options_class := None;
       body_setup_next_sequence := None; body_adjust_kwargs := None;
       body_build := None; body_create := None;
       body_classmethod_build := None; body_classmethod_create := None |}.

(** ** Dictionary and list factories *)

(** What [raise ValueError(fmt, cls)] shows: the two arguments as a tuple. *)
Definition inline_args_error (kind cls_repr : string) : exn :=
  ValueError ("('" +:+ kind +:+ " %r does not support Meta.inline_args.', "
              +:+ cls_repr +:+ ")").

(** [BaseDictFactory._build] *)
Definition BaseDictFactory_build (cls_repr : string)
    (model_class : option pyclass) (args : list value) (kw : kwargs)
    : outcome pyobject :=
  match args with
  | [] => call_model model_class [] kw
  | _ => Raise (inline_args_error "DictFactory" cls_repr)
  end.

(** [BaseDictFactory._create] *)
Definition BaseDictFactory_create (cls_repr : string)
    (model_class : option pyclass) (args : list value) (kw : kwargs)
    : outcome pyobject :=
  BaseDictFactory_build cls_repr model_class args kw.

(** [sorted(kwargs.items())]: the keys of a dict are distinct, so the pairs
    are ordered by their keys. *)
Definition sorted_items (kw : kwargs) : list (string * value) :=
  merge_sort (λ a b : string * value, string_le a.1 b.1) (map_to_list kw).

(** The model class called on one list: [model_class(values)]. *)
Inductive listobject :=
| ListOf (cls : pyclass) (values : list value).

(** [BaseListFactory._build] *)
Definition BaseListFactory_build (cls_repr : string)
    (model_class : option pyclass) (args : list value) (kw : kwargs)
    : outcome listobject :=
  match args with
  | [] =>
      let values := (sorted_items kw).*2 in
      match model_class with
      | Some c => Return (ListOf c values)
      | None => Raise (TypeError "'NoneType' object is not callable")
      end
  | _ => Raise (inline_args_error "ListFactory" cls_repr)
  end.

(** [BaseListFactory._create] *)
Definition BaseListFactory_create (cls_repr : string)
    (model_class : option pyclass) (args : list value) (kw : kwargs)
    : outcome listobject :=
  BaseListFactory_build cls_repr model_class args kw.

(** ** Reference readings for the further properties *)

(** Every factory of every [__mro__] is a registered definition. *)
Definition mro_closed (σ : store) : Prop :=
  ∀ f cls, classes σ !! f = Some cls → Forall (registered σ) (mro_tail cls).

(** The value bound to [k] by the first mapping of the list that binds it. *)
Fixpoint first_defined {V} (ds : list (odict V)) (k : string) : option V :=
  match ds with
  | [] => None
  | d :: rest =>
      match od_get d k with
      | Some v => Some v
      | None => first_defined rest k
      end
  end.

(** [d] comes before [n] in the iteration order of the mapping. *)
Definition declared_before (parameters : odict Param) (d n : string) : Prop :=
  ∃ i j, (i < j)%nat ∧ od_keys parameters !! i = Some d
         ∧ od_keys parameters !! j = Some n.

(** The names a chain of reverse-dependencies reaches from [n] when every
    parameter the chain passes through was declared before the one that
    names it. *)
Inductive accumulated (parameters : odict Param) : string → string → Prop :=
| accumulated_direct n y :
    depends parameters n y → accumulated parameters n y
| accumulated_through n d y :
    depends parameters n d → declared_before parameters d n →
    accumulated parameters d y → accumulated parameters n y.

(** The values a prepared call hands to the model: positional, then keyword. *)
Definition passed_values (args : list value) (kw : kwargs) : list value :=
  (args ++ (map_to_list kw).*2)%list.

End Registry.

(** ** Concrete collaborators and definitions *)

Module Examples.

(** Modelled from the spec: [declarations.Parameter] is not part of the
    source at hand.  "Each Parameter declares its direct
    reverse-dependencies (parameters whose value it reads)": a trait is
    the list of names it declares. *)
Record Trait := { declared_revdeps : list string }.

Definition trait_revdeps (p : Trait) (parameters : odict Trait) : list string :=
  declared_revdeps p.

(** Modelled from the spec: [builder.parse_declarations] is not part of the
    source at hand.  "Partition into pre (evaluated before instantiation)
    and post" subsets, by builder phase. *)
Definition partition_declarations (declarations : odict attr)
    (parameters : odict Trait) : outcome (odict attr * odict attr) :=
  Return
    (filter (λ kv, get_builder_phase kv.2 ≠ Some POST_INSTANTIATION) declarations,
     filter (λ kv, get_builder_phase kv.2 = Some POST_INSTANTIATION) declarations).

Abbreviation Store := (@store Trait (odict attr)).

Abbreviation new_class :=
  (FactoryMetaClass_new (Param:=Trait) (DeclarationSet:=odict attr)
     (RawParam:=Trait) id id (λ _, true) trait_revdeps partition_declarations).

(** Modelled from the spec: [builder.StepBuilder] is not part of the source
    at hand.  This stand-in takes every attribute from the caller and goes
    straight to "drop excluded names ..., then apply the rename map, then
    extract inline-positional names" and the strategy dispatch. *)
Definition resolve_and_instantiate (cls : fid) (params : kwargs)
    (strategy_name : string) : M (Param:=Trait) (DeclarationSet:=odict attr) pyobject :=
  c ← get_class cls;
  match prepare_arguments c params with
  | Return (args, kw) =>
      match instantiate c strategy_name args kw with
      | Return obj => mret obj
      | Raise e => raise e
      end
  | Raise e => raise e
  end.

Definition empty_store : Store := {| classes := []; counters := [] |}.

(** [class <name>(<base>): class Meta: ...] with no attributes or methods. *)
Definition plain_body (name : string) (base : option fid)
    (meta : option MetaBlock) : ClassBody (RawParam:=Trait) :=
  {| body_name := name; body_qualname := name; body_module := "tests";
     body_base := base;
     body_attrs := []; body_Meta := meta; body_Params := None;
     body_options_class := None;
     body_setup_next_sequence := None; body_adjust_kwargs := None;
     body_build := None; body_create := None;
     body_classmethod_build := None; body_classmethod_create := None |}.

Definition with_model (m : pyclass) : MetaBlock :=
  {| meta_model := Some (Some m); meta_abstract := None; meta_strategy := None;
     meta_inline_args := None; meta_exclude := None; meta_rename := None;
     meta_introspector_class := None; meta_default_auto_fields := None;
     meta_include_auto_fields := None; meta_exclude_auto_fields := None;
     meta_unknown := [] |}.

(** [object], and the model classes [class User: ...],
    [class Admin(User): ...] and [class Order: ...]. *)
Definition object : pyclass :=
  {| cls_id := 0; cls_name := "object"; cls_mro_tail := [] |}.
Definition User : pyclass :=
  {| cls_id := 1; cls_name := "User"; cls_mro_tail := [object] |}.
Definition Admin : pyclass :=
  {| cls_id := 2; cls_name := "Admin"; cls_mro_tail := [User; object] |}.
Definition Order : pyclass :=
  {| cls_id := 3; cls_name := "Order"; cls_mro_tail := [object] |}.

(** Another class that is also called [User], in another module:
    [class User(Order): ...]. *)
Definition LegacyUser : pyclass :=
  {| cls_id := 4; cls_name := "User"; cls_mro_tail := [Order; object] |}.

(** [BaseMeta] *)
Definition BaseMeta : MetaBlock :=
  {| meta_model := None; meta_abstract := Some true;
     meta_strategy := Some CREATE_STRATEGY;
     meta_inline_args := None; meta_exclude := None; meta_rename := None;
     meta_introspector_class := None; meta_default_auto_fields := None;
     meta_include_auto_fields := None; meta_exclude_auto_fields := None;
     meta_unknown := [] |}.

(** The store after the module's own
    [Factory = FactoryMetaClass('Factory', (BaseFactory,), {'Meta': BaseMeta})]
    (definition 0). *)
Definition base_store : Store :=
  (new_class (plain_body "Factory" None (Some BaseMeta)) empty_store).2.

(** [base_store] after
    [class UserFactory(Factory): class Meta: model = User] (definition 1),
    [class AdminFactory(UserFactory): class Meta: model = Admin]
    (definition 2) and
    [class OrderFactory(Factory): class Meta: model = Order]
    (definition 3). *)
Definition three_factories : Store :=
  let σ := (new_class (plain_body "UserFactory" (Some 0%nat) (Some (with_model User)))
              base_store).2 in
  let σ := (new_class (plain_body "AdminFactory" (Some 1%nat) (Some (with_model Admin)))
              σ).2 in
  (new_class (plain_body "OrderFactory" (Some 0%nat) (Some (with_model Order))) σ).2.

(** [class PremiumUserFactory(UserFactory): pass]: the model is inherited,
    so it is [User], the very model of the base. *)
Definition premium_body : ClassBody (RawParam:=Trait) :=
  plain_body "PremiumUserFactory" (Some 1%nat) None.

(** [class Params: a = Trait(b=...); b = Trait(a=...)] on a new factory. *)
Definition mutual_traits : odict Trait :=
  [("a", {| declared_revdeps := ["b"] |}); ("b", {| declared_revdeps := ["a"] |})].

Definition with_params (name : string) (params : odict Trait)
    : ClassBody (RawParam:=Trait) :=
  {| body_name := name; body_qualname := name; body_module := "tests";
     body_base := Some 0%nat;
     body_attrs := []; body_Meta := None; body_Params := Some params;
     body_options_class := None;
     body_setup_next_sequence := None; body_adjust_kwargs := None;
     body_build := None; body_create := None;
     body_classmethod_build := None; body_classmethod_create := None |}.

(** Two traits that each override themselves, declared as [z] then [a]. *)
Definition self_traits : odict Trait :=
  [("z", {| declared_revdeps := ["z"] |}); ("a", {| declared_revdeps := ["a"] |})].

(** A cycle through three traits, declared as [a], [b], [c]. *)
Definition cycle_of_three : odict Trait :=
  [("a", {| declared_revdeps := ["b"] |}); ("b", {| declared_revdeps := ["c"] |});
   ("c", {| declared_revdeps := ["a"] |})].

(** A diamond: [c] reads [a] and [b], which both read [d]. *)
Definition diamond_traits : odict Trait :=
  [("d", {| declared_revdeps := [] |}); ("a", {| declared_revdeps := ["d"] |});
   ("b", {| declared_revdeps := ["d"] |}); ("c", {| declared_revdeps := ["a"; "b"] |})].

(** A height in the diamond: every trait sits above what it reads. *)
Definition diamond_rank (name : string) : nat :=
  if decide (name = "c") then 2%nat
  else if decide (name = "a") then 1%nat
  else if decide (name = "b") then 1%nat
  else 0%nat.

(** [class NoModelFactory(Factory): class Meta: strategy = STUB_STRATEGY] *)
Definition no_model_body : ClassBody (RawParam:=Trait) :=
  plain_body "NoModelFactory" (Some 0%nat)
    (Some (set_meta_strategy None STUB_STRATEGY)).

(** [class UserFactory(Factory): class Meta: model = User] *)
Definition user_body : ClassBody (RawParam:=Trait) :=
  plain_body "UserFactory" (Some 0%nat) (Some (with_model User)).

(** Field selection as in [test_factory_meta_inheritance_abstract]. *)
Definition OptionalModel : pyclass :=
  {| cls_id := 5; cls_name := "OptionalModel"; cls_mro_tail := [object] |}.

Definition auto_meta (m : option (option pyclass)) (abs : option bool)
    (dflt : option bool) (inc exc : list string) : MetaBlock :=
  {| meta_model := m; meta_abstract := abs; meta_strategy := None;
     meta_inline_args := None; meta_exclude := None; meta_rename := None;
     meta_introspector_class := None; meta_default_auto_fields := dflt;
     meta_include_auto_fields := Some inc; meta_exclude_auto_fields := Some exc;
     meta_unknown := [] |}.

(** [base_store] after the abstract [BaseFactory] (definition 1) and
    [ChildFactory(BaseFactory)] (definition 2) of that test. *)
Definition auto_store : Store :=
  let σ :=
    (new_class
       (plain_body "BaseFactory" (Some 0%nat)
          (Some (auto_meta (Some (Some OptionalModel)) (Some true) (Some true)
                   ["char_blank_null"; "int_blank_null"] ["int_req"; "char_req"])))
       base_store).2 in
  (new_class
     (plain_body "ChildFactory" (Some 1%nat)
        (Some (auto_meta None (Some true) None
                 ["int_blank_null"; "int_req"; "int_null"] ["char_blank_null"])))
     σ).2.

(** The options of the ancestors of a grandchild, furthest first. *)
Definition auto_parents : list (@FactoryOptions Trait (odict attr)) :=
  _meta <$> classes auto_store.

(** A factory whose [Meta] renames [kind] to [type], passes [name] inline
    and excludes [secret]. *)
Definition pipeline_meta : MetaBlock :=
  {| meta_model := Some (Some User); meta_abstract := None; meta_strategy := None;
     meta_inline_args := Some ["name"]; meta_exclude := Some ["secret"];
     meta_rename := Some [("kind", "type")];
     meta_introspector_class := None; meta_default_auto_fields := None;
     meta_include_auto_fields := None; meta_exclude_auto_fields := None;
     meta_unknown := [] |}.

Definition pipeline_store : Store :=
  (new_class (plain_body "PipelineFactory" (Some 0%nat) (Some pipeline_meta))
     base_store).2.

(** The class object that this registration creates. *)
Definition pipeline_class : @Factory Trait (odict attr) :=
  {| __name__ := "PipelineFactory"; __qualname__ := "PipelineFactory";
     __module__ := "tests"; mro_tail := [0%nat];
     _meta :=
       {| factory := 1%nat; base_factory := Some 0%nat; model := Some User;
          abstract := false; strategy := CREATE_STRATEGY;
          inline_args := ["name"]; exclude := ["secret"];
          rename := [("kind", "type")]; introspector_class := None;
          default_auto_fields := false; include_auto_fields := [];
          exclude_auto_fields := []; base_declarations := [];
          parameters := []; pre_declarations := []; post_declarations := [];
          introspector := BaseIntrospector; _counter := None;
          counter_reference := 1%nat |};
     _options_class := FactoryOptions_class;
     _setup_next_sequence := 0; _adjust_kwargs := BaseFactory_adjust_kwargs;
     _build := call_model; _create := call_model;
     classmethod_build := BaseFactory_build;
     classmethod_create := BaseFactory_create |}.

Definition pipeline_kwargs : kwargs :=
  {[ "type" := PyInt 1; "age" := PyInt 3 ]}.

Definition pipeline_attributes : kwargs :=
  {[ "name" := PyStr "n"; "kind" := PyInt 1; "secret" := PyInt 2;
     "gone" := SKIP; "age" := PyInt 3 ]}.



(** [class PersonFactory(Factory)] with a model, two plain attributes, a
    private attribute and a class method. *)
Definition person_body : ClassBody (RawParam:=Trait) :=
  {| body_name := "PersonFactory"; body_qualname := "PersonFactory";
     body_module := "tests";
     body_base := Some 0%nat;
     body_attrs := [("name", Plain (PyStr "anon")); ("age", Plain (PyInt 30));
                    ("_cache", Plain PyNone); ("make", ClassMethod)];
     body_Meta := Some (with_model User); body_Params := None;
     body_options_class := None;
     body_setup_next_sequence := None; body_adjust_kwargs := None;
     body_build := None; body_create := None;
     body_classmethod_build := None; body_classmethod_create := None |}.

Definition person_store : Store := (new_class person_body base_store).2.

(** [class EmployeeFactory(PersonFactory)] overriding [age] and adding a
    post-generation hook under a private name. *)
Definition employee_body : ClassBody (RawParam:=Trait) :=
  {| body_name := "EmployeeFactory"; body_qualname := "EmployeeFactory";
     body_module := "tests";
     body_base := Some 1%nat;
     body_attrs := [("age", Plain (PyInt 40));
                    ("_registered", Declared POST_INSTANTIATION PyNone)];
     body_Meta := None; body_Params := None;
     body_options_class := None;
     body_setup_next_sequence := None; body_adjust_kwargs := None;
     body_build := None; body_create := None;
     body_classmethod_build := None; body_classmethod_create := None |}.

(** An introspector with one recipe, for fields of class [CharField]. *)
Definition CharField_class : pyclass :=
  {| cls_id := 9; cls_name := "CharField"; cls_mro_tail := [object] |}.

Definition CharField : field := {| field_class := CharField_class |}.

Definition FieldIntrospector : IntrospectorClass :=
  {| introspector_name := "FieldIntrospector";
     DEFAULT_BUILDERS :=
       [(CharField_class,
         λ field_ctxt, Some (Declared ATTRIBUTES (PyStr (fc_field_name field_ctxt))))];
     get_default_field_names := λ _, Return ["name"; "email"];
     get_field_by_name := λ _ field_name,
       Return (if decide (field_name ∈ ["name"; "email"; "nick"])
               then Some CharField else None) |}.

(** [DictFactory], and a subclass of it with [inline_args = ('name',)]. *)
Definition dict : pyclass :=
  {| cls_id := 6; cls_name := "dict"; cls_mro_tail := [object] |}.

Definition dict_factory_class (name : string) (inline : list string)
    : @Factory Trait (odict attr) :=
  {| __name__ := name; __qualname__ := name; __module__ := "factory.base";
     mro_tail := [0%nat];
     _meta :=
       {| factory := 1%nat; base_factory := Some 0%nat; model := Some dict;
          abstract := false; strategy := CREATE_STRATEGY;
          inline_args := inline; exclude := []; rename := [];
          introspector_class := None;
          default_auto_fields := false; include_auto_fields := [];
          exclude_auto_fields := []; base_declarations := [];
          parameters := []; pre_declarations := []; post_declarations := [];
          introspector := BaseIntrospector; _counter := None;
          counter_reference := 1%nat |};
     _options_class := FactoryOptions_class;
     _setup_next_sequence := 0; _adjust_kwargs := BaseFactory_adjust_kwargs;
     _build := BaseDictFactory_build ("<class 'factory.base." +:+ name +:+ "'>");
     _create := BaseDictFactory_create ("<class 'factory.base." +:+ name +:+ "'>");
     classmethod_build := BaseFactory_build;
     classmethod_create := BaseFactory_create |}.

(** The class [StubObject] of [base.py], as a model. *)
Definition StubObject_class : pyclass :=
  {| cls_id := 7; cls_name := "StubObject"; cls_mro_tail := [object] |}.

(** [class StubFactory(Factory)] as [base.py] writes it: the stub strategy,
    the model [StubObject], and its own [build] and [create]. *)
Definition StubFactory_body : ClassBody (RawParam:=Trait) :=
  {| body_name := "StubFactory"; body_qualname := "StubFactory";
     body_module := "factory.base";
     body_base := Some 0%nat;
     body_attrs := [];
     body_Meta :=
       Some {| meta_model := Some (Some StubObject_class); meta_abstract := None;
               meta_strategy := Some STUB_STRATEGY;
               meta_inline_args := None; meta_exclude := None;
               meta_rename := None; meta_introspector_class := None;
               meta_default_auto_fields := None;
               meta_include_auto_fields := None;
               meta_exclude_auto_fields := None; meta_unknown := [] |};
     body_Params := None;
     body_options_class := None;
     body_setup_next_sequence := None; body_adjust_kwargs := None;
     body_build := None; body_create := None;
     body_classmethod_build := Some StubFactory_build;
     body_classmethod_create := Some StubFactory_create |}.

(** [base_store] after [StubFactory] (definition 1) and
    [class NoModelStub(StubFactory): class Meta: model = None]
    (definition 2). *)
Definition no_model_meta : MetaBlock :=
  {| meta_model := Some None; meta_abstract := None; meta_strategy := None;
     meta_inline_args := None; meta_exclude := None; meta_rename := None;
     meta_introspector_class := None; meta_default_auto_fields := None;
     meta_include_auto_fields := None; meta_exclude_auto_fields := None;
     meta_unknown := [] |}.

Definition stub_store : Store :=
  let σ := (new_class StubFactory_body base_store).2 in
  (new_class (plain_body "NoModelStub" (Some 1%nat) (Some no_model_meta)) σ).2.

(** An options class whose default introspector is [FieldIntrospector],
    and [class ModelFactory(Factory): _options_class = FieldOptions]. *)
Definition FieldOptions : OptionsClass :=
  {| DEFAULT_INTROSPECTOR_CLASS := FieldIntrospector |}.

Definition ModelFactory_body : ClassBody (RawParam:=Trait) :=
  {| body_name := "ModelFactory"; body_qualname := "ModelFactory";
     body_module := "tests";
     body_base := Some 0%nat;
     body_attrs := [];
     body_Meta := Some BaseMeta;
     body_Params := None;
     body_options_class := Some FieldOptions;
     body_setup_next_sequence := None; body_adjust_kwargs := None;
     body_build := None; body_create := None;
     body_classmethod_build := None; body_classmethod_create := None |}.

Definition model_store : Store := (new_class ModelFactory_body base_store).2.

End Examples.

(** * Fuzzy attributes ([factory/fuzzy.py]) *)

Module Fuzzy.

#[local] Open Scope Z_scope.

(** What [fuzzy.py] and the standard-library calls it makes raise. *)
Inductive error :=
| ValueError (msg : string)
| IndexError (msg : string)
| OverflowError (msg : string).

Inductive result (A : Type) :=
| Ok (a : A)
| Err (e : error).
Arguments Ok {A} a.
Arguments Err {A} e.

(** [range(start, stop)] *)
Definition range (start stop : Z) : list Z := seqZ start (stop - start).

(** [bytes(values)]: every item has to be a byte. *)
Definition bytes (values : list Z) : result (list Z) :=
  if decide (Forall (λ v, 0 ≤ v < 256) values) then Ok values
  else Err (ValueError "bytes must be in range(0, 256)").

(** [tuple(chars)] for a string: its characters, one string each. *)
Fixpoint unroll (chars : string) : list string :=
  match chars with
  | EmptyString => []
  | String c rest => String c EmptyString :: unroll rest
  end.

(** [string.ascii_letters] *)
Definition ascii_letters : string :=
  "abcdefghijklmnopqrstuvwxyzABCDEFGHIJKLMNOPQRSTUVWXYZ".

(** An iterable: a sequence can be unrolled any number of times, a
    generator yields its items once. *)
Inductive iterable (A : Type) :=
| Sequence (items : list A)
| Generator (items : list A).
Arguments Sequence {A} items.
Arguments Generator {A} items.

(** [list(it)], and what is left of [it]. *)
Definition list_of {A} (it : iterable A) : list A * iterable A :=
  match it with
  | Sequence items => (items, Sequence items)
  | Generator items => (items, Generator [])
  end.

(** The state of a [FuzzyChoice] object. *)
Record FuzzyChoice (A : Type) := {
  choices : option (list A);
  choices_generator : iterable A;
}.
Arguments choices {A} _.
Arguments choices_generator {A} _.

(** Times of day without time zone ([datetime.time]). *)
Record time := {
  hour : Z;
  minute : Z;
  second : Z;
  microsecond : Z;
}.

(** [a > b] on [datetime.time]: the fields are compared in order. *)
Definition time_gt (a b : time) : bool :=
  match (hour a ?= hour b)%Z with
  | Gt => true
  | Lt => false
  | Eq =>
      match (minute a ?= minute b)%Z with
      | Gt => true
      | Lt => false
      | Eq =>
          match (second a ?= second b)%Z with
          | Gt => true
          | Lt => false
          | Eq => bool_decide (microsecond a > microsecond b)%Z
          end
      end
  end.

(** [date.max.toordinal()]; dates are held as proleptic Gregorian
    ordinals, [date.min] being 1. *)
Definition max_ordinal : Z := 3652059.

(** [(datetime.datetime(1, 1, 1) + datetime.timedelta(microseconds=msec)).time()] *)
Definition time_of_microseconds (msec : Z) : result time :=
  if decide (0 ≤ msec < max_ordinal * 86400000000) then
    Ok {| hour := msec / 3600000000 mod 24;
          minute := msec / 60000000 mod 60;
          second := msec / 1000000 mod 60;
          microsecond := msec mod 1000000 |}
  else Err (OverflowError "date value out of range").

(** [date - datetime.timedelta(days=n)] *)
Definition date_minus_days (date n : Z) : result Z :=
  if decide (1 ≤ date - n ≤ max_ordinal) then Ok (date - n)
  else Err (OverflowError "date value out of range").

(** [datetime.date.fromordinal(n)] *)
Definition fromordinal (n : Z) : result Z :=
  if decide (1 ≤ n ≤ max_ordinal) then Ok n
  else Err (ValueError "ordinal out of range").

Definition random_seed_warning (cls_name : string) : string :=
  "Setting a specific random seed for " +:+ cls_name
  +:+ " can still have varying results unless you also set a specific end date. "
  +:+ "For details and potential solutions see "
  +:+ "https://github.com/FactoryBoy/factory_boy/issues/331".

Section Generator.

(** [random.randgen] is the [random.Random] instance that
    [factory/random.py] holds, outside the source at hand.  Its state is
    threaded through every call; [randbelow n] is its one primitive, the
    draw of an index below [n] that [choice] and [randrange] are built on. *)
Context {G : Type}.
Variable randbelow : Z → G → Z * G.

(** The textual form of dates and times ([%r]). *)
Variable repr_date : Z → string.
Variable repr_time : time → string.

(** Computations that draw from the generator and may raise. *)
Definition Gen (A : Type) : Type := G → result A * G.

Definition gen_bind {A B} (m : Gen A) (k : A → Gen B) : Gen B := λ g,
  match m g with
  | (Ok a, g') => k a g'
  | (Err e, g') => (Err e, g')
  end.

Definition gen_ret {A} (a : result A) : Gen A := λ g, (a, g).

(** [[action() for _ in range(n)]] *)
Fixpoint draws {A} (action : Gen A) (n : nat) : Gen (list A) :=
  match n with
  | O => gen_ret (Ok [])
  | S n' =>
      gen_bind action (λ x,
        gen_bind (draws action n') (λ xs, gen_ret (Ok (x :: xs))))
  end.

(** [randgen.choice(seq)] *)
Definition choice {A} (seq : list A) : Gen A := λ g,
  match seq with
  | [] => (Err (IndexError "Cannot choose from an empty sequence"), g)
  | _ =>
      let '(i, g') := randbelow (Z.of_nat (length seq)) g in
      match seq !! Z.to_nat i with
      | Some x => (Ok x, g')
      | None => (Err (IndexError "list index out of range"), g')
      end
  end.

(** [randgen.randrange(start, stop, step)] *)
Definition randrange (start stop step : Z) : Gen Z := λ g,
  let width := stop - start in
  if decide (step = 0) then (Err (ValueError "zero step for randrange()"), g)
  else
    let n := if decide (0 < step) then (width + step - 1) / step
             else (width + step + 1) / step in
    if decide (n ≤ 0) then (Err (ValueError "empty range for randrange()"), g)
    else let '(i, g') := randbelow n g in (Ok (start + step * i), g').

(** [randgen.randint(a, b)] *)
Definition randint (a b : Z) : Gen Z := randrange a (b + 1) 1.

(** ** [FuzzyText] *)

Record FuzzyText := {
  text_prefix : string;
  text_suffix : string;
  text_length : Z;
  text_chars : list string;
}.

(** [FuzzyText.__init__]; [chars] is what [tuple(chars)] holds. *)
Definition FuzzyText_init (prefix : string) (length : Z) (suffix : string)
    (chars : list string) : FuzzyText :=
  {| text_prefix := prefix; text_suffix := suffix; text_length := length;
     text_chars := chars |}.

(** [FuzzyText.fuzz] *)
Definition FuzzyText_fuzz (self : FuzzyText) : Gen string :=
  gen_bind (draws (choice (text_chars self)) (Z.to_nat (text_length self)))
    (λ chars,
       gen_ret (Ok (text_prefix self +:+ String.concat "" chars
                    +:+ text_suffix self))).

(** ** [FuzzyBytes] *)

Record FuzzyBytes := {
  bytes_min_byte : Z;
  bytes_max_byte : Z;
  bytes_length : Z;
  byte_choices : list Z;
}.

(** [FuzzyBytes.__init__] *)
Definition FuzzyBytes_init (length min_byte max_byte : Z) : result FuzzyBytes :=
  match bytes (range min_byte (max_byte + 1)) with
  | Ok choices =>
      Ok {| bytes_min_byte := min_byte; bytes_max_byte := max_byte;
            bytes_length := length; byte_choices := choices |}
  | Err e => Err e
  end.

(** [FuzzyBytes.fuzz] *)
Definition FuzzyBytes_fuzz (self : FuzzyBytes) : Gen (list Z) :=
  gen_bind (draws (choice (byte_choices self)) (Z.to_nat (bytes_length self)))
    (λ items, gen_ret (bytes items)).

(** ** [FuzzyChoice] *)

(** [FuzzyChoice.__init__] *)
Definition FuzzyChoice_init {A} (choices : iterable A) : FuzzyChoice A :=
  {| choices := None; choices_generator := choices |}.

(** [FuzzyChoice.fuzz]: the object as the call leaves it, and the draw. *)
Definition FuzzyChoice_fuzz {A} (self : FuzzyChoice A)
    : G → FuzzyChoice A * (result A * G) := λ g,
  let self :=
    match choices self with
    | None =>
        let '(items, rest) := list_of (choices_generator self) in
        {| choices := Some items; choices_generator := rest |}
    | Some _ => self
    end in
  (self, choice (default [] (choices self)) g).

(** ** [FuzzyInteger] *)

Record FuzzyInteger := {
  integer_low : Z;
  integer_high : Z;
  integer_step : Z;
}.

(** [FuzzyInteger.__init__] *)
Definition FuzzyInteger_init (low : Z) (high : option Z) (step : Z)
    : FuzzyInteger :=
  match high with
  | None => {| integer_low := 0; integer_high := low; integer_step := step |}
  | Some high =>
      {| integer_low := low; integer_high := high; integer_step := step |}
  end.

(** [FuzzyInteger.fuzz] *)
Definition FuzzyInteger_fuzz (self : FuzzyInteger) : Gen Z :=
  randrange (integer_low self) (integer_high self + 1) (integer_step self).

(** ** [FuzzyDate] *)

Record FuzzyDate := {
  start_date : Z;
  end_date : Z;
}.

(** [FuzzyDate.__init__], for a class named [cls_name]; [today] is what
    [datetime.date.today()] returns during the call and [state_set] is
    [random.randgen.state_set].  The result comes with the warnings
    issued. *)
Definition FuzzyDate_init (cls_name : string) (today : Z) (state_set : bool)
    (start_date end_date : option Z) : result FuzzyDate * list string :=
  match (match start_date with
         | Some d => Ok d
         | None => date_minus_days today 100
         end) with
  | Err e => (Err e, [])
  | Ok start_date =>
      let warnings :=
        match end_date with
        | None => if state_set then [random_seed_warning cls_name] else []
        | Some _ => []
        end in
      let end_date := default today end_date in
      if decide (start_date > end_date) then
        (Err (ValueError
                ("FuzzyDate boundaries should have start <= end; got "
                 +:+ repr_date start_date +:+ " > " +:+ repr_date end_date
                 +:+ ".")),
         warnings)
      else
        (Ok {| start_date := start_date; end_date := end_date |}, warnings)
  end.

(** [FuzzyDate.fuzz] *)
Definition FuzzyDate_fuzz (self : FuzzyDate) : Gen Z :=
  gen_bind (randint (start_date self) (end_date self))
    (λ n, gen_ret (fromordinal n)).

(** ** [FuzzyTime] *)

Record FuzzyTime := {
  start_time : time;
  _start_time_int : Z;
  end_time : time;
  _end_time_int : Z;
}.

(** [FuzzyTime._time_as_int] *)
Definition _time_as_int (t : time) : Z :=
  microsecond t
  + 1000000 * (second t + 60 * (minute t + 60 * hour t)).

(** [FuzzyTime.__init__] *)
Definition FuzzyTime_init (start_time end_time : option time) : result FuzzyTime :=
  let start_time :=
    default {| hour := 0; minute := 0; second := 0; microsecond := 0 |}
            start_time in
  let end_time :=
    default {| hour := 23; minute := 59; second := 59; microsecond := 999999 |}
            end_time in
  if time_gt start_time end_time then
    Err (ValueError ("FuzzyTime boundaries should have start <= end; got "
                     +:+ repr_time start_time +:+ " > " +:+ repr_time end_time
                     +:+ "."))
  else
    Ok {| start_time := start_time;
          _start_time_int := _time_as_int start_time;
          end_time := end_time;
          _end_time_int := _time_as_int end_time |}.

(** [FuzzyTime.fuzz] *)
Definition FuzzyTime_fuzz (self : FuzzyTime) : Gen time :=
  gen_bind (randint (_start_time_int self) (_end_time_int self))
    (λ msec, gen_ret (time_of_microseconds msec)).

(** ** Reference readings *)

(** The generator keeps its contract: a draw below a positive bound is an
    index below that bound. *)
Definition generator_contract : Prop :=
  ∀ n g, 0 < n → 0 ≤ (randbelow n g).1 < n.

End Generator.

(** The field ranges [datetime.time] enforces. *)
Definition valid_time (t : time) : Prop :=
  0 ≤ hour t < 24 ∧ 0 ≤ minute t < 60 ∧ 0 ≤ second t < 60
  ∧ 0 ≤ microsecond t < 1000000.

(** [a <= b] on times of day. *)
Definition time_le (a b : time) : Prop := time_gt a b = false.

(** A linear congruential generator, to run the fuzzers on. *)
Definition lcg (n : Z) (g : Z) : Z * Z :=
  (g mod n, (1103515245 * g + 12345) mod 2147483648).

End Fuzzy.

(** * Properties *)

Section Properties.

Context {Param DeclarationSet RawParam : Type}.
Variable wrap : RawParam → Param.
Variable sort_ordered_objects : odict RawParam → odict RawParam.
Variable isinstance_Parameter : Param → bool.
Variable get_revdeps : Param → odict Param → list string.
Variable parse_declarations :
  odict attr → odict Param → outcome (DeclarationSet * DeclarationSet).
Variable StepBuilder_build :
  fid → kwargs → string → M (Param:=Param) (DeclarationSet:=DeclarationSet) pyobject.

Implicit Types (σ : @store Param DeclarationSet) (f g r : fid).
Implicit Types (cls : @Factory Param DeclarationSet).
Implicit Types (cs : list (@Factory Param DeclarationSet)).
Implicit Types (meta : @FactoryOptions Param DeclarationSet).
Implicit Types (oc : OptionsClass).

#[local] Abbreviation contribute :=
  (contribute_to_class wrap sort_ordered_objects isinstance_Parameter
     get_revdeps parse_declarations).
#[local] Abbreviation contribute_until_check :=
  (contribute_to_class_until_check (DeclarationSet:=DeclarationSet)
     wrap sort_ordered_objects).
#[local] Abbreviation new_class :=
  (FactoryMetaClass_new wrap sort_ordered_objects isinstance_Parameter
     get_revdeps parse_declarations).
#[local] Abbreviation check_dependencies :=
  (_check_parameter_dependencies isinstance_Parameter get_revdeps).
#[local] Abbreviation check_step :=
  (check_parameter isinstance_Parameter get_revdeps).
#[local] Abbreviation revdep := (depends isinstance_Parameter get_revdeps).

Lemma wf_empty : wf_store (Param:=Param) (DeclarationSet:=DeclarationSet)
  {| classes := []; counters := [] |}.
Proof.
  split; unfold registered, counter_of, reference; simpl.
  - intros f cls H. by destruct f.
  - intros f [cls H]. by destruct f.
  - intros f c. by destruct f.
  - intros f c. by destruct f.
  - intros f g c. by destruct f.
Qed.

(** *** Stores that differ in [_counter] fields only *)

Lemma same_definitions_refl σ : same_definitions σ σ.
Proof. reflexivity. Qed.

Lemma same_definitions_trans σ1 σ2 σ3 :
  same_definitions σ1 σ2 → same_definitions σ2 σ3 → same_definitions σ1 σ3.
Proof. unfold same_definitions. congruence. Qed.

Lemma same_definitions_lookup σ σ' g :
  same_definitions σ σ' →
  forget_counter <$> classes σ !! g = forget_counter <$> classes σ' !! g.
Proof.
  intros H. rewrite <- !list_lookup_fmap. unfold same_definitions in H.
  by rewrite H.
Qed.

Lemma same_definitions_registered σ σ' g :
  same_definitions σ σ' → registered σ g ↔ registered σ' g.
Proof.
  intros H. pose proof (same_definitions_lookup _ _ g H) as E.
  unfold registered.
  destruct (classes σ !! g), (classes σ' !! g); simplify_eq/=;
    split; intros [? ?]; simplify_eq; eauto.
Qed.

Lemma same_definitions_reference σ σ' g :
  same_definitions σ σ' → reference σ' g = reference σ g.
Proof.
  intros H. pose proof (same_definitions_lookup _ _ g H) as E.
  unfold reference.
  destruct (classes σ !! g) as [c1|], (classes σ' !! g) as [c2|];
    simplify_eq/=; done.
Qed.

Lemma same_definitions_setup σ σ' g cls cls' :
  same_definitions σ σ' →
  classes σ !! g = Some cls → classes σ' !! g = Some cls' →
  _setup_next_sequence cls' = _setup_next_sequence cls
  ∧ factory (_meta cls') = factory (_meta cls)
  ∧ counter_reference (_meta cls') = counter_reference (_meta cls)
  ∧ __name__ cls' = __name__ cls ∧ __module__ cls' = __module__ cls
  ∧ __qualname__ cls' = __qualname__ cls.
Proof.
  intros H H1 H2. pose proof (same_definitions_lookup _ _ g H) as E.
  rewrite H1, H2 in E. simplify_eq/=. done.
Qed.

(** *** The primitive store updates *)

Lemma assign__counter_run σ f cls c :
  classes σ !! f = Some cls →
  assign__counter f c σ = (Return (), with_counter σ f cls c).
Proof. intros H. unfold assign__counter. by rewrite H. Qed.

Lemma with_counter_same σ f cls c :
  classes σ !! f = Some cls → same_definitions σ (with_counter σ f cls c).
Proof.
  intros H. unfold same_definitions, with_counter; simpl.
  rewrite list_fmap_insert.
  symmetry. apply list_insert_id. rewrite list_lookup_fmap. rewrite H. done.
Qed.

Lemma with_counter_counter_of σ f cls c g :
  classes σ !! f = Some cls →
  counter_of (with_counter σ f cls c) g
  = if decide (g = f) then c else counter_of σ g.
Proof.
  intros H. unfold counter_of, with_counter; simpl.
  destruct (decide (g = f)) as [->|Hne].
  - rewrite list_lookup_insert_eq; [done|]. by eapply lookup_lt_Some.
  - by rewrite list_lookup_insert_ne.
Qed.

Lemma with_counter_counters σ f cls c :
  counters (with_counter σ f cls c) = counters σ.
Proof. done. Qed.

Lemma wf_store_update σ σ' :
  wf_store σ → same_definitions σ σ' →
  (∀ g c, counter_of σ' g = Some c → counter_of σ' (reference σ g) = Some c) →
  (∀ g c, counter_of σ' g = Some c → (c < length (counters σ'))%nat) →
  (∀ g h c, counter_of σ' g = Some c → counter_of σ' h = Some c →
            reference σ g = reference σ h) →
  wf_store σ'.
Proof.
  intros Hwf Hsame Hshared Halloc Hsep. split.
  - intros f cls' Hf.
    assert (registered σ f) as [cls Hcls].
    { apply (same_definitions_registered _ _ f Hsame). by exists cls'. }
    destruct (same_definitions_setup _ _ _ _ _ Hsame Hcls Hf) as (_ & -> & _).
    by eapply wf_factory.
  - intros f Hf. rewrite !(same_definitions_reference _ _ _ Hsame).
    apply (same_definitions_registered _ _ _ Hsame) in Hf.
    rewrite <- (same_definitions_registered _ _ _ Hsame).
    by apply wf_reference.
  - intros f c Hc. rewrite (same_definitions_reference _ _ _ Hsame). eauto.
  - done.
  - intros f g c Hf Hg. rewrite !(same_definitions_reference _ _ _ Hsame). eauto.
Qed.

Lemma counter_of_registered σ f c : counter_of σ f = Some c → registered σ f.
Proof.
  unfold counter_of, registered. destruct (classes σ !! f); [eauto|done].
Qed.

Lemma cursor_owner σ r cls c :
  classes σ !! r = Some cls → _counter (_meta cls) = Some c →
  cursor σ r = default 0 (counters σ !! c).
Proof. intros H1 H2. unfold cursor. by rewrite H1, H2. Qed.

Lemma cursor_fresh σ r cls :
  classes σ !! r = Some cls → _counter (_meta cls) = None →
  cursor σ r = _setup_next_sequence cls.
Proof. intros H1 H2. unfold cursor. by rewrite H1, H2. Qed.

Lemma counter_of_lookup σ f cls :
  classes σ !! f = Some cls → counter_of σ f = _counter (_meta cls).
Proof. intros H. unfold counter_of. by rewrite H. Qed.

Lemma reference_lookup σ f cls :
  classes σ !! f = Some cls → reference σ f = counter_reference (_meta cls).
Proof. intros H. unfold reference. by rewrite H. Qed.

(** The cursor of an owner is determined by the definitions, the owner's
    counter and the cell it points at. *)
Lemma cursor_preserved σ σ' q :
  same_definitions σ σ' → registered σ q →
  counter_of σ' q = counter_of σ q →
  (∀ c, counter_of σ q = Some c → counters σ' !! c = counters σ !! c) →
  cursor σ' q = cursor σ q.
Proof.
  intros Hsame [cls Hq] Hc Hcell.
  assert (registered σ' q) as [cls' Hq'].
  { apply (same_definitions_registered _ _ q Hsame). by exists cls. }
  destruct (same_definitions_setup _ _ _ _ _ Hsame Hq Hq') as (Hs & _).
  rewrite (counter_of_lookup _ _ _ Hq), (counter_of_lookup _ _ _ Hq') in *.
  unfold cursor. rewrite Hq, Hq', Hc.
  destruct (_counter (_meta cls)) as [c|]; [|done].
  by rewrite Hcell.
Qed.

Lemma extends_refl σ : extends σ σ.
Proof. repeat split; auto. Qed.

Lemma extends_trans σ1 σ2 σ3 : extends σ1 σ2 → extends σ2 σ3 → extends σ1 σ3.
Proof.
  intros (S1 & C1 & Q1) (S2 & C2 & Q2). repeat split.
  - by eapply same_definitions_trans.
  - eauto.
  - intros q Hq Hr. rewrite Q2, Q1; auto.
    + by apply (same_definitions_registered _ _ q S1).
    + by rewrite (same_definitions_reference _ _ q S1).
Qed.

Lemma get_meta_run σ f cls :
  classes σ !! f = Some cls → get_meta f σ = (Return (_meta cls), σ).
Proof.
  intros H. unfold get_meta, get_class, mbind, M_bind, mret, M_ret.
  by rewrite H.
Qed.

Lemma get_class_run σ f cls :
  classes σ !! f = Some cls → get_class f σ = (Return cls, σ).
Proof. intros H. unfold get_class. by rewrite H. Qed.

Lemma bind_run {A B} (m : M A) (k : A → M B) σ a σ1 :
  m σ = (Return a, σ1) → (m ≫= k) σ = k a σ1.
Proof. intros H. unfold mbind, M_bind. by rewrite H. Qed.

Lemma bind_raise {A B} (m : M A) (k : A → M B) σ e σ1 :
  m σ = (Raise e, σ1) → (m ≫= k) σ = (Raise e, σ1).
Proof. intros H. unfold mbind, M_bind. by rewrite H. Qed.

Lemma initialize_counter_done σ fuel f c :
  counter_of σ f = Some c →
  _initialize_counter (S fuel) f σ = (Return (), σ).
Proof.
  intros H. destruct (counter_of_registered _ _ _ H) as [cls Hcls].
  rewrite (counter_of_lookup _ _ _ Hcls) in H.
  simpl. rewrite (bind_run _ _ _ _ _ (get_meta_run _ _ _ Hcls)).
  by rewrite H.
Qed.

Lemma initialize_owner σ fuel r :
  wf_store σ → registered σ r → reference σ r = r →
  ∃ σ' c, _initialize_counter (S fuel) r σ = (Return (), σ')
    ∧ wf_store σ' ∧ extends σ σ' ∧ counter_of σ' r = Some c
    ∧ (∀ g, g ≠ r → counter_of σ' g = counter_of σ g).
Proof.
  intros Hwf [cls Hcls] Hroot.
  destruct (counter_of σ r) as [c|] eqn:Hc.
  { exists σ, c. rewrite (initialize_counter_done _ _ _ _ Hc).
    eauto 10 using extends_refl. }
  rewrite (counter_of_lookup _ _ _ Hcls) in Hc.
  rewrite (reference_lookup _ _ _ Hcls) in Hroot.
  pose proof (wf_factory _ Hwf _ _ Hcls) as Hfac.
  set (c := length (counters σ)).
  set (σ1 := set_counters σ (counters σ ++ [_setup_next_sequence cls])).
  set (σ2 := with_counter σ1 r cls (Some c)).
  assert (_initialize_counter (S fuel) r σ = (Return (), σ2)) as Hrun.
  { simpl. rewrite (bind_run _ _ _ _ _ (get_meta_run _ _ _ Hcls)).
    rewrite Hc. rewrite decide_True by done.
    rewrite Hfac. rewrite (bind_run _ _ _ _ _ (get_class_run _ _ _ Hcls)).
    unfold mbind, M_bind, Counter_new. fold c. fold σ1.
    by rewrite (assign__counter_run σ1 r cls). }
  assert (same_definitions σ σ2) as Hsame.
  { apply (with_counter_same σ1 r cls (Some c)). done. }
  assert (∀ g, counter_of σ2 g = if decide (g = r) then Some c else counter_of σ g)
    as Hcof.
  { intros g. unfold σ2. by rewrite (with_counter_counter_of σ1). }
  assert (∀ a, (a < c)%nat → counters σ2 !! a = counters σ !! a) as Hcell.
  { intros a Ha. unfold σ2, σ1; simpl. by rewrite lookup_app_l. }
  exists σ2, (length (counters σ)). split; [done|]. split; [|split; [|split]].
  - apply (wf_store_update σ); [done|done|..].
    + intros g c' Hg. rewrite Hcof in Hg |- *.
      destruct (decide (g = r)) as [->|Hne].
      * rewrite (reference_lookup _ _ _ Hcls), Hroot. by rewrite decide_True.
      * pose proof (wf_shared _ Hwf _ _ Hg) as Hs.
        destruct (decide (reference σ g = r)) as [E|]; [|done].
        rewrite E in Hs. rewrite (counter_of_lookup _ _ _ Hcls), Hc in Hs. done.
    + intros g c' Hg. rewrite Hcof in Hg.
      unfold σ2, σ1; simpl. rewrite length_app; simpl.
      destruct (decide (g = r)); simplify_eq; [lia|].
      pose proof (wf_alloc _ Hwf _ _ Hg). lia.
    + intros g h c' Hg Hh. rewrite Hcof in Hg, Hh.
      destruct (decide (g = r)) as [->|], (decide (h = r)) as [->|];
        simplify_eq; [done|..].
      * pose proof (wf_alloc _ Hwf _ _ Hh). lia.
      * pose proof (wf_alloc _ Hwf _ _ Hg). lia.
      * by eapply wf_separate.
  - split; [done|]. split.
    + intros g c' Hg. rewrite Hcof. destruct (decide (g = r)) as [->|]; [|done].
      rewrite (counter_of_lookup _ _ _ Hcls), Hc in Hg. done.
    + intros q Hq Hqroot. destruct (decide (q = r)) as [->|Hne].
      * rewrite (cursor_fresh _ _ _ Hcls Hc).
        assert (registered σ2 r) as [cls2 Hcls2].
        { apply (same_definitions_registered _ _ r Hsame). by exists cls. }
        pose proof (Hcof r) as Hr. rewrite decide_True in Hr by done.
        rewrite (counter_of_lookup _ _ _ Hcls2) in Hr.
        rewrite (cursor_owner _ _ _ _ Hcls2 Hr).
        unfold σ2, σ1; simpl. rewrite lookup_app_r by done.
        by rewrite Nat.sub_diag.
      * apply cursor_preserved; [done|done|..].
        -- rewrite Hcof. by rewrite decide_False.
        -- intros c' Hc'. apply Hcell. by eapply wf_alloc.
  - rewrite Hcof. by rewrite decide_True.
  - intros g Hg. rewrite Hcof. by rewrite decide_False.
Qed.

(** [_initialize_counter] returns on every registered definition, leaves the
    definition holding the counter object of its owner, and changes nothing
    an owner will yield. *)
Lemma initialize_counter_spec σ fuel f :
  wf_store σ → registered σ f → (2 ≤ fuel)%nat →
  ∃ σ' c, _initialize_counter fuel f σ = (Return (), σ')
    ∧ wf_store σ' ∧ extends σ σ'
    ∧ counter_of σ' f = Some c ∧ counter_of σ' (reference σ f) = Some c.
Proof.
  intros Hwf Hf Hfuel.
  destruct fuel as [|[|fuel]]; [lia|lia|].
  destruct (wf_reference _ Hwf _ Hf) as [Hr Hrr].
  destruct (decide (reference σ f = f)) as [Hroot|Hnonroot].
  { destruct (initialize_owner σ (S fuel) f Hwf Hf Hroot)
      as (σ' & c & ? & ? & ? & ? & ?).
    exists σ', c. rewrite Hroot. done. }
  destruct (counter_of σ f) as [c|] eqn:Hc.
  { exists σ, c. rewrite (initialize_counter_done _ _ _ _ Hc).
    split; [done|]. split; [done|]. split; [apply extends_refl|].
    split; [done|]. by apply (wf_shared _ Hwf). }
  destruct Hf as [cls Hcls].
  rewrite (counter_of_lookup _ _ _ Hcls) in Hc.
  rewrite (reference_lookup _ _ _ Hcls) in *.
  set (r := counter_reference (_meta cls)) in *.
  destruct (initialize_owner σ fuel r Hwf Hr Hrr)
    as (σ1 & c & Hrun1 & Hwf1 & Hext1 & Hc1 & Hother1).
  destruct Hext1 as (Hsame1 & Hmono1 & Hcur1).
  assert (registered σ1 f) as [cls1 Hcls1].
  { apply (same_definitions_registered _ _ f Hsame1). by exists cls. }
  destruct (counter_of_registered _ _ _ Hc1) as [rcls1 Hrcls1].
  assert (counter_of σ1 f = None) as Hf1.
  { rewrite Hother1 by done. by rewrite (counter_of_lookup _ _ _ Hcls). }
  set (σ2 := with_counter σ1 f cls1 (Some c)).
  assert (_initialize_counter (S (S fuel)) f σ = (Return (), σ2)) as Hrun.
  { cbn [_initialize_counter].
    rewrite (bind_run _ _ _ _ _ (get_meta_run _ _ _ Hcls)).
    rewrite Hc. fold r. rewrite decide_False by done.
    rewrite (bind_run _ _ _ _ _ Hrun1).
    rewrite (bind_run _ _ _ _ _ (get_meta_run _ _ _ Hrcls1)).
    rewrite (counter_of_lookup _ _ _ Hrcls1) in Hc1. rewrite Hc1.
    by rewrite (assign__counter_run σ1 f cls1). }
  assert (same_definitions σ1 σ2) as Hsame2 by by apply with_counter_same.
  assert (∀ g, counter_of σ2 g = if decide (g = f) then Some c else counter_of σ1 g)
    as Hcof.
  { intros g. unfold σ2. by rewrite (with_counter_counter_of σ1). }
  assert (reference σ1 f = r) as Hrf1.
  { rewrite (same_definitions_reference _ _ _ Hsame1).
    by rewrite (reference_lookup _ _ _ Hcls). }
  assert (reference σ1 r = r) as Hrr1.
  { by rewrite (same_definitions_reference _ _ _ Hsame1). }
  exists σ2, c. split; [done|]. split; [|split; [|split]].
  - apply (wf_store_update σ1); [done|done|..].
    + intros g c' Hg. rewrite Hcof in Hg |- *.
      destruct (decide (g = f)) as [->|Hne].
      * simplify_eq. rewrite Hrf1. by rewrite decide_False.
      * pose proof (wf_shared _ Hwf1 _ _ Hg) as Hs.
        destruct (decide (reference σ1 g = f)) as [E|]; [|done].
        rewrite E, Hf1 in Hs. done.
    + intros g c' Hg. rewrite Hcof in Hg.
      change (counters σ2) with (counters σ1).
      destruct (decide (g = f)); simplify_eq; by eapply (wf_alloc _ Hwf1).
    + intros g h c' Hg Hh. rewrite Hcof in Hg, Hh.
      destruct (decide (g = f)) as [->|], (decide (h = f)) as [->|];
        simplify_eq; [done|..].
      * rewrite Hrf1, <- Hrr1. by eapply (wf_separate _ Hwf1).
      * rewrite Hrf1, <- Hrr1. by eapply (wf_separate _ Hwf1).
      * by eapply (wf_separate _ Hwf1).
  - apply (extends_trans _ σ1); [done|]. split; [done|]. split.
    + intros g c' Hg. rewrite Hcof. destruct (decide (g = f)) as [->|]; [|done].
      rewrite Hf1 in Hg. done.
    + intros q Hq Hqroot. apply cursor_preserved; [done|done|..].
      * rewrite Hcof. rewrite decide_False; [done|]. intros ->. congruence.
      * done.
  - rewrite Hcof. by rewrite decide_True.
  - rewrite Hcof. by rewrite decide_False.
Qed.

(** Writing the [seq] of the counter object held by owner [r]. *)
Lemma set_cell_spec σ c v r :
  wf_store σ → registered σ r → reference σ r = r → counter_of σ r = Some c →
  let σ' := set_counters σ (<[c := v]> (counters σ)) in
  wf_store σ' ∧ same_definitions σ σ'
  ∧ (∀ g, counter_of σ' g = counter_of σ g)
  ∧ cursor σ' r = v
  ∧ (∀ q, registered σ q → reference σ q = q → q ≠ r → cursor σ' q = cursor σ q).
Proof.
  intros Hwf [cls Hcls] Hroot Hc σ'.
  assert (same_definitions σ σ') as Hsame by done.
  assert (∀ g, counter_of σ' g = counter_of σ g) as Hcof by done.
  split; [|split; [done|split; [done|split]]].
  - apply (wf_store_update σ); [done|done|..].
    + intros g c' Hg. rewrite Hcof in *. by apply (wf_shared _ Hwf).
    + intros g c' Hg. rewrite Hcof in *. unfold σ'; simpl.
      rewrite length_insert. by eapply (wf_alloc _ Hwf).
    + intros g h c' Hg Hh. rewrite Hcof in *. by eapply (wf_separate _ Hwf).
  - rewrite (counter_of_lookup _ _ _ Hcls) in Hc.
    rewrite (cursor_owner σ' r cls c Hcls Hc). unfold σ'; simpl.
    rewrite list_lookup_insert_eq; [done|].
    eapply (wf_alloc _ Hwf r). by rewrite (counter_of_lookup _ _ _ Hcls).
  - intros q Hq Hqroot Hne. apply cursor_preserved; [done|done|done|].
    intros c' Hc'. unfold σ'; simpl. rewrite list_lookup_insert_ne; [done|].
    intros ->. apply Hne. rewrite <- Hqroot, <- Hroot.
    by eapply (wf_separate _ Hwf).
Qed.

Lemma Counter_next_run σ c v :
  counters σ !! c = Some v →
  Counter_next c σ = (Return v, set_counters σ (<[c := v + 1]> (counters σ))).
Proof. intros H. unfold Counter_next. by rewrite H. Qed.

Lemma Counter_reset_run σ c v w :
  counters σ !! c = Some v →
  Counter_reset c w σ = (Return (), set_counters σ (<[c := w]> (counters σ))).
Proof. intros H. unfold Counter_reset. by rewrite H. Qed.

(** After initialisation, the cell of the shared counter holds the cursor. *)
Lemma initialised_cell σ f c :
  wf_store σ → registered σ f → counter_of σ f = Some c →
  counters σ !! c = Some (cursor σ (reference σ f)).
Proof.
  intros Hwf Hf Hc.
  pose proof (wf_shared _ Hwf _ _ Hc) as Hr.
  destruct (counter_of_registered _ _ _ Hr) as [rcls Hrcls].
  rewrite (counter_of_lookup _ _ _ Hrcls) in Hr.
  rewrite (cursor_owner _ _ _ _ Hrcls Hr).
  pose proof (wf_alloc _ Hwf _ _ Hc) as Hlt.
  destruct (lookup_lt_is_Some_2 _ _ Hlt) as [v ->]. done.
Qed.

Lemma next_sequence_spec σ fuel f :
  wf_store σ → registered σ f → (2 ≤ fuel)%nat →
  ∃ σ', next_sequence fuel f σ = (Return (cursor σ (reference σ f)), σ')
    ∧ wf_store σ' ∧ same_definitions σ σ'
    ∧ (∀ g c, counter_of σ g = Some c → counter_of σ' g = Some c)
    ∧ cursor σ' (reference σ f) = cursor σ (reference σ f) + 1
    ∧ (∀ q, registered σ q → reference σ q = q → q ≠ reference σ f →
            cursor σ' q = cursor σ q).
Proof.
  intros Hwf Hf Hfuel.
  destruct (initialize_counter_spec σ fuel f Hwf Hf Hfuel)
    as (σ1 & c & Hrun1 & Hwf1 & (Hsame1 & Hmono1 & Hcur1) & Hc1 & Hr1).
  destruct (wf_reference _ Hwf _ Hf) as [Hr Hrr].
  set (r := reference σ f) in *.
  assert (registered σ1 f) as Hf1
    by by apply (same_definitions_registered _ _ f Hsame1).
  assert (registered σ1 r) as Hreg1
    by by apply (same_definitions_registered _ _ r Hsame1).
  assert (reference σ1 f = r) as Hrf1
    by by rewrite (same_definitions_reference _ _ _ Hsame1).
  assert (reference σ1 r = r) as Hrr1
    by by rewrite (same_definitions_reference _ _ _ Hsame1).
  pose proof (initialised_cell σ1 f c Hwf1 Hf1 Hc1) as Hcell.
  rewrite Hrf1, (Hcur1 r Hr Hrr) in Hcell.
  destruct (set_cell_spec σ1 c (cursor σ r + 1) r Hwf1 Hreg1 Hrr1 Hr1)
    as (Hwf2 & Hsame2 & Hcof2 & Hcur2 & Hoth2).
  destruct Hf1 as [cls1 Hcls1].
  eexists. split.
  { unfold next_sequence.
    rewrite (bind_run _ _ _ _ _ Hrun1).
    rewrite (bind_run _ _ _ _ _ (get_meta_run _ _ _ Hcls1)).
    rewrite (counter_of_lookup _ _ _ Hcls1) in Hc1. rewrite Hc1. simpl.
    unfold mbind at 1, M_bind, mret, M_ret.
    by rewrite (Counter_next_run _ _ _ Hcell). }
  split; [done|]. split; [by eapply same_definitions_trans|].
  split; [|split].
  - intros g c' Hg. rewrite Hcof2. eauto.
  - done.
  - intros q Hq Hqroot Hne. rewrite Hoth2; [by apply Hcur1|..|done].
    + by apply (same_definitions_registered _ _ q Hsame1).
    + by rewrite (same_definitions_reference _ _ _ Hsame1).
Qed.

Lemma repr_class_same σ σ' g cls cls' :
  same_definitions σ σ' →
  classes σ !! g = Some cls → classes σ' !! g = Some cls' →
  repr_class cls' = repr_class cls.
Proof.
  intros Hsame H1 H2.
  destruct (same_definitions_setup _ _ _ _ _ Hsame H1 H2)
    as (_ & _ & _ & _ & Hm & Hq).
  unfold repr_class. by rewrite Hm, Hq.
Qed.

Lemma reset_sequence_spec σ fuel f value force fcls rcls :
  wf_store σ → classes σ !! f = Some fcls →
  classes σ !! reference σ f = Some rcls → (2 ≤ fuel)%nat →
  ∃ σ', wf_store σ' ∧ same_definitions σ σ'
    ∧ (∀ g c, counter_of σ g = Some c → counter_of σ' g = Some c)
    ∧ (∀ q, registered σ q → reference σ q = q → q ≠ reference σ f →
            cursor σ' q = cursor σ q)
    ∧ if bool_decide (reference σ f ≠ f) && negb force then
        reset_sequence fuel f value force σ
          = (Raise (ValueError (reset_error_message fcls rcls)), σ')
        ∧ cursor σ' (reference σ f) = cursor σ (reference σ f)
      else
        reset_sequence fuel f value force σ = (Return (), σ')
        ∧ cursor σ' (reference σ f) = default (_setup_next_sequence rcls) value.
Proof.
  intros Hwf Hfcls Hrcls Hfuel.
  assert (registered σ f) as Hf by by exists fcls.
  destruct (initialize_counter_spec σ fuel f Hwf Hf Hfuel)
    as (σ1 & c & Hrun1 & Hwf1 & (Hsame1 & Hmono1 & Hcur1) & Hc1 & Hr1).
  destruct (wf_reference _ Hwf _ Hf) as [Hr Hrr].
  pose proof (reference_lookup _ _ _ Hfcls) as Hreff.
  set (r := reference σ f) in *.
  assert (registered σ1 f) as Hf1
    by by apply (same_definitions_registered _ _ f Hsame1).
  assert (registered σ1 r) as Hreg1
    by by apply (same_definitions_registered _ _ r Hsame1).
  assert (reference σ1 r = r) as Hrr1
    by by rewrite (same_definitions_reference _ _ _ Hsame1).
  destruct Hf1 as [fcls1 Hfcls1]. destruct Hreg1 as [rcls1 Hrcls1].
  destruct (same_definitions_setup _ _ _ _ _ Hsame1 Hfcls Hfcls1)
    as (_ & Hfac1 & Hcr1 & _).
  destruct (same_definitions_setup _ _ _ _ _ Hsame1 Hrcls Hrcls1)
    as (Hsetup & Hrfac1 & _).
  pose proof (wf_factory _ Hwf _ _ Hfcls) as Hfac.
  pose proof (wf_factory _ Hwf _ _ Hrcls) as Hrfac.
  rewrite Hfac in Hfac1. rewrite Hrfac in Hrfac1. rewrite <- Hreff in Hcr1.
  assert (∀ B (k : unit → M B),
    (_initialize_counter fuel f ≫= k) σ = k () σ1) as Hstep1.
  { intros B k. by rewrite (bind_run _ _ _ _ _ Hrun1). }
  destruct (bool_decide (r ≠ f) && negb force) eqn:Hguard.
  - exists σ1. split; [done|]. split; [done|]. split; [done|].
    split; [by intros; apply Hcur1|]. split; [|by apply Hcur1].
    unfold reset_sequence. rewrite Hstep1.
    rewrite (bind_run _ _ _ _ _ (get_meta_run _ _ _ Hfcls1)).
    rewrite Hcr1, Hguard, Hfac1.
    rewrite (bind_run _ _ _ _ _ (get_class_run _ _ _ Hfcls1)).
    rewrite (bind_run _ _ _ _ _ (get_meta_run _ _ _ Hrcls1)).
    rewrite Hrfac1.
    rewrite (bind_run _ _ _ _ _ (get_class_run _ _ _ Hrcls1)).
    unfold raise, reset_error_message.
    by rewrite (repr_class_same _ _ _ _ _ Hsame1 Hfcls Hfcls1),
               (repr_class_same _ _ _ _ _ Hsame1 Hrcls Hrcls1).
  - set (w := default (_setup_next_sequence rcls) value).
    pose proof (initialised_cell σ1 f c Hwf1 ltac:(by exists fcls1) Hc1) as Hcell.
    destruct (set_cell_spec σ1 c w r Hwf1 ltac:(by exists rcls1) Hrr1 Hr1)
      as (Hwf2 & Hsame2 & Hcof2 & Hcur2 & Hoth2).
    eexists. split; [exact Hwf2|]. split; [by eapply same_definitions_trans|].
    split; [intros g c' Hg; rewrite Hcof2; eauto|].
    split.
    { intros q Hq Hqroot Hne. rewrite Hoth2; [by apply Hcur1|..|done].
      + by apply (same_definitions_registered _ _ q Hsame1).
      + by rewrite (same_definitions_reference _ _ _ Hsame1). }
    split; [|done].
    unfold reset_sequence. rewrite Hstep1.
    rewrite (bind_run _ _ _ _ _ (get_meta_run _ _ _ Hfcls1)).
    rewrite Hcr1, Hguard.
    rewrite (counter_of_lookup _ _ _ Hfcls1) in Hc1. rewrite Hc1.
    assert (∀ B (k : Z → M B),
      ((match value with
        | Some v => mret v
        | None => ref ← get_meta r; rcls0 ← get_class (factory ref);
                  mret (_setup_next_sequence rcls0)
        end) ≫= k) σ1 = k w σ1) as Hval.
    { intros B k. unfold w. destruct value as [v|]; simpl.
      - done.
      - apply bind_run.
        rewrite (bind_run _ _ _ _ _ (get_meta_run _ _ _ Hrcls1)).
        rewrite Hrfac1.
        rewrite (bind_run _ _ _ _ _ (get_class_run _ _ _ Hrcls1)).
        by rewrite Hsetup. }
    rewrite Hval. simpl. unfold mbind at 1, M_bind, mret, M_ret.
    by rewrite (Counter_reset_run _ _ _ w Hcell).
Qed.

Lemma consecutive_lookup n k i a :
  consecutive n k !! i = Some a → a = n + Z.of_nat i.
Proof.
  revert n i. induction k as [|k IH]; intros n i; simpl; [done|].
  destruct i as [|i]; simpl.
  - intros [= <-]. lia.
  - intros H. apply IH in H. lia.
Qed.

Lemma consecutive_increasing n k : strictly_increasing (consecutive n k).
Proof.
  intros i j a b Hij Ha Hb.
  apply consecutive_lookup in Ha, Hb. lia.
Qed.

Lemma sequence_values_same σ σ' r log :
  same_definitions σ σ' → sequence_values σ' r log = sequence_values σ r log.
Proof.
  intros Hsame. induction log as [|[c o] log IH]; simpl; [done|].
  destruct c as [f|]; [|done]. destruct o as [[v|]|]; try done.
  rewrite (same_definitions_reference _ _ _ Hsame). by rewrite IH.
Qed.

Lemma run_values σ0 fuel r calls : ∀ σ,
  wf_store σ → same_definitions σ0 σ → (2 ≤ fuel)%nat →
  registered σ0 r → reference σ0 r = r →
  Forall (λ c, registered σ0 (call_target c)) calls →
  Forall (λ c, ¬ resets σ0 r c) calls →
  sequence_values σ0 r (run fuel calls σ).1
  = consecutive (cursor σ r) (next_calls σ0 r calls).
Proof.
  intros σ Hwf Hsame Hfuel Hr Hroot Hreg Hnr. revert σ Hwf Hsame.
  induction calls as [|c calls IH]; intros σ Hwf Hsame; [done|].
  apply Forall_cons in Hreg as [Hc Hreg]. apply Forall_cons in Hnr as [Hn Hnr].
  specialize (IH Hreg Hnr).
  assert (registered σ r) as Hr' by by apply (same_definitions_registered _ _ r Hsame).
  assert (reference σ r = r) as Hroot'
    by by rewrite (same_definitions_reference _ _ _ Hsame).
  assert (registered σ (call_target c)) as Hc'
    by by apply (same_definitions_registered _ _ _ Hsame).
  destruct c as [f|f value force]; simpl in Hc, Hc', Hn.
  - destruct (next_sequence_spec σ fuel f Hwf Hc' Hfuel)
      as (σ1 & Hrun & Hwf1 & Hsame1 & _ & Hcur & Hoth).
    rewrite (same_definitions_reference _ _ _ Hsame) in Hrun, Hcur, Hoth.
    cbn [run do_call]. rewrite (bind_run _ _ _ _ _ Hrun).
    unfold mret, M_ret.
    specialize (IH σ1 Hwf1 (same_definitions_trans _ _ _ Hsame Hsame1)).
    destruct (run fuel calls σ1) as [log σ2] eqn:Hlog. cbn [fst] in *.
    cbn [sequence_values next_calls].
    destruct (decide (reference σ0 f = r)) as [E|E].
    + rewrite E in *. cbn [consecutive]. rewrite IH, Hcur. done.
    + rewrite IH, Hoth; done.
  - destruct Hc' as [fcls Hfcls].
    destruct (wf_reference _ Hwf f ltac:(by exists fcls)) as [[rcls Hrcls] _].
    destruct (reset_sequence_spec σ fuel f value force fcls rcls
                Hwf Hfcls Hrcls Hfuel)
      as (σ1 & Hwf1 & Hsame1 & _ & Hoth & Hres).
    rewrite (same_definitions_reference _ _ _ Hsame) in Hoth, Hres.
    specialize (IH σ1 Hwf1 (same_definitions_trans _ _ _ Hsame Hsame1)).
    assert (cursor σ1 r = cursor σ r ∧
            ∃ o, do_call fuel (Reset f value force) σ = (o, σ1)
                 ∧ (o = Return None ∨ ∃ e, o = Raise e)) as (Hcur & o & Hdo & Ho).
    { destruct (bool_decide (reference σ0 f ≠ f) && negb force) eqn:Hguard.
      - destruct Hres as [Hrun Hsamecur]. split.
        + destruct (decide (reference σ0 f = r)) as [E|E].
          * by rewrite <- E.
          * by apply Hoth.
        + eexists. split; [|right; eauto].
          cbn [do_call]. by rewrite (bind_raise _ _ _ _ _ Hrun).
      - destruct Hres as [Hrun _]. split.
        + apply Hoth; [done|done|]. intros E. apply Hn. split; [done|].
          apply andb_false_iff in Hguard as [Hg|Hg].
          * left. apply bool_decide_eq_false in Hg.
            destruct (decide (reference σ0 f = f)); [congruence|done].
          * right. by destruct force.
        + eexists. split; [|by left].
          cbn [do_call]. by rewrite (bind_run _ _ _ _ _ Hrun). }
    cbn [run]. rewrite Hdo.
    destruct (run fuel calls σ1) as [log σ2] eqn:Hlog. cbn [fst] in *.
    cbn [next_calls]. rewrite <- Hcur, <- IH.
    destruct Ho as [->|[e ->]]; done.
Qed.

(** *** Registration *)

Lemma outcome_bind_inv {A B} (m : outcome A) (k : A → outcome B) b :
  m ≫= k = Return b → ∃ a, m = Return a ∧ k a = Return b.
Proof. destruct m; simpl; [eauto|done]. Qed.

Lemma contribute_to_class_inv oc cs self mro body base_meta base meta :
  contribute oc cs self mro body base_meta base = Return meta →
  ∃ opts,
    _fill_from_meta (repr_body body) (body_Meta body) base_meta = Return opts
    ∧ factory meta = self ∧ base_factory meta = base ∧ _counter meta = None
    ∧ model meta = o_model opts
    ∧ abstract meta
      = match o_model opts with None => true | Some _ => o_abstract opts end
    ∧ strategy meta = o_strategy opts
    ∧ _get_counter_reference cs self (o_model opts) base
      = Return (counter_reference meta)
    ∧ ∃ deps, check_dependencies (repr_body body) (parameters meta) = Return deps.
Proof.
  unfold contribute_to_class. intros H.
  apply outcome_bind_inv in H as (col & Hcol & H).
  apply outcome_bind_inv in H as (deps & Hdeps & H).
  apply outcome_bind_inv in H as ([pre post] & Hparse & H).
  unfold contribute_to_class_until_check in Hcol.
  apply outcome_bind_inv in Hcol as (opts & Hopts & Hcol).
  apply outcome_bind_inv in Hcol as (ref & Href & Hcol).
  apply outcome_bind_inv in Hcol as (parents & Hparents & Hcol).
  apply outcome_bind_inv in Hcol as (decls & Hdecls & Hcol).
  exists opts. simplify_eq/=. eauto 12.
Qed.

Lemma _get_counter_reference_cases cs self self_model base ref :
  _get_counter_reference cs self self_model base = Return ref →
  ref = self
  ∨ ∃ b bcls m bm, base = Some b ∧ cs !! b = Some bcls
      ∧ self_model = Some m ∧ model (_meta bcls) = Some bm
      ∧ issubclass m bm = true
      ∧ ref = counter_reference (_meta bcls).
Proof.
  unfold _get_counter_reference, lookup_meta.
  destruct self_model as [m|]; [|intros [= <-]; by left].
  destruct base as [b|]; [|intros [= <-]; by left].
  destruct (cs !! b) as [bcls|] eqn:Hb; simpl; [|done].
  destruct (model (_meta bcls)) as [bm|] eqn:Hbm; [|intros [= <-]; by left].
  destruct (issubclass m bm) eqn:Hsub; intros [= <-]; [|by left].
  right. eauto 10.
Qed.

(** The store after appending a freshly registered class. *)
Lemma appended_lookup σ σ' cls g :
  classes σ' = (classes σ ++ [cls])%list →
  classes σ' !! g
  = if decide (g = length (classes σ)) then Some cls else classes σ !! g.
Proof.
  intros ->. destruct (decide (g = length (classes σ))) as [->|Hne].
  - rewrite lookup_app_r by done. by rewrite Nat.sub_diag.
  - destruct (decide (g < length (classes σ))%nat).
    + by rewrite lookup_app_l.
    + rewrite !lookup_ge_None_2; [done|lia|rewrite length_app; simpl; lia].
Qed.

Lemma appended_wf σ σ' cls :
  wf_store σ →
  classes σ' = (classes σ ++ [cls])%list → counters σ' = counters σ →
  factory (_meta cls) = length (classes σ) →
  _counter (_meta cls) = None →
  (counter_reference (_meta cls) = length (classes σ)
   ∨ ∃ b, registered σ b ∧ counter_reference (_meta cls) = reference σ b) →
  wf_store σ'.
Proof.
  intros Hwf Hcls Hcnt Hfac Hnone Href.
  pose proof (λ g, appended_lookup σ σ' cls g Hcls) as Hlook.
  set (n := length (classes σ)) in *.
  assert (∀ g, registered σ g → g ≠ n) as Hold.
  { intros g [c Hg] ->. apply lookup_lt_Some in Hg. unfold n in Hg. lia. }
  assert (∀ g, registered σ g → registered σ' g) as Hreg.
  { intros g Hg. unfold registered. rewrite Hlook.
    by rewrite decide_False by by apply Hold. }
  assert (∀ g, g ≠ n → counter_of σ' g = counter_of σ g) as Hcof.
  { intros g Hg. unfold counter_of. by rewrite Hlook, decide_False. }
  assert (counter_of σ' n = None) as Hcofn.
  { unfold counter_of. by rewrite Hlook, decide_True. }
  assert (∀ g, g ≠ n → reference σ' g = reference σ g) as Hrefg.
  { intros g Hg. unfold reference. by rewrite Hlook, decide_False. }
  assert (reference σ' n = counter_reference (_meta cls)) as Hrefn.
  { unfold reference. by rewrite Hlook, decide_True. }
  assert (∀ g c, counter_of σ' g = Some c → g ≠ n ∧ counter_of σ g = Some c)
    as Hsome.
  { intros g c Hg. destruct (decide (g = n)) as [->|Hne]; [congruence|].
    by rewrite Hcof in Hg. }
  split.
  - intros g c Hg. rewrite Hlook in Hg.
    destruct (decide (g = n)) as [->|]; [by simplify_eq|].
    by eapply (wf_factory _ Hwf).
  - intros g Hg. unfold registered in Hg. rewrite Hlook in Hg.
    destruct (decide (g = n)) as [->|Hne].
    + rewrite Hrefn. destruct Href as [Href|(b & Hb & ->)].
      * rewrite Href. split; [|by rewrite Hrefn].
        unfold registered. rewrite Hlook, decide_True; eauto.
      * destruct (wf_reference _ Hwf _ Hb) as [Hrb Hrrb].
        split; [by apply Hreg|]. by rewrite Hrefg by by apply Hold.
    + rewrite Hrefg by done.
      destruct (wf_reference _ Hwf _ Hg) as [Hrg Hrrg].
      split; [by apply Hreg|]. by rewrite Hrefg by by apply Hold.
  - intros g c Hg. apply Hsome in Hg as [Hne Hg].
    rewrite Hrefg by done.
    pose proof (wf_shared _ Hwf _ _ Hg) as Hs.
    rewrite Hcof; [done|]. apply Hold. by eapply counter_of_registered.
  - intros g c Hg. apply Hsome in Hg as [Hne Hg]. rewrite Hcnt.
    by eapply (wf_alloc _ Hwf).
  - intros g h c Hg Hh.
    apply Hsome in Hg as [Hgn Hg]. apply Hsome in Hh as [Hhn Hh].
    rewrite !Hrefg by done. by eapply (wf_separate _ Hwf).
Qed.

(** Registration either fails and leaves the store alone, or appends one
    class whose options are what [contribute_to_class] returned. *)
Lemma new_class_spec body σ :
  match new_class body σ with
  | (Raise e, σ') => σ' = σ
  | (Return f, σ') =>
      f = length (classes σ) ∧ (wf_store σ → wf_store σ')
      ∧ counters σ' = counters σ
      ∧ ∃ cls mro base_meta oc,
          classes σ' = (classes σ ++ [cls])%list
          ∧ __name__ cls = body_name body
          ∧ contribute oc (classes σ) f mro body base_meta (body_base body)
            = Return (_meta cls)
          ∧ base_meta = _meta <$> (body_base body ≫= (λ b, classes σ !! b))
  end.
Proof.
  unfold FactoryMetaClass_new.
  destruct (body_base body) as [b|] eqn:Hbase; simpl.
  - destruct (classes σ !! b) as [bcls|] eqn:Hb; simpl; [|done].
    destruct (contribute _ _ _ _ _ _ _) as [meta|e] eqn:Hc; [|done].
    split; [done|].
    destruct (contribute_to_class_inv _ _ _ _ _ _ _ _ Hc)
      as (opts & _ & Hfac & _ & Hcnt & _ & _ & _ & Href & _).
    split; [|split; [done|]].
    + intros Hwf. eapply appended_wf; [done|done|done|done|done|].
      apply _get_counter_reference_cases in Href
        as [E|(b' & bcls' & m & bm & ? & ? & ? & ? & ? & E)]; [by left|].
      simplify_eq. right. eexists. split; [eexists; eassumption|].
      simpl. rewrite E. by erewrite reference_lookup.
    + eexists _, _, _, _. split; [done|]. split; [done|]. split; [exact Hc|done].
  - destruct (contribute _ _ _ _ _ _ _) as [meta|e] eqn:Hc; [|done].
    split; [done|].
    destruct (contribute_to_class_inv _ _ _ _ _ _ _ _ Hc)
      as (opts & _ & Hfac & _ & Hcnt & _ & _ & _ & Href & _).
    split; [|split; [done|]].
    + intros Hwf. eapply appended_wf; [done|done|done|done|done|].
      apply _get_counter_reference_cases in Href
        as [E|(b' & bcls' & m & bm & ? & ? & ? & ? & ? & E)]; [by left|done].
    + eexists _, _, _, _. split; [done|]. split; [done|]. split; [exact Hc|done].
Qed.

Lemma new_class_wf body σ : wf_store σ → wf_store (new_class body σ).2.
Proof.
  intros Hwf. pose proof (new_class_spec body σ) as H.
  destruct (new_class body σ) as [[f|e] σ']; simpl.
  - destruct H as (_ & H & _). by apply H.
  - by subst.
Qed.

(** *** The claims about counters *)

(** C1 (as amended).  On a store built by registration, every call to
    [next_sequence] returns: the integers handed out by one shared counter
    over calls with no intervening reset of that counter are consecutive,
    starting at the counter's cursor, hence each is strictly greater than
    every value returned since the most recent reset; the cursor of a counter
    not yet used is the owning definition's [_setup_next_sequence()]; and
    after a successful [reset_sequence(v)] the next call on any definition
    sharing the counter returns exactly [v]. *)
Theorem next_sequence_values_since_reset σ fuel :
  wf_store σ → (2 ≤ fuel)%nat →
  (∀ r calls,
     registered σ r → reference σ r = r →
     Forall (λ c, registered σ (call_target c)) calls →
     Forall (λ c, ¬ resets σ r c) calls →
     sequence_values σ r (run fuel calls σ).1
       = consecutive (cursor σ r) (next_calls σ r calls)
     ∧ strictly_increasing (sequence_values σ r (run fuel calls σ).1))
  ∧ (∀ r cls,
       classes σ !! r = Some cls → _counter (_meta cls) = None →
       cursor σ r = _setup_next_sequence cls)
  ∧ (∀ f g v force σ1,
       registered σ f → registered σ g → reference σ f = reference σ g →
       reset_sequence fuel f (Some v) force σ = (Return (), σ1) →
       ∃ σ2, next_sequence fuel g σ1 = (Return v, σ2)).
Proof.
  intros Hwf Hfuel. split; [|split].
  - intros r calls Hr Hroot Hreg Hnr.
    pose proof (run_values σ fuel r calls σ Hwf (same_definitions_refl σ)
                  Hfuel Hr Hroot Hreg Hnr) as Hv.
    split; [done|]. rewrite Hv. apply consecutive_increasing.
  - intros r cls Hcls Hnone. by apply cursor_fresh.
  - intros f g v force σ1 [fcls Hfcls] Hg Href Hrun.
    destruct (wf_reference _ Hwf f ltac:(by exists fcls)) as [[rcls Hrcls] _].
    destruct (reset_sequence_spec σ fuel f (Some v) force fcls rcls
                Hwf Hfcls Hrcls Hfuel)
      as (σ' & Hwf' & Hsame & _ & _ & Hres).
    destruct (bool_decide (reference σ f ≠ f) && negb force).
    { destruct Hres as [Hres _]. rewrite Hres in Hrun. done. }
    destruct Hres as [Hres Hcur]. rewrite Hres in Hrun. simplify_eq.
    assert (registered σ1 g) as Hg1
      by by apply (same_definitions_registered _ _ g Hsame).
    destruct (next_sequence_spec σ1 fuel g Hwf' Hg1 Hfuel) as (σ2 & Hnext & _).
    exists σ2. rewrite Hnext.
    rewrite (same_definitions_reference _ _ _ Hsame), <- Href, Hcur. done.
Qed.

(** C6.  [reset_sequence] raises the ownership [ValueError] exactly when
    the definition's counter reference is another definition and [force]
    is false; its message shows the definition it was called on and then
    the owning definition, each as [%r] prints a class: by module and
    qualified name.  It returns exactly when it is called on the owner or
    with [force], and then the shared counter's next value is [value] (the
    owner's [_setup_next_sequence()] when [value] is [None]). *)
Theorem reset_sequence_ownership σ fuel f value force fcls rcls :
  wf_store σ → classes σ !! f = Some fcls →
  classes σ !! reference σ f = Some rcls → (2 ≤ fuel)%nat →
  ((reset_sequence fuel f value force σ).1
     = Raise (ValueError
                ("Can't reset a sequence on descendant factory "
                 +:+ repr_class fcls +:+ "; reset sequence on "
                 +:+ repr_class rcls +:+ " or use `force=True`."))
   ↔ reference σ f ≠ f ∧ force = false)
  ∧ (∀ cls,
       repr_class cls
       = if decide (__module__ cls = "builtins")
         then "<class '" +:+ __qualname__ cls +:+ "'>"
         else "<class '" +:+ __module__ cls +:+ "." +:+ __qualname__ cls +:+ "'>")
  ∧ ((reset_sequence fuel f value force σ).1 = Return ()
     ↔ reference σ f = f ∨ force = true)
  ∧ (reference σ f = f ∨ force = true →
     cursor (reset_sequence fuel f value force σ).2 (reference σ f)
     = default (_setup_next_sequence rcls) value).
Proof.
  intros Hwf Hfcls Hrcls Hfuel.
  destruct (reset_sequence_spec σ fuel f value force fcls rcls
              Hwf Hfcls Hrcls Hfuel)
    as (σ' & _ & _ & _ & _ & Hres).
  change (reset_error_message fcls rcls)
    with ("Can't reset a sequence on descendant factory "
          +:+ repr_class fcls +:+ "; reset sequence on "
          +:+ repr_class rcls +:+ " or use `force=True`.") in Hres.
  split; [|split; [done|]].
  - destruct (bool_decide (reference σ f ≠ f) && negb force) eqn:Hguard.
    + apply andb_true_iff in Hguard as [Hne Hforce].
      apply bool_decide_eq_true in Hne. apply negb_true_iff in Hforce.
      destruct Hres as [-> _]. done.
    + destruct Hres as [-> _]. simpl. split; [done|].
      intros [Hne ->]. rewrite bool_decide_eq_true_2 in Hguard by done. done.
  - destruct (bool_decide (reference σ f ≠ f) && negb force) eqn:Hguard.
    + apply andb_true_iff in Hguard as [Hne Hforce].
      apply bool_decide_eq_true in Hne. apply negb_true_iff in Hforce.
      destruct Hres as [-> _]. simpl.
      split; [|intros [?|?]; congruence].
      split; [done|]. intros [?|?]; congruence.
    + assert (reference σ f = f ∨ force = true) as Hok.
      { apply andb_false_iff in Hguard as [Hg|Hg].
        - left. apply bool_decide_eq_false in Hg.
          destruct (decide (reference σ f = f)); [done|by destruct Hg].
        - right. by destruct force. }
      destruct Hres as [-> Hcur]. simpl. done.
Qed.

(** C9.  [_initialize_counter] returns on every registered definition and
    leaves it holding the very counter object that its counter reference
    holds; no definition that already had a counter gets another one; a
    second call changes nothing; and [next_sequence] on two definitions
    with the same counter reference advances one cursor. *)
Theorem initialize_counter_shared σ fuel f :
  wf_store σ → registered σ f → (2 ≤ fuel)%nat →
  ∃ σ1 c,
    _initialize_counter fuel f σ = (Return (), σ1)
    ∧ counter_of σ1 f = Some c
    ∧ counter_of σ1 (reference σ f) = Some c
    ∧ (∀ g c', counter_of σ g = Some c' → counter_of σ1 g = Some c')
    ∧ _initialize_counter fuel f σ1 = (Return (), σ1)
    ∧ (∀ g, registered σ g → reference σ g = reference σ f →
         ∃ σ2 σ3 v, next_sequence fuel f σ1 = (Return v, σ2)
                    ∧ next_sequence fuel g σ2 = (Return (v + 1), σ3)).
Proof.
  intros Hwf Hf Hfuel.
  destruct (initialize_counter_spec σ fuel f Hwf Hf Hfuel)
    as (σ1 & c & Hrun & Hwf1 & (Hsame & Hmono & _) & Hc & Hrc).
  exists σ1, c. split; [done|]. split; [done|]. split; [done|].
  split; [done|]. split.
  - destruct fuel as [|fuel]; [lia|]. by eapply initialize_counter_done.
  - intros g Hg Href.
    assert (registered σ1 f) as Hf1
      by by apply (same_definitions_registered _ _ f Hsame).
    destruct (next_sequence_spec σ1 fuel f Hwf1 Hf1 Hfuel)
      as (σ2 & Hn1 & Hwf2 & Hsame2 & _ & Hcur2 & _).
    assert (registered σ2 g) as Hg2.
    { apply (same_definitions_registered _ _ g Hsame2).
      by apply (same_definitions_registered _ _ g Hsame). }
    destruct (next_sequence_spec σ2 fuel g Hwf2 Hg2 Hfuel) as (σ3 & Hn2 & _).
    exists σ2, σ3, (cursor σ1 (reference σ1 f)). split; [done|].
    rewrite Hn2. rewrite (same_definitions_reference _ _ g Hsame2).
    rewrite (same_definitions_reference _ _ g Hsame), Href.
    rewrite <- (same_definitions_reference _ _ f Hsame), Hcur2. done.
Qed.

Lemma new_class_meta body σ f σ' cls :
  new_class body σ = (Return f, σ') → classes σ' !! f = Some cls →
  f = length (classes σ)
  ∧ __name__ cls = body_name body
  ∧ ∃ mro oc,
      contribute oc (classes σ) f mro body
        (_meta <$> (body_base body ≫= (λ b, classes σ !! b))) (body_base body)
      = Return (_meta cls).
Proof.
  intros Hnew Hcls. pose proof (new_class_spec body σ) as H.
  rewrite Hnew in H.
  destruct H as (-> & _ & _ & cls0 & mro & bm & oc & Hcs & Hname & Hc & ->).
  rewrite (appended_lookup _ _ _ _ Hcs), decide_True in Hcls by done.
  simplify_eq. eauto.
Qed.

Lemma issubclass_spec (m bm : pyclass) :
  issubclass m bm = true ↔ bm = m ∨ bm ∈ cls_mro_tail m.
Proof.
  unfold issubclass. rewrite bool_decide_eq_true. apply elem_of_cons.
Qed.

Lemma use_strategy_wf new_strategy klass σ :
  wf_store σ → wf_store (use_strategy new_strategy klass σ).2.
Proof.
  intros Hwf. unfold use_strategy.
  destruct (classes σ !! klass) as [cls|] eqn:Hk; simpl; [|done].
  set (cls' := set__meta cls (set_strategy (_meta cls) new_strategy)).
  set (σ' := set_classes σ (<[klass := cls']> (classes σ))).
  assert (∀ g, classes σ' !! g
               = if decide (g = klass) then Some cls' else classes σ !! g) as Hl.
  { intros g. unfold σ'; simpl. destruct (decide (g = klass)) as [->|].
    - apply list_lookup_insert_eq. by eapply lookup_lt_Some.
    - by apply list_lookup_insert_ne. }
  assert (∀ g, registered σ' g ↔ registered σ g) as Hreg.
  { intros g. unfold registered. rewrite Hl.
    destruct (decide (g = klass)) as [->|]; [|done]. rewrite Hk.
    split; eauto. }
  assert (∀ g, reference σ' g = reference σ g) as Href.
  { intros g. unfold reference. rewrite Hl.
    destruct (decide (g = klass)) as [->|]; [|done]. by rewrite Hk. }
  assert (∀ g, counter_of σ' g = counter_of σ g) as Hcof.
  { intros g. unfold counter_of. rewrite Hl.
    destruct (decide (g = klass)) as [->|]; [|done]. by rewrite Hk. }
  split.
  - intros g c Hg. rewrite Hl in Hg.
    destruct (decide (g = klass)) as [->|]; [|by eapply (wf_factory _ Hwf)].
    simplify_eq. simpl. by eapply (wf_factory _ Hwf).
  - intros g Hg. rewrite !Href, Hreg. apply (wf_reference _ Hwf). by apply Hreg.
  - intros g c. rewrite Href, !Hcof. apply (wf_shared _ Hwf).
  - intros g c. rewrite Hcof. apply (wf_alloc _ Hwf).
  - intros g h c. rewrite !Href, !Hcof. apply (wf_separate _ Hwf).
Qed.

(** Every store a program can reach has the shape the counter theorems
    assume. *)
Lemma reachable_wf σ : reachable wrap sort_ordered_objects isinstance_Parameter
                         get_revdeps parse_declarations σ → wf_store σ.
Proof.
  induction 1 as [|body σ _ IH|fuel f σ _ IH Hf Hfuel
                  |fuel f value force σ _ IH Hf Hfuel|s klass σ _ IH].
  - apply wf_empty.
  - by apply new_class_wf.
  - destruct (next_sequence_spec σ fuel f IH Hf Hfuel) as (σ' & -> & ? & _).
    done.
  - destruct Hf as [fcls Hfcls].
    destruct (wf_reference _ IH f ltac:(by exists fcls)) as [[rcls Hrcls] _].
    destruct (reset_sequence_spec σ fuel f value force fcls rcls
                IH Hfcls Hrcls Hfuel) as (σ' & Hwf' & _ & _ & _ & Hres).
    destruct (bool_decide (reference σ f ≠ f) && negb force);
      destruct Hres as [-> _]; done.
  - by apply use_strategy_wf.
Qed.

(** *** The claims about registration and invocation *)

(** C2 (as amended).  A definition's counter reference is the counter
    reference of its base definition (and not the definition itself)
    exactly when both have a model and the definition's model is a subclass
    of the base's model: the base's model, the class object and not merely
    its name, is the definition's model or one of its proper ancestors.  So
    an equal model shares the counter, too.  With no model on either side,
    or with unrelated models, the definition is its own counter reference.
    A definition made directly on [BaseFactory], as [Factory] is, has no
    model: with one, the class statement fails with [AttributeError] and
    registers nothing. *)
Theorem counter_reference_rule body σ :
  wf_store σ →
  (∀ f σ' cls,
     new_class body σ = (Return f, σ') → classes σ' !! f = Some cls →
     (∀ b bcls m bm,
        body_base body = Some b → classes σ !! b = Some bcls →
        model (_meta cls) = Some m → model (_meta bcls) = Some bm →
        bm = m ∨ bm ∈ cls_mro_tail m →
        counter_reference (_meta cls) = counter_reference (_meta bcls)
        ∧ counter_reference (_meta cls) ≠ f)
     ∧ (body_base body = None → model (_meta cls) = None)
     ∧ (model (_meta cls) = None → counter_reference (_meta cls) = f)
     ∧ (∀ b bcls,
          body_base body = Some b → classes σ !! b = Some bcls →
          model (_meta bcls) = None → counter_reference (_meta cls) = f)
     ∧ (∀ b bcls m bm,
          body_base body = Some b → classes σ !! b = Some bcls →
          model (_meta cls) = Some m → model (_meta bcls) = Some bm →
          bm ≠ m → bm ∉ cls_mro_tail m →
          counter_reference (_meta cls) = f))
  ∧ (∀ opts m,
       body_base body = None →
       _fill_from_meta (Param:=Param) (DeclarationSet:=DeclarationSet)
         (repr_body body) (body_Meta body) None = Return opts →
       o_model opts = Some m →
       new_class body σ
       = (Raise (AttributeError "'FactoryOptions' object has no attribute 'model'"),
          σ)).
Proof.
  intros Hwf. split.
  - intros f σ' cls Hnew Hcls.
    destruct (new_class_meta _ _ _ _ _ Hnew Hcls) as (Hf & _ & mro & oc & Hc).
    destruct (contribute_to_class_inv _ _ _ _ _ _ _ _ Hc)
      as (opts & _ & _ & _ & _ & Hmodel & _ & _ & Href & _).
    rewrite <- Hmodel in Href. clear Hmodel Hc.
    unfold _get_counter_reference, lookup_meta in Href.
    split; [|split; [|split; [|split]]].
    + intros b bcls m bm Hb Hbcls Hm Hbm Hsub.
      rewrite Hm, Hb, Hbcls in Href. simpl in Href. rewrite Hbm in Href.
      apply issubclass_spec in Hsub. rewrite Hsub in Href. simplify_eq.
      split; [done|].
      destruct (wf_reference _ Hwf b ltac:(by exists bcls)) as [[rcls Hr] _].
      rewrite (reference_lookup _ _ _ Hbcls) in Hr.
      apply lookup_lt_Some in Hr. lia.
    + intros Hb. rewrite Hb in Href. by destruct (model (_meta cls)).
    + intros Hm. rewrite Hm in Href. by simplify_eq.
    + intros b bcls Hb Hbcls Hbm. rewrite Hb, Hbcls in Href. simpl in Href.
      rewrite Hbm in Href. destruct (model (_meta cls)); by simplify_eq.
    + intros b bcls m bm Hb Hbcls Hm Hbm Hne Hni.
      rewrite Hm, Hb, Hbcls in Href. simpl in Href. rewrite Hbm in Href.
      destruct (issubclass m bm) eqn:Hsub; [|by simplify_eq].
      apply issubclass_spec in Hsub as [?|?]; done.
  - intros opts m Hb Hopts Hm.
    unfold FactoryMetaClass_new. rewrite Hb. simpl.
    unfold contribute_to_class, contribute_to_class_until_check.
    rewrite Hopts. simpl. by rewrite Hm.
Qed.

Lemma generate_abstract σ f cls strategy_name kw :
  classes σ !! f = Some cls → abstract (_meta cls) = true →
  _generate StepBuilder_build f strategy_name kw σ
  = (Raise (FactoryError (abstract_error_message (__name__ cls))), σ).
Proof.
  intros Hcls Habs. unfold _generate.
  rewrite (bind_run _ _ _ _ _ (get_class_run _ _ _ Hcls)).
  by rewrite Habs.
Qed.

Lemma build_run σ f cls kw :
  classes σ !! f = Some cls →
  build StepBuilder_build f kw σ
  = _generate StepBuilder_build f
      match classmethod_build cls with
      | BaseFactory_build => BUILD_STRATEGY
      | StubFactory_build => STUB_STRATEGY
      end kw σ.
Proof.
  intros Hcls. unfold build.
  rewrite (bind_run _ _ _ _ _ (get_class_run _ _ _ Hcls)).
  by destruct (classmethod_build cls).
Qed.

Lemma create_run σ f cls kw :
  classes σ !! f = Some cls →
  create StepBuilder_build f kw σ
  = match classmethod_create cls with
    | BaseFactory_create => _generate StepBuilder_build f CREATE_STRATEGY kw σ
    | StubFactory_create => (Raise UnsupportedStrategy, σ)
    end.
Proof.
  intros Hcls. unfold create.
  rewrite (bind_run _ _ _ _ _ (get_class_run _ _ _ Hcls)).
  by destruct (classmethod_create cls).
Qed.

(** C4 (as amended).  A definition registered with no target type is
    forced abstract.  On it [stub], [build] (be it [BaseFactory.build] or
    [StubFactory.build], which calls [stub]) and [BaseFactory.create] all
    raise the same [FactoryError], which names the definition and says how
    to make it concrete, without constructing anything and without
    touching the store; a definition that has [StubFactory.create] gets
    [UnsupportedStrategy] from [create] instead.  The stub branch of
    [instantiate] itself never consults a target type. *)
Theorem abstract_guard body σ f σ' cls kw :
  new_class body σ = (Return f, σ') → classes σ' !! f = Some cls →
  model (_meta cls) = None →
  abstract (_meta cls) = true
  ∧ build StepBuilder_build f kw σ'
    = (Raise (FactoryError (abstract_error_message (__name__ cls))), σ')
  ∧ create StepBuilder_build f kw σ'
    = (Raise match classmethod_create cls with
             | BaseFactory_create =>
                 FactoryError (abstract_error_message (__name__ cls))
             | StubFactory_create => UnsupportedStrategy
             end, σ')
  ∧ stub StepBuilder_build f kw σ'
    = (Raise (FactoryError (abstract_error_message (__name__ cls))), σ')
  ∧ (∀ (c : @Factory Param DeclarationSet) args kw',
       instantiate c STUB_STRATEGY args kw' = Return (StubObject kw'))
  ∧ (∀ name,
       abstract_error_message name
       = "Cannot generate instances of abstract factory " +:+ name
         +:+ "; Ensure " +:+ name +:+ ".Meta.model is set and " +:+ name
         +:+ ".Meta.abstract is either not set or False.").
Proof.
  intros Hnew Hcls Hmodel.
  destruct (new_class_meta _ _ _ _ _ Hnew Hcls) as (_ & _ & mro & oc & Hc).
  destruct (contribute_to_class_inv _ _ _ _ _ _ _ _ Hc)
    as (opts & _ & _ & _ & _ & Hm & Habs & _).
  rewrite <- Hm, Hmodel in Habs.
  split; [done|]. split; [|split; [|split; [|split]]].
  - rewrite (build_run _ _ _ _ Hcls). by apply generate_abstract.
  - rewrite (create_run _ _ _ _ Hcls).
    destruct (classmethod_create cls); [|done]. by apply generate_abstract.
  - by apply generate_abstract.
  - done.
  - done.
Qed.

Lemma until_check_with_strategy oc cs self mro body base_meta base col s :
  contribute_until_check oc cs self mro body base_meta base = Return col →
  ∃ col',
    contribute_until_check oc cs self mro (with_strategy body s) base_meta base
    = Return col'
    ∧ o_strategy (col_options col') = s
    ∧ o_inline_args (col_options col') = o_inline_args (col_options col)
    ∧ o_exclude (col_options col') = o_exclude (col_options col)
    ∧ o_rename (col_options col') = o_rename (col_options col)
    ∧ o_introspector_class (col_options col')
      = o_introspector_class (col_options col)
    ∧ o_default_auto_fields (col_options col')
      = o_default_auto_fields (col_options col)
    ∧ o_include_auto_fields (col_options col')
      = o_include_auto_fields (col_options col)
    ∧ o_exclude_auto_fields (col_options col')
      = o_exclude_auto_fields (col_options col)
    ∧ col_introspector col' = col_introspector col
    ∧ col_model col' = col_model col ∧ col_abstract col' = col_abstract col
    ∧ col_counter_reference col' = col_counter_reference col
    ∧ col_base_declarations col' = col_base_declarations col
    ∧ col_parameters col' = col_parameters col.
Proof.
  unfold contribute_to_class_until_check. intros H.
  apply outcome_bind_inv in H as (opts & Hopts & H).
  assert (∃ opts',
    _fill_from_meta (repr_body (with_strategy body s))
      (body_Meta (with_strategy body s)) base_meta = Return opts'
    ∧ o_model opts' = o_model opts ∧ o_abstract opts' = o_abstract opts
    ∧ o_strategy opts' = s ∧ o_inline_args opts' = o_inline_args opts
    ∧ o_exclude opts' = o_exclude opts ∧ o_rename opts' = o_rename opts
    ∧ o_introspector_class opts' = o_introspector_class opts
    ∧ o_default_auto_fields opts' = o_default_auto_fields opts
    ∧ o_include_auto_fields opts' = o_include_auto_fields opts
    ∧ o_exclude_auto_fields opts' = o_exclude_auto_fields opts)
    as (opts' & -> & E1 & E2 & E3 & E4 & E5 & E6 & E7 & E8 & E9 & E10).
  { unfold _fill_from_meta in *. simpl.
    destruct (body_Meta body) as [m|]; simpl in *.
    - destruct (filter _ (meta_unknown m)); [|done].
      simplify_eq. eexists. split; [done|]. simpl.
      unfold OptionDefault_apply; simpl. repeat split.
    - simplify_eq. eexists. split; [done|]. simpl.
      unfold OptionDefault_apply; simpl. repeat split. }
  simpl. rewrite E1, E2, E7, E8, E9, E10.
  change (body_attrs (with_strategy body s)) with (body_attrs body).
  change (body_Params (with_strategy body s)) with (body_Params body).
  apply outcome_bind_inv in H as (ref & -> & H). simpl.
  apply outcome_bind_inv in H as (parents & -> & H). simpl.
  apply outcome_bind_inv in H as (decls & -> & H). simpl.
  simplify_eq. eexists. split; [done|]. simpl. repeat split; done.
Qed.

Lemma contribute_with_strategy oc cs self mro body base_meta base meta s :
  contribute oc cs self mro body base_meta base = Return meta →
  contribute oc cs self mro (with_strategy body s) base_meta base
  = Return (set_strategy meta s).
Proof.
  unfold contribute_to_class. intros H.
  apply outcome_bind_inv in H as (col & Hcol & H).
  destruct (until_check_with_strategy _ _ _ _ _ _ _ _ s Hcol)
    as (col' & -> & E1 & E2 & E3 & E4 & E5 & E6 & E7 & E8 & E9 & E10 & E11
        & E12 & E13 & E14).
  simpl. change (repr_body (with_strategy body s)) with (repr_body body).
  rewrite E14, E13.
  apply outcome_bind_inv in H as (deps & -> & H). simpl.
  apply outcome_bind_inv in H as ([pre post] & -> & H). simpl.
  injection H as <-. unfold set_strategy; simpl.
  by rewrite E1, E2, E3, E4, E5, E6, E7, E8, E9, E10, E11, E12.
Qed.

(** C5 (as amended).  Registration never looks at the strategy name:
    whenever a class statement registers, the same statement with any
    strategy name [s] in its [Meta] registers too, as the same definition
    with strategy [s]; when [s] is none of the three strategies, the
    [UnknownStrategy] error is raised only when the definition is called
    through its default strategy. *)
Theorem unknown_strategy_raised_on_call body σ f σ' s kw :
  new_class body σ = (Return f, σ') →
  s ≠ BUILD_STRATEGY → s ≠ CREATE_STRATEGY → s ≠ STUB_STRATEGY →
  ∃ σ'' cls,
    new_class (with_strategy body s) σ = (Return f, σ'')
    ∧ classes σ'' !! f = Some cls
    ∧ strategy (_meta cls) = s
    ∧ FactoryMetaClass_call StepBuilder_build f kw σ''
      = (Raise (UnknownStrategy ("Unknown Meta.strategy: " +:+ s)), σ'').
Proof.
  intros Hnew Hb Hc Hs.
  assert (∀ σ2 cls,
    classes σ2 = (classes σ ++ [cls])%list → strategy (_meta cls) = s →
    f = length (classes σ) →
    classes σ2 !! f = Some cls
    ∧ strategy (_meta cls) = s
    ∧ FactoryMetaClass_call StepBuilder_build f kw σ2
      = (Raise (UnknownStrategy ("Unknown Meta.strategy: " +:+ s)), σ2))
    as Hcall.
  { intros σ2 cls Hcs Hstr ->.
    assert (classes σ2 !! length (classes σ) = Some cls) as Hl.
    { by rewrite (appended_lookup _ _ _ _ Hcs), decide_True. }
    split; [done|]. split; [done|].
    unfold FactoryMetaClass_call.
    rewrite (bind_run _ _ _ _ _ (get_class_run _ _ _ Hl)).
    rewrite Hstr. by rewrite !decide_False. }
  unfold FactoryMetaClass_new in Hnew |- *.
  change (body_base (with_strategy body s)) with (body_base body).
  change (body_name (with_strategy body s)) with (body_name body).
  change (body_module (with_strategy body s)) with (body_module body).
  destruct (body_base body) as [b|]; simpl in *.
  - destruct (classes σ !! b) as [bcls|]; simpl in *; [|done].
    destruct (contribute _ _ _ _ _ _ _) as [meta|e] eqn:Hcon; [|done].
    rewrite (contribute_with_strategy _ _ _ _ _ _ _ _ s Hcon).
    simplify_eq. eexists _, _. split; [done|]. by apply Hcall.
  - destruct (contribute _ _ _ _ _ _ _) as [meta|e] eqn:Hcon; [|done].
    rewrite (contribute_with_strategy _ _ _ _ _ _ _ _ s Hcon).
    simplify_eq. eexists _, _. split; [done|]. by apply Hcall.
Qed.


(** *** Ordered dictionaries *)

Lemma od_get_set {V} (d : odict V) k v k' :
  od_get (od_set d k v) k' = if decide (k = k') then Some v else od_get d k'.
Proof.
  induction d as [|[k0 v0] d IH]; simpl.
  - by destruct (decide (k = k')).
  - destruct (decide (k0 = k)) as [->|Hne]; simpl.
    + by destruct (decide (k = k')).
    + destruct (decide (k0 = k')) as [->|]; [|done].
      by rewrite decide_False by done.
Qed.

Lemma od_set_elem {V} (d : odict V) k v k' v' :
  (k', v') ∈ od_set d k v → (k', v') = (k, v) ∨ (k', v') ∈ d.
Proof.
  induction d as [|[k0 v0] d IH]; simpl.
  - intros ->%list_elem_of_singleton. by left.
  - destruct (decide (k0 = k)) as [->|Hne].
    + intros [->|?]%elem_of_cons; [by left|right; by apply elem_of_cons; right].
    + intros [->|H]%elem_of_cons; [right; by apply elem_of_cons; left|].
      destruct (IH H) as [?|?]; [by left|right; by apply elem_of_cons; right].
Qed.

Lemma od_get_elem {V} (d : odict V) k v : od_get d k = Some v → (k, v) ∈ d.
Proof.
  induction d as [|[k0 v0] d IH]; simpl; [done|].
  destruct (decide (k0 = k)) as [->|].
  - intros [= ->]. by apply elem_of_cons; left.
  - intros H. apply elem_of_cons; right. by apply IH.
Qed.

Lemma od_keys_set {V} (d : odict V) k v x :
  x ∈ od_keys (od_set d k v) ↔ x = k ∨ x ∈ od_keys d.
Proof.
  unfold od_keys. induction d as [|[k0 v0] d IH]; simpl.
  - rewrite list_elem_of_singleton, elem_of_nil. tauto.
  - destruct (decide (k0 = k)) as [->|]; simpl.
    + rewrite !elem_of_cons. tauto.
    + rewrite !elem_of_cons, IH. tauto.
Qed.

Lemma od_set_NoDup {V} (d : odict V) k v :
  NoDup (od_keys d) → NoDup (od_keys (od_set d k v)).
Proof.
  unfold od_keys. induction d as [|[k0 v0] d IH]; simpl.
  - intros _. apply NoDup_singleton.
  - intros [Hk Hd]%NoDup_cons. destruct (decide (k0 = k)) as [->|Hne]; simpl.
    + by apply NoDup_cons.
    + apply NoDup_cons. split; [|by apply IH].
      intros [?|?]%(od_keys_set d k v k0); done.
Qed.

Lemma od_update_NoDup {V} (d e : odict V) :
  NoDup (od_keys d) → NoDup (od_keys (od_update d e)).
Proof.
  unfold od_update. revert d.
  induction e as [|[k v] e IH]; intros d Hd; simpl; [done|].
  apply IH. by apply od_set_NoDup.
Qed.

(** *** The dependency check *)

Lemma dd_value_set d k s k' :
  dd_value (od_set d k s) k' = if decide (k = k') then s else dd_value d k'.
Proof. unfold dd_value. rewrite od_get_set. by destruct (decide (k = k')). Qed.

Lemma dd_get_spec d k :
  (dd_get d k).1 = dd_value d k
  ∧ (∀ k', dd_value (dd_get d k).2 k' = dd_value d k')
  ∧ (∀ k' s', (k', s') ∈ (dd_get d k).2 → (k', s') ∈ d ∨ s' = ∅)
  ∧ (NoDup (od_keys d) → NoDup (od_keys (dd_get d k).2)).
Proof.
  unfold dd_get, dd_value. destruct (od_get d k) as [s|] eqn:Hk; simpl.
  - split; [done|]. split; [done|]. split; [by left|done].
  - split; [done|]. split; [|split].
    + intros k'. rewrite od_get_set.
      destruct (decide (k = k')) as [<-|]; [by rewrite Hk|done].
    + intros k' s' [?|?]%od_set_elem; [simplify_eq; by right|by left].
    + apply od_set_NoDup.
Qed.

Lemma union_of_revdeps_spec field_revdeps : ∀ acc d,
  let r := foldl (λ '(acc, d) dep, let '(s, d') := dd_get d dep in (acc ∪ s, d'))
                 (acc, d) field_revdeps in
  (∀ x, x ∈ r.1 ↔ x ∈ acc ∨ ∃ dep, dep ∈ field_revdeps ∧ x ∈ dd_value d dep)
  ∧ (∀ k, dd_value r.2 k = dd_value d k)
  ∧ (∀ k s, (k, s) ∈ r.2 → (k, s) ∈ d ∨ s = ∅)
  ∧ (NoDup (od_keys d) → NoDup (od_keys r.2)).
Proof.
  induction field_revdeps as [|dep l IH]; intros acc d; simpl.
  - split; [|split; [done|split; [by left|done]]]. intros x. split; [by left|].
    intros [?|(? & []%elem_of_nil & _)]; done.
  - destruct (dd_get_spec d dep) as (Hs & Hv & He & Hn).
    destruct (dd_get d dep) as [s d1]; simpl in *. subst s.
    destruct (IH (acc ∪ dd_value d dep) d1) as (Hx & Hv' & He' & Hn').
    split; [|split; [|split]].
    + intros x. rewrite Hx. rewrite elem_of_union. split.
      * intros [[?|?]|(dep' & Hd & Hin)]; [by left|right..].
        -- exists dep. split; [by apply elem_of_cons; left|done].
        -- exists dep'. split; [by apply elem_of_cons; right|by rewrite <- Hv].
      * intros [?|(dep' & [->|Hd]%elem_of_cons & Hin)]; [by left; left|by left; right|].
        right. exists dep'. by rewrite Hv.
    + intros k. by rewrite Hv'.
    + intros k s [?|?]%He'; [|by right]. by apply He.
    + intros ?. by apply Hn', Hn.
Qed.

Lemma check_parameter_spec (ps : odict Param) st name p :
  let st' := check_parameter isinstance_Parameter get_revdeps ps st (name, p) in
  (NoDup (od_keys st.1) → NoDup (od_keys st'.1))
  ∧ (∀ k, k ≠ name → dd_value st'.1 k = dd_value st.1 k)
  ∧ (isinstance_Parameter p = true → ∀ x, x ∈ get_revdeps p ps →
       x ∈ dd_value st'.1 name ∧ dd_value st.1 x ⊆ dd_value st'.1 name)
  ∧ (∀ k s y, (k, s) ∈ st'.1 → y ∈ s →
       (k, s) ∈ st.1
       ∨ (k = name ∧ isinstance_Parameter p = true
          ∧ (y ∈ get_revdeps p ps
             ∨ ∃ dep, dep ∈ get_revdeps p ps ∧ y ∈ dd_value st.1 dep))).
Proof.
  destruct st as [deep deps]. unfold check_parameter.
  destruct (isinstance_Parameter p) eqn:Hp; simpl;
    [|split; [done|split; [done|split; [done|by left]]]].
  destruct (get_revdeps p ps) as [|dep0 rest] eqn:Hrev;
    [split; [done|split; [done|split; [by intros _ x ?%elem_of_nil|by left]]]|].
  cbv beta iota. rewrite <- Hrev.
  pose proof (union_of_revdeps_spec (get_revdeps p ps) ∅ deep) as Hu.
  unfold union_of_revdeps.
  destruct (foldl _ (∅, deep) (get_revdeps p ps)) as [u d1] eqn:Hfold.
  simpl in Hu. destruct Hu as (Hx & Hv & He & Hn).
  assert (dd_get (od_set d1 name u) name = (u, od_set d1 name u)) as ->.
  { unfold dd_get. rewrite od_get_set. by rewrite decide_True. }
  simpl. split; [|split; [|split]].
  - intros Hd. by apply od_set_NoDup, od_set_NoDup, Hn.
  - intros k Hk. rewrite !dd_value_set. by rewrite !decide_False by done.
  - intros _ x Hin. rewrite dd_value_set, decide_True by done. split.
    + apply elem_of_union; right. by rewrite elem_of_list_to_set.
    + intros y Hy. apply elem_of_union; left. apply Hx. right. eauto.
  - intros k s y Hks Hy.
    apply od_set_elem in Hks as [?|Hks]; [simplify_eq|].
    { right. split; [done|]. split; [done|].
      apply elem_of_union in Hy as [Hy|Hy].
      - right. apply Hx in Hy as [Hy|?]; [by apply elem_of_empty in Hy|done].
      - left. by rewrite elem_of_list_to_set in Hy. }
    apply od_set_elem in Hks as [?|Hks]; [simplify_eq|].
    { right. split; [done|]. split; [done|].
      right. apply Hx in Hy as [Hy|?]; [by apply elem_of_empty in Hy|done]. }
    apply He in Hks as [?| ->]; [by left|]. by apply elem_of_empty in Hy.
Qed.

Lemma check_loop_stable (ps : odict Param) X : ∀ l st,
  X ∉ l.*1 → dd_value (foldl (check_step ps) st l).1 X = dd_value st.1 X.
Proof.
  induction l as [|[name p] l IH]; intros st HX; simpl; [done|].
  rewrite fmap_cons, not_elem_of_cons in HX. destruct HX as [Hne HX].
  rewrite IH by done.
  destruct (check_parameter_spec ps st name p) as (_ & Hk & _). by apply Hk.
Qed.

Lemma check_loop_NoDup (ps : odict Param) : ∀ l st,
  NoDup (od_keys st.1) → NoDup (od_keys (foldl (check_step ps) st l).1).
Proof.
  induction l as [|[name p] l IH]; intros st Hst; simpl; [done|].
  apply IH. destruct (check_parameter_spec ps st name p) as (Hn & _). by apply Hn.
Qed.

(** Whatever the loop has accumulated for a name is reachable from it. *)
Lemma check_loop_sound (ps : odict Param) : ∀ l st,
  (∀ item, item ∈ l → item ∈ ps) →
  (∀ k s y, (k, s) ∈ st.1 → y ∈ s → tc (revdep ps) k y) →
  ∀ k s y, (k, s) ∈ (foldl (check_step ps) st l).1 → y ∈ s → tc (revdep ps) k y.
Proof.
  induction l as [|[name p] l IH]; intros st Hl Hst; simpl; [done|].
  apply IH; [intros item Hi; apply Hl; by apply elem_of_cons; right|].
  intros k s y Hks Hy.
  destruct (check_parameter_spec ps st name p) as (_ & _ & _ & He).
  destruct (He k s y Hks Hy) as [?|(-> & Hp & Hcase)]; [by eapply Hst|].
  assert ((name, p) ∈ ps) as Hin by (apply Hl; by apply elem_of_cons; left).
  destruct Hcase as [Hy'|(dep & Hdep & Hy')].
  - apply tc_once. by exists p.
  - eapply tc_l; [by exists p|].
    unfold dd_value in Hy'.
    destruct (od_get st.1 dep) as [s'|] eqn:Hget; simpl in Hy';
      [|by apply elem_of_empty in Hy'].
    eapply Hst; [by apply od_get_elem|done].
Qed.

Lemma cyclic_names_elem deep name :
  name ∈ dd_value deep name → name ∈ cyclic_names deep.
Proof.
  unfold dd_value, cyclic_names. intros H.
  destruct (od_get deep name) as [s|] eqn:Hget; simpl in H;
    [|by apply elem_of_empty in H].
  apply list_elem_of_fmap. exists (name, s). split; [done|].
  apply list_elem_of_filter. split; [done|]. by apply od_get_elem.
Qed.

Lemma cyclic_names_inv deep name :
  name ∈ cyclic_names deep → ∃ s, (name, s) ∈ deep ∧ name ∈ s.
Proof.
  unfold cyclic_names. intros ([k s] & -> & [H1 H2]%list_elem_of_filter)%list_elem_of_fmap.
  by exists s.
Qed.

Lemma cyclic_names_NoDup deep :
  NoDup (od_keys deep) → NoDup (cyclic_names deep).
Proof.
  intros H. eapply sublist_NoDup; [exact H|].
  unfold cyclic_names, od_keys. apply fmap_sublist, sublist_filter.
Qed.

(** A name whose accumulated set came to contain the name itself. *)
Lemma mutual_dependency_detected (ps : odict Param) i j A B pA pB :
  NoDup (od_keys ps) → (i ≤ j)%nat →
  ps !! i = Some (A, pA) → ps !! j = Some (B, pB) →
  isinstance_Parameter pA = true → isinstance_Parameter pB = true →
  B ∈ get_revdeps pA ps → A ∈ get_revdeps pB ps →
  B ∈ dd_value (foldl (check_step ps) ([], []) ps).1 B.
Proof.
  intros Hnd Hij Hi Hj HpA HpB HB HA.
  pose proof (take_drop_middle ps j (B, pB) Hj) as Hsplit.
  assert (NoDup ((take j ps).*1 ++ B :: (drop (S j) ps).*1)) as Hnd'.
  { unfold od_keys in Hnd. rewrite <- Hsplit in Hnd.
    by rewrite fmap_app, fmap_cons in Hnd. }
  apply NoDup_app in Hnd' as (_ & Hdisj & [HB3 _]%NoDup_cons).
  set (step := check_step ps) in *.
  assert (B ∈ dd_value (step (foldl step ([], []) (take j ps)) (B, pB)).1 B)
    as Hat.
  { destruct (decide (i = j)) as [->|Hne].
    - rewrite Hj in Hi. injection Hi as <- <-.
      destruct (check_parameter_spec ps (foldl step ([], []) (take j ps)) B pB)
        as (_ & _ & Hself & _).
      by destruct (Hself HpB B HB).
    - assert (i < j)%nat as Hlt by lia.
      assert (take j ps !! i = Some (A, pA)) as Hi'
        by by rewrite lookup_take_lt.
      pose proof (take_drop_middle _ i (A, pA) Hi') as Hsplit2.
      assert (A ∉ (drop (S i) (take j ps)).*1 ) as HA2.
      { assert (NoDup (take j ps).*1) as Hnd2.
        { unfold od_keys in Hnd. rewrite <- Hsplit in Hnd.
          rewrite fmap_app in Hnd. by apply NoDup_app in Hnd as (? & _). }
        rewrite <- Hsplit2 in Hnd2. rewrite fmap_app, fmap_cons in Hnd2.
        by apply NoDup_app in Hnd2 as (_ & _ & [? _]%NoDup_cons). }
      rewrite <- Hsplit2. rewrite foldl_app. simpl.
      set (st0 := foldl step ([], []) (take i (take j ps))).
      destruct (check_parameter_spec ps st0 A pA) as (_ & _ & HselfA & _).
      destruct (HselfA HpA B HB) as [HBA _].
      fold step in HBA.
      rewrite <- (check_loop_stable ps A (drop (S i) (take j ps)) _ HA2) in HBA.
      fold step in HBA.
      set (st1 := foldl step (step st0 (A, pA)) (drop (S i) (take j ps))) in *.
      destruct (check_parameter_spec ps st1 B pB) as (_ & _ & HselfB & _).
      destruct (HselfB HpB A HA) as [_ Hsub]. by apply Hsub. }
  replace (foldl step ([], []) ps)
    with (foldl step ([], []) (take j ps ++ (B, pB) :: drop (S j) ps))
    by by rewrite Hsplit.
  rewrite foldl_app. simpl. unfold step.
  by rewrite (check_loop_stable ps B).
Qed.

Lemma merged_NoDup {V} (get : FactoryOptions → odict V)
    (parents : list (@FactoryOptions Param DeclarationSet)) : ∀ acc,
  NoDup (od_keys acc) →
  NoDup (od_keys (foldl (λ acc parent, od_update acc (get parent)) acc parents)).
Proof.
  induction parents as [|p parents IH]; intros acc Hacc; simpl; [done|].
  by apply IH, od_update_NoDup.
Qed.

Lemma own_parameters_NoDup params (acc : odict Param) :
  NoDup (od_keys acc) → NoDup (od_keys (own_parameters wrap sort_ordered_objects params acc)).
Proof.
  unfold own_parameters. generalize (sort_ordered_objects params). intros l.
  revert acc. induction l as [|[k v] l IH]; intros acc Hacc; simpl; [done|].
  apply IH. destruct (String.prefix "_" k); [done|]. by apply od_set_NoDup.
Qed.

Lemma until_check_parameters oc cs self mro body base_meta base col :
  contribute_until_check oc cs self mro body base_meta base = Return col →
  NoDup (od_keys (col_parameters col)).
Proof.
  unfold contribute_to_class_until_check. intros H.
  apply outcome_bind_inv in H as (opts & Hopts & H).
  apply outcome_bind_inv in H as (ref & Href & H).
  apply outcome_bind_inv in H as (parents & Hparents & H).
  apply outcome_bind_inv in H as (decls & Hdecls & H).
  simplify_eq/=.
  assert (NoDup (od_keys (foldl (λ acc parent, od_update acc (parameters parent))
                                [] parents))) as Hm.
  { apply (merged_NoDup parameters). apply NoDup_nil_2. }
  destruct (body_Params body); [by apply own_parameters_NoDup|done].
Qed.

Lemma check_dependencies_raises factory_repr (ps : odict Param) B :
  NoDup (od_keys ps) →
  B ∈ dd_value (foldl (check_step ps) ([], []) ps).1 B →
  ∃ cyclic,
    check_dependencies factory_repr ps
    = Raise (CyclicDefinitionError (cyclic_message factory_repr cyclic))
    ∧ NoDup cyclic ∧ B ∈ cyclic.
Proof.
  intros Hnd HB. unfold _check_parameter_dependencies.
  pose proof (check_loop_NoDup ps ps ([], []) (NoDup_nil_2)) as Hkeys.
  destruct (foldl (check_step ps) ([], []) ps) as [deep deps]; simpl in *.
  apply cyclic_names_elem in HB.
  exists (cyclic_names deep).
  split; [|split; [by apply cyclic_names_NoDup|done]].
  destruct (cyclic_names deep); [by apply elem_of_nil in HB|done].
Qed.

(** C3 (as amended).  When [A] declares [B] and [B] declares [A] among
    their reverse-dependencies, [_check_parameter_dependencies] raises
    [CyclicDefinitionError]; its message names the definition and a list of
    parameter names without duplicates that contains whichever of the two
    comes later in the mapping.  For an acyclic mapping it returns.  So a
    class statement whose merged parameter mapping holds such a pair fails
    to register, with that error, as soon as [contribute_to_class] reaches
    the check. *)
Theorem cyclic_parameters_rejected factory_repr (ps : odict Param) :
  NoDup (od_keys ps) →
  (∀ i j A B pA pB,
     (i ≤ j)%nat → ps !! i = Some (A, pA) → ps !! j = Some (B, pB) →
     isinstance_Parameter pA = true → isinstance_Parameter pB = true →
     B ∈ get_revdeps pA ps → A ∈ get_revdeps pB ps →
     (∃ cyclic,
        check_dependencies factory_repr ps
        = Raise (CyclicDefinitionError (cyclic_message factory_repr cyclic))
        ∧ NoDup cyclic ∧ B ∈ cyclic)
     ∧ ∀ oc cs self mro body base_meta base col,
         contribute_until_check oc cs self mro body base_meta base = Return col →
         col_parameters col = ps →
         ∃ cyclic,
           contribute oc cs self mro body base_meta base
           = Raise (CyclicDefinitionError
                      (cyclic_message (repr_body body) cyclic))
           ∧ NoDup cyclic ∧ B ∈ cyclic)
  ∧ ((∀ x, ¬ tc (revdep ps) x x) →
     ∃ deps, check_dependencies factory_repr ps = Return deps).
Proof.
  intros Hnd. split.
  - intros i j A B pA pB Hij Hi Hj HpA HpB HB HA.
    assert (B ∈ dd_value (foldl (check_step ps) ([], []) ps).1 B) as Hself
      by by eapply mutual_dependency_detected.
    split; [by apply check_dependencies_raises|].
    intros oc cs self mro body base_meta base col Hcol <-.
    destruct (check_dependencies_raises (repr_body body) _ B Hnd Hself)
      as (cyclic & Hraise & Hcyc).
    exists cyclic. split; [|done].
    unfold contribute_to_class. rewrite Hcol. simpl. by rewrite Hraise.
  - intros Hacyclic. unfold _check_parameter_dependencies.
    pose proof (check_loop_sound ps ps ([], []) ltac:(done)) as Hsound.
    destruct (foldl (check_step ps) ([], []) ps) as [deep deps]; simpl in *.
    destruct (cyclic_names deep) as [|name rest] eqn:Hc; [eauto|].
    exfalso.
    assert (name ∈ cyclic_names deep) as Hin
      by (rewrite Hc; by apply elem_of_cons; left).
    apply cyclic_names_inv in Hin as (s & Hs & Hself).
    apply (Hacyclic name). eapply Hsound; [|done..].
    by intros k s' y ?%elem_of_nil.
Qed.

(** *** Field selection *)

Lemma inherited_fold (nearest_first : list (@FactoryOptions Param DeclarationSet))
    (x : string) : ∀ start : gset string,
  x ∈ foldl (λ (names : gset string) parent,
               (names ∪ list_to_set (include_auto_fields parent))
                 ∖ list_to_set (exclude_auto_fields parent))
            start (reverse nearest_first)
  ↔ inherited_decision nearest_first x (bool_decide (x ∈ start)) = true.
Proof.
  induction nearest_first as [|p l IH]; intros start; simpl.
  - by rewrite bool_decide_eq_true.
  - rewrite reverse_cons, foldl_app. simpl.
    rewrite elem_of_difference, elem_of_union, !elem_of_list_to_set, IH.
    destruct (decide (x ∈ exclude_auto_fields p)) as [He|He];
      [split; [by intros [_ ?]|done]|].
    destruct (decide (x ∈ include_auto_fields p)) as [Hi|Hi]; [|tauto].
    split; [done|]. intros _. split; [by right|done].
Qed.

(** C7 (as amended).  A name is a candidate exactly when it is neither
    declared nor excluded by the definition itself and either the
    definition includes it or its ancestors hand it down, where the nearest
    ancestor mentioning the name decides (its exclusion beating its own
    inclusion) and the introspector's default set, when enabled, decides
    for names no ancestor mentions.  An inclusion by a nearer ancestor
    therefore overrides an exclusion by a farther one. *)
Theorem candidate_field_names_nearest (self_default_auto_fields : bool)
    (default_names : list string)
    (nearest_first : list (@FactoryOptions Param DeclarationSet))
    (self_include self_exclude declared : list string) (x : string) :
  x ∈ candidate_field_names self_default_auto_fields default_names
        (reverse nearest_first) self_include self_exclude declared
  ↔ (x ∉ declared) ∧ (x ∉ self_exclude)
    ∧ (x ∈ self_include
       ∨ inherited_decision nearest_first x
           (self_default_auto_fields && bool_decide (x ∈ default_names)) = true).
Proof.
  unfold candidate_field_names.
  rewrite elem_of_difference, !elem_of_union, !elem_of_list_to_set, inherited_fold.
  assert (bool_decide
            (x ∈ (if self_default_auto_fields
                  then (∅ : gset string) ∪ list_to_set default_names
                  else ∅))
          = self_default_auto_fields && bool_decide (x ∈ default_names)) as ->.
  { destruct self_default_auto_fields; simpl.
    - apply bool_decide_ext. rewrite elem_of_union, elem_of_list_to_set.
      rewrite elem_of_empty. tauto.
    - apply bool_decide_eq_false. apply not_elem_of_empty. }
  tauto.
Qed.

(** *** The argument pipeline *)

Lemma remove_hidden_lookup meta (kw : kwargs) k v :
  remove_hidden meta kw !! k = Some v ↔ kw !! k = Some v ∧ ¬ hidden meta k v.
Proof.
  unfold remove_hidden, hidden. rewrite map_lookup_filter_Some. simpl. tauto.
Qed.

Lemma rename_fields_spec renames : ∀ kw kw' : kwargs,
  rename_fields renames kw = Return kw' ↔ renamed_by renames kw kw'.
Proof.
  induction renames as [|[old_name new_name] rest IH]; intros kw kw'; simpl.
  - split; [intros [= ->]; constructor|by inversion 1].
  - unfold pop. destruct (kw !! old_name) as [v|] eqn:Hold; simpl.
    + rewrite IH. split; [by econstructor|].
      inversion 1; by simplify_eq.
    + split; [done|]. inversion 1; by simplify_eq.
Qed.

Lemma extract_inline_args_inv names : ∀ (kw : kwargs) args kw',
  extract_inline_args names kw = Return (args, kw') →
  NoDup names
  ∧ Forall2 (λ name v, kw !! name = Some v) names args
  ∧ (∀ k, kw' !! k = if decide (k ∈ names) then None else kw !! k).
Proof.
  induction names as [|name rest IH]; intros kw args kw'; simpl.
  - intros [= <- <-]. split; [constructor|]. split; [constructor|done].
  - unfold pop. destruct (kw !! name) as [v|] eqn:Hname; simpl; [|done].
    destruct (extract_inline_args rest (delete name kw)) as [[args0 kw0]|]
      eqn:Hrest; simpl; [|done].
    intros [= <- <-].
    destruct (IH _ _ _ Hrest) as (Hnd & Hall & Hkw).
    assert (name ∉ rest) as Hfresh.
    { intros Hin. apply list_elem_of_lookup in Hin as [i Hi].
      destruct (Forall2_lookup_l _ _ _ _ _ Hall Hi) as (v' & _ & Hv').
      by rewrite lookup_delete_eq in Hv'. }
    split; [by constructor|]. split.
    + constructor; [done|].
      eapply Forall2_impl; [exact Hall|].
      intros n' v' Hv'. by apply lookup_delete_Some in Hv' as [_ ?].
    + intros k. rewrite Hkw.
      destruct (decide (k = name)) as [->|Hne].
      * rewrite decide_False by done. rewrite lookup_delete_eq.
        by rewrite decide_True by (by apply elem_of_cons; left).
      * rewrite lookup_delete_ne by done.
        destruct (decide (k ∈ rest)).
        -- by rewrite decide_True by (by apply elem_of_cons; right).
        -- rewrite decide_False; [done|]. by intros [?|?]%elem_of_cons.
Qed.

Lemma Forall2_lookup_delete name rest args (kw : kwargs) :
  name ∉ rest →
  Forall2 (λ n v, kw !! n = Some v) rest args →
  Forall2 (λ n v, delete name kw !! n = Some v) rest args.
Proof.
  intros Hfresh Hall. induction Hall as [|n v rest args Hn Hall IH].
  - constructor.
  - apply not_elem_of_cons in Hfresh as [Hne Hfresh].
    constructor; [|by apply IH].
    apply lookup_delete_Some. split; [done|done].
Qed.

Lemma extract_inline_args_total names : ∀ (kw : kwargs) args,
  NoDup names → Forall2 (λ name v, kw !! name = Some v) names args →
  ∃ kw', extract_inline_args names kw = Return (args, kw').
Proof.
  induction names as [|name rest IH]; intros kw args Hnd Hall.
  - apply Forall2_nil_inv_l in Hall as ->. by eexists.
  - apply Forall2_cons_inv_l in Hall as (v & args0 & Hv & Hall & ->).
    apply NoDup_cons in Hnd as [Hfresh Hnd].
    destruct (IH (delete name kw) args0 Hnd) as [kw0 Hrun].
    { by apply Forall2_lookup_delete. }
    exists kw0. simpl. unfold pop. rewrite Hv. simpl. by rewrite Hrun.
Qed.

Lemma prepare_arguments_prepared (cls : @Factory Param DeclarationSet)
    (attributes : kwargs) (args : list value) (kw : kwargs) :
  prepare_arguments cls attributes = Return (args, kw) →
  prepared_by_steps cls attributes args kw.
Proof.
  unfold prepare_arguments, prepared_by_steps.
  intros H. apply outcome_bind_inv in H as (renamed & Hren & Hext).
  apply extract_inline_args_inv in Hext as (Hnd & Hall & Hkw).
  exists (remove_hidden (_meta cls) (_adjust_kwargs cls attributes)), renamed.
  split; [intros k v; apply remove_hidden_lookup|].
  split; [by apply rename_fields_spec|]. done.
Qed.

(** C8.  [prepare_arguments] returns [(args, kwargs)] exactly when the pair
    is what these steps give, in this order: the [_adjust_kwargs] hook on
    the full mapping; removal of every entry whose name is excluded or is a
    parameter name, or whose value is [SKIP]; the rename map, pair by pair;
    extraction of the inline names, in their declared order, into [args];
    and every other entry unchanged in [kwargs]. *)
Theorem prepare_arguments_steps (cls : @Factory Param DeclarationSet)
    (attributes : kwargs) (args : list value) (kw : kwargs) :
  prepare_arguments cls attributes = Return (args, kw)
  ↔ prepared_by_steps cls attributes args kw.
Proof.
  split; [apply prepare_arguments_prepared|].
  unfold prepare_arguments, prepared_by_steps.
  intros (visible & renamed & Hvis & Hren & Hnd & Hall & Hkw).
  assert (visible = remove_hidden (_meta cls) (_adjust_kwargs cls attributes))
    as ->.
  { apply map_eq. intros k. apply option_eq. intros v.
    rewrite Hvis. symmetry. apply remove_hidden_lookup. }
  apply rename_fields_spec in Hren. rewrite Hren. simpl.
  destruct (extract_inline_args_total _ renamed args Hnd Hall) as [kw0 Hrun].
  rewrite Hrun. f_equal. f_equal.
  apply extract_inline_args_inv in Hrun as (_ & _ & Hkw0).
  apply map_eq. intros k. by rewrite Hkw, Hkw0.
Qed.

Lemma StubObject_attrs (kw : kwargs) : StubObject kw = Stub kw.
Proof.
  unfold StubObject. f_equal.
  apply (map_fold_weak_ind (λ (r m : kwargs), r = m) setattr ∅); [done|].
  intros k v m r _ ->. done.
Qed.

(** C10.  Under the stub strategy [instantiate] returns the container built
    from the keyword mapping alone, whatever the positional tuple is; every
    inline-positional name was popped out of that mapping by
    [prepare_arguments], so the stub object has no attribute of that
    name. *)
Theorem stub_discards_inline_args (cls : @Factory Param DeclarationSet)
    (attributes : kwargs) (args : list value) (kw : kwargs) :
  prepare_arguments cls attributes = Return (args, kw) →
  instantiate cls STUB_STRATEGY args kw = Return (Stub kw)
  ∧ (∀ args', instantiate cls STUB_STRATEGY args' kw = Return (Stub kw))
  ∧ (∀ name, name ∈ inline_args (_meta cls) → kw !! name = None).
Proof.
  intros H.
  assert (∀ args', instantiate cls STUB_STRATEGY args' kw = Return (Stub kw))
    as Hstub.
  { intros args'. unfold instantiate. simpl. by rewrite StubObject_attrs. }
  apply prepare_arguments_prepared in H
    as (visible & renamed & _ & _ & _ & Hall & Hkw).
  assert (∀ name, name ∈ inline_args (_meta cls) → kw !! name = None) as Habs.
  { intros name Hin. by rewrite Hkw, decide_True. }
  split; [done|]. split; done.
Qed.

End Properties.

(** * The claims on concrete definitions *)

Import Examples.

Lemma base_store_wf : wf_store base_store.
Proof. apply new_class_wf, wf_empty. Qed.

Lemma three_factories_wf : wf_store three_factories.
Proof. repeat apply new_class_wf. apply wf_empty. Qed.

(** C1 on concrete definitions: [UserFactory] and [AdminFactory] draw 0, 1
    and 2 from one counter while [OrderFactory] uses its own and a refused
    reset changes nothing; a counter not yet used starts at 0; after
    [UserFactory.reset_sequence(7)], [AdminFactory] gets 7. *)
Lemma next_sequence_values_since_reset_witness :
  sequence_values three_factories 1%nat
    (run 2 [Next 1%nat; Next 2%nat; Next 3%nat;
            Reset 2%nat (Some 9) false; Next 2%nat] three_factories).1
  = [0; 1; 2]
  ∧ cursor three_factories 1%nat = 0
  ∧ ∃ σ2, next_sequence 2 2%nat
            (reset_sequence 2 1%nat (Some 7) false three_factories).2
          = (Return 7, σ2).
Proof.
  destruct (next_sequence_values_since_reset three_factories 2%nat
              three_factories_wf ltac:(lia)) as (Hruns & Hfresh & Hreset).
  split; [|split].
  - destruct (Hruns 1%nat
                [Next 1%nat; Next 2%nat; Next 3%nat;
                 Reset 2%nat (Some 9) false; Next 2%nat]) as [Hvalues _].
    + eexists; vm_compute; reflexivity.
    + vm_compute; reflexivity.
    + repeat constructor; eexists; vm_compute; reflexivity.
    + repeat constructor; simpl; try tauto.
      intros [_ [?|?]]; discriminate.
    + rewrite Hvalues. vm_compute; reflexivity.
  - eapply eq_trans; [eapply (Hfresh 1%nat)|]; vm_compute; reflexivity.
  - eapply (Hreset 1%nat 2%nat 7 false).
    + eexists; vm_compute; reflexivity.
    + eexists; vm_compute; reflexivity.
    + vm_compute; reflexivity.
    + vm_compute; reflexivity.
Defined.

(** C1 as stated fails: after a reset the counter hands out a value that
    is not greater than one it returned before. *)
Lemma next_sequence_not_monotone_across_reset :
  sequence_values three_factories 1%nat
    (run 2 [Next 1%nat; Next 1%nat; Reset 1%nat (Some 0) false; Next 1%nat]
       three_factories).1
  = [0; 1; 0]
  ∧ ¬ strictly_increasing
        (sequence_values three_factories 1%nat
           (run 2 [Next 1%nat; Next 1%nat; Reset 1%nat (Some 0) false; Next 1%nat]
              three_factories).1).
Proof.
  assert (sequence_values three_factories 1%nat
            (run 2 [Next 1%nat; Next 1%nat; Reset 1%nat (Some 0) false; Next 1%nat]
               three_factories).1 = [0; 1; 0]) as E by (vm_compute; reflexivity).
  split; [done|]. rewrite E. intros H.
  specialize (H 1%nat 2%nat 1 0 ltac:(lia) eq_refl eq_refl). lia.
Qed.

(** C2 as stated fails: [PremiumUserFactory] has the very model of its
    base [UserFactory], not a proper subtype, and still takes the base's
    counter reference instead of being its own. *)
Lemma equal_model_shares_counter :
  ∃ σ' cls base,
    new_class premium_body three_factories = (Return 4%nat, σ')
    ∧ classes σ' !! 4%nat = Some cls
    ∧ classes three_factories !! 1%nat = Some base
    ∧ model (_meta cls) = Some User ∧ model (_meta base) = Some User
    ∧ counter_reference (_meta cls) = counter_reference (_meta base)
    ∧ counter_reference (_meta cls) ≠ 4%nat.
Proof.
  eexists _, _, _.
  split; [vm_compute; reflexivity|]. split; [vm_compute; reflexivity|].
  split; [vm_compute; reflexivity|]. split; [vm_compute; reflexivity|].
  split; [vm_compute; reflexivity|]. split; [vm_compute; reflexivity|].
  vm_compute. discriminate.
Qed.

(** C2 on concrete definitions: [PremiumUserFactory] and its base
    [UserFactory] both have the model [User], and the new definition takes
    over the counter reference of its base. *)
Lemma counter_reference_rule_witness :
  ∃ σ' cls base,
    new_class premium_body three_factories = (Return 4%nat, σ')
    ∧ classes σ' !! 4%nat = Some cls
    ∧ classes three_factories !! 1%nat = Some base
    ∧ counter_reference (_meta cls) = counter_reference (_meta base)
    ∧ counter_reference (_meta cls) ≠ 4%nat.
Proof.
  eexists _, _, _.
  split; [vm_compute; reflexivity|]. split; [vm_compute; reflexivity|].
  split; [vm_compute; reflexivity|].
  destruct (counter_reference_rule id id (λ _, true) trait_revdeps
              partition_declarations premium_body three_factories
              three_factories_wf) as [Hregistered _].
  edestruct (Hregistered 4%nat) as (Hshare & _).
  - vm_compute; reflexivity.
  - vm_compute; reflexivity.
  - eapply (Hshare 1%nat _ User User).
    + vm_compute; reflexivity.
    + vm_compute; reflexivity.
    + vm_compute; reflexivity.
    + vm_compute; reflexivity.
    + left. reflexivity.
Defined.

(** The rule goes by class objects, not by names: a definition derived
    from [UserFactory] whose model is the other class called [User] owns
    its counter. *)
Lemma same_name_is_not_subclass :
  cls_name LegacyUser = cls_name User
  ∧ issubclass LegacyUser User = false
  ∧ ∃ σ' cls,
      new_class (plain_body "LegacyUserFactory" (Some 1%nat)
                   (Some (with_model LegacyUser))) three_factories
      = (Return 4%nat, σ')
      ∧ classes σ' !! 4%nat = Some cls
      ∧ model (_meta cls) = Some LegacyUser
      ∧ counter_reference (_meta cls) = 4%nat.
Proof.
  split; [reflexivity|]. split; [vm_compute; reflexivity|].
  eexists _, _.
  split; [vm_compute; reflexivity|]. split; [vm_compute; reflexivity|].
  split; vm_compute; reflexivity.
Qed.

(** A class made directly on [BaseFactory] cannot set a model. *)
Lemma model_on_BaseFactory_fails :
  new_class (plain_body "RootFactory" None (Some (with_model User))) empty_store
  = (Raise (AttributeError "'FactoryOptions' object has no attribute 'model'"),
     empty_store).
Proof. vm_compute; reflexivity. Qed.

Lemma diamond_acyclic x :
  ¬ tc (depends (λ _ : Trait, true) trait_revdeps diamond_traits) x x.
Proof.
  assert (∀ a b, depends (λ _ : Trait, true) trait_revdeps diamond_traits a b →
                 (diamond_rank b < diamond_rank a)%nat) as Hstep.
  { intros a b (p & Hin & _ & Hb). unfold diamond_traits, trait_revdeps in *.
    repeat (apply elem_of_cons in Hin as [Hin|Hin]; [simplify_eq; simpl in Hb|]);
      try (by apply elem_of_nil in Hin);
      repeat (apply elem_of_cons in Hb as [->|Hb]; [vm_compute; lia|]);
      by apply elem_of_nil in Hb. }
  assert (∀ a b, tc (depends (λ _ : Trait, true) trait_revdeps diamond_traits) a b →
                 (diamond_rank b < diamond_rank a)%nat) as Htc.
  { intros a b H. induction H as [a b H|a b c H _ IH].
    - by apply Hstep.
    - apply Hstep in H. lia. }
  intros H. apply Htc in H. lia.
Qed.

(** C3 on concrete parameters: on [a = Trait(b=...)], [b = Trait(a=...)]
    the check raises and names [b]; on the diamond it returns. *)
Lemma cyclic_parameters_rejected_witness :
  (∃ cyclic,
     _check_parameter_dependencies (λ _ : Trait, true) trait_revdeps
       "<class 'tests.TraitFactory'>" mutual_traits
     = Raise (CyclicDefinitionError
                (cyclic_message "<class 'tests.TraitFactory'>" cyclic))
     ∧ NoDup cyclic ∧ "b" ∈ cyclic)
  ∧ ∃ deps,
      _check_parameter_dependencies (λ _ : Trait, true) trait_revdeps
        "<class 'tests.TraitFactory'>" diamond_traits
      = Return deps.
Proof.
  split.
  - edestruct (cyclic_parameters_rejected (DeclarationSet:=odict attr)
                 id id (λ _ : Trait, true) trait_revdeps partition_declarations
                 "<class 'tests.TraitFactory'>" mutual_traits)
      as (Hmutual & _).
    + apply (bool_decide_unpack _). vm_compute. exact I.
    + edestruct (Hmutual 0%nat 1%nat "a" "b") as [Hcheck _];
        [| reflexivity | reflexivity | reflexivity | reflexivity | | | exact Hcheck].
      * lia.
      * apply (bool_decide_unpack _). vm_compute. exact I.
      * apply (bool_decide_unpack _). vm_compute. exact I.
  - edestruct (cyclic_parameters_rejected (DeclarationSet:=odict attr)
                 id id (λ _ : Trait, true) trait_revdeps partition_declarations
                 "<class 'tests.TraitFactory'>" diamond_traits)
      as (_ & Hacyclic).
    + apply (bool_decide_unpack _). vm_compute. exact I.
    + apply Hacyclic. apply diamond_acyclic.
Defined.

(** C3 as stated fails: registering a factory with [a = Trait(b=...)] and
    [b = Trait(a=...)] raises an error whose message names [b] only, and
    the names in a message are in accumulation order, not sorted. *)
Lemma cyclic_message_names_later_parameter_only :
  (new_class (with_params "TraitFactory" mutual_traits) base_store).1
  = Raise (CyclicDefinitionError
             (cyclic_message "<class 'tests.TraitFactory'>" ["b"]))
  ∧ cyclic_message "<class 'tests.TraitFactory'>" ["b"]
    = "Cyclic definition detected on <class 'tests.TraitFactory'>; Params around b"
  ∧ ("a" ∉ ["b"])
  ∧ (new_class (with_params "TraitFactory" self_traits) base_store).1
    = Raise (CyclicDefinitionError
               "Cyclic definition detected on <class 'tests.TraitFactory'>; Params around z, a").
Proof.
  split; [vm_compute; reflexivity|]. split; [vm_compute; reflexivity|].
  split; [|vm_compute; reflexivity].
  apply (bool_decide_unpack _). vm_compute. exact I.
Qed.

(** The check makes one pass over the mapping: a cycle through three
    parameters declared in the order of the cycle goes through it, and the
    factory registers. *)
Lemma cycle_of_three_registers :
  tc (depends (λ _ : Trait, true) trait_revdeps cycle_of_three) "a" "a"
  ∧ (new_class (with_params "TraitFactory" cycle_of_three) base_store).1
    = Return 1%nat.
Proof.
  split; [|vm_compute; reflexivity].
  assert (∀ x y, (x, {| declared_revdeps := [y] |}) ∈ cycle_of_three →
                 depends (λ _ : Trait, true) trait_revdeps cycle_of_three x y)
    as Hstep.
  { intros x y Hin. eexists. split; [exact Hin|]. split; [done|].
    simpl. by apply list_elem_of_singleton. }
  eapply tc_l; [apply (Hstep "a" "b")|eapply tc_l; [apply (Hstep "b" "c")|
    apply tc_once, (Hstep "c" "a")]];
    unfold cycle_of_three; repeat constructor.
Qed.

(** C4 on a concrete definition: [NoModelFactory] sets no model, so it is
    abstract and [build], [create] and [stub] are all refused. *)
Lemma abstract_guard_witness :
  ∃ σ' cls,
    new_class no_model_body base_store = (Return 1%nat, σ')
    ∧ classes σ' !! 1%nat = Some cls
    ∧ abstract (_meta cls) = true
    ∧ build resolve_and_instantiate 1%nat ∅ σ'
      = (Raise (FactoryError (abstract_error_message (__name__ cls))), σ')
    ∧ create resolve_and_instantiate 1%nat ∅ σ'
      = (Raise (FactoryError (abstract_error_message (__name__ cls))), σ')
    ∧ stub resolve_and_instantiate 1%nat ∅ σ'
      = (Raise (FactoryError (abstract_error_message (__name__ cls))), σ').
Proof.
  set (σ' := (new_class no_model_body base_store).2).
  set (cls := default pipeline_class (classes σ' !! 1%nat)).
  assert (new_class no_model_body base_store = (Return 1%nat, σ')) as Hnew
    by (vm_compute; reflexivity).
  assert (classes σ' !! 1%nat = Some cls) as Hcls by (vm_compute; reflexivity).
  assert (model (_meta cls) = None) as Hmodel by (vm_compute; reflexivity).
  assert (classmethod_create cls = BaseFactory_create) as Hcreate
    by (vm_compute; reflexivity).
  destruct (abstract_guard id id (λ _ : Trait, true) trait_revdeps
              partition_declarations resolve_and_instantiate
              no_model_body base_store 1%nat σ' cls ∅ Hnew Hcls Hmodel)
    as (Habs & Hbuild & Hcr & Hstub & _).
  rewrite Hcreate in Hcr.
  exists σ', cls. repeat split; assumption.
Defined.

(** [StubFactory] with its model removed: [build] is refused like [stub],
    and [create] is unsupported, as on every stub factory. *)
Lemma stub_factory_without_model :
  ∃ cls,
    classes stub_store !! 2%nat = Some cls
    ∧ model (_meta cls) = None
    ∧ (build resolve_and_instantiate 2%nat ∅ stub_store).1
      = Raise (FactoryError (abstract_error_message "NoModelStub"))
    ∧ (create resolve_and_instantiate 2%nat ∅ stub_store).1
      = Raise UnsupportedStrategy
    ∧ (create resolve_and_instantiate 1%nat ∅ stub_store).1
      = Raise UnsupportedStrategy
    ∧ (build resolve_and_instantiate 1%nat ∅ stub_store).1
      = Return (Stub ∅).
Proof.
  eexists. split; [vm_compute; reflexivity|].
  repeat split; vm_compute; reflexivity.
Qed.

(** C4 as stated fails: [stub] on a definition without a target type does
    not return a container, it raises the same error as [build]. *)
Lemma stub_without_model_raises :
  (new_class no_model_body base_store).1 = Return 1%nat
  ∧ (stub resolve_and_instantiate 1%nat ∅
       (new_class no_model_body base_store).2).1
    = Raise (FactoryError
               "Cannot generate instances of abstract factory NoModelFactory; Ensure NoModelFactory.Meta.model is set and NoModelFactory.Meta.abstract is either not set or False.").
Proof. split; vm_compute; reflexivity. Qed.

(** C5 on a concrete definition: [UserFactory] registers; so does
    [UserFactory] with [strategy = 'bogus'], and calling that one raises
    [UnknownStrategy]. *)
Lemma unknown_strategy_raised_on_call_witness :
  ∃ σ'' cls,
    new_class (with_strategy user_body "bogus") base_store = (Return 1%nat, σ'')
    ∧ classes σ'' !! 1%nat = Some cls
    ∧ strategy (_meta cls) = "bogus"
    ∧ FactoryMetaClass_call resolve_and_instantiate 1%nat ∅ σ''
      = (Raise (UnknownStrategy ("Unknown Meta.strategy: " +:+ "bogus")), σ'').
Proof.
  eapply (unknown_strategy_raised_on_call id id (λ _ : Trait, true) trait_revdeps
            partition_declarations resolve_and_instantiate
            user_body base_store 1%nat).
  - vm_compute; reflexivity.
  - discriminate.
  - discriminate.
  - discriminate.
Defined.

(** C5 as stated fails: a definition with an unrecognised strategy name
    registers without error; the error comes with the call. *)
Lemma unknown_strategy_registers :
  (new_class (with_strategy user_body "bogus") base_store).1 = Return 1%nat
  ∧ (FactoryMetaClass_call resolve_and_instantiate 1%nat ∅
       (new_class (with_strategy user_body "bogus") base_store).2).1
    = Raise (UnknownStrategy "Unknown Meta.strategy: bogus").
Proof. split; vm_compute; reflexivity. Qed.

(** C6 on concrete definitions: [AdminFactory.reset_sequence(5)] is refused
    with a message naming [UserFactory]; with [force=True] it goes through
    and the counter of [UserFactory] yields 5 next. *)
Lemma reset_sequence_ownership_witness :
  (reset_sequence 2 2%nat (Some 5) false three_factories).1
  = Raise (ValueError
             "Can't reset a sequence on descendant factory <class 'tests.AdminFactory'>; reset sequence on <class 'tests.UserFactory'> or use `force=True`.")
  ∧ (reset_sequence 2 2%nat (Some 5) true three_factories).1 = Return ()
  ∧ cursor (reset_sequence 2 2%nat (Some 5) true three_factories).2 1%nat = 5.
Proof.
  set (fcls := default pipeline_class (classes three_factories !! 2%nat)).
  set (rcls := default pipeline_class (classes three_factories !! 1%nat)).
  assert (classes three_factories !! 2%nat = Some fcls) as Hfcls
    by (vm_compute; reflexivity).
  assert (classes three_factories !! reference three_factories 2%nat = Some rcls)
    as Hrcls by (vm_compute; reflexivity).
  split; [|split].
  - destruct (reset_sequence_ownership three_factories 2%nat 2%nat (Some 5) false
                fcls rcls three_factories_wf Hfcls Hrcls ltac:(lia))
      as ([_ Hraise] & Hrepr & _).
    rewrite Hraise by (split; [vm_compute; discriminate|reflexivity]).
    rewrite !Hrepr. vm_compute; reflexivity.
  - edestruct (reset_sequence_ownership three_factories 2%nat 2%nat (Some 5) true)
      as (_ & _ & [_ Hreturn] & _).
    + apply three_factories_wf.
    + vm_compute; reflexivity.
    + vm_compute; reflexivity.
    + lia.
    + apply Hreturn. by right.
  - edestruct (reset_sequence_ownership three_factories 2%nat 2%nat (Some 5) true)
      as (_ & _ & _ & Hcursor).
    + apply three_factories_wf.
    + vm_compute; reflexivity.
    + vm_compute; reflexivity.
    + lia.
    + apply (Hcursor (or_intror eq_refl)).
Defined.

(** C7 as stated fails: [BaseFactory] excludes [int_req], the nearer
    [ChildFactory] includes it, and it is a candidate although the
    accumulated exclusions contain it. *)
Lemma nearer_inclusion_overrides_exclusion :
  "int_req" ∈ candidate_field_names true [] auto_parents
                ["char_blank_null"] ["int_blank_null"] []
  ∧ "int_req" ∉ claimed_field_names true [] auto_parents
                  ["char_blank_null"] ["int_blank_null"] [].
Proof.
  split; apply (bool_decide_unpack _); vm_compute; exact I.
Qed.

(** C9 on concrete definitions: [AdminFactory] ends up with the counter
    object of [UserFactory]. *)
Lemma initialize_counter_shared_witness :
  ∃ σ1 c,
    _initialize_counter 2 2%nat three_factories = (Return (), σ1)
    ∧ counter_of σ1 2%nat = Some c
    ∧ counter_of σ1 (reference three_factories 2%nat) = Some c
    ∧ (∀ g c', counter_of three_factories g = Some c' → counter_of σ1 g = Some c')
    ∧ _initialize_counter 2 2%nat σ1 = (Return (), σ1)
    ∧ (∀ g, registered three_factories g →
         reference three_factories g = reference three_factories 2%nat →
         ∃ σ2 σ3 v, next_sequence 2 2%nat σ1 = (Return v, σ2)
                    ∧ next_sequence 2 g σ2 = (Return (v + 1), σ3)).
Proof.
  apply (initialize_counter_shared three_factories 2%nat 2%nat).
  - apply three_factories_wf.
  - eexists; vm_compute; reflexivity.
  - lia.
Defined.

(** C10 on a concrete definition: [PipelineFactory] passes [name] inline,
    and the stub has no [name]. *)
Lemma stub_discards_inline_args_witness :
  classes pipeline_store !! 1%nat = Some pipeline_class
  ∧ prepare_arguments pipeline_class pipeline_attributes
    = Return ([PyStr "n"], pipeline_kwargs)
  ∧ instantiate pipeline_class STUB_STRATEGY [PyStr "n"] pipeline_kwargs
    = Return (Stub pipeline_kwargs)
  ∧ pipeline_kwargs !! "name" = None.
Proof.
  split; [vm_compute; reflexivity|].
  split; [vm_compute; reflexivity|].
  destruct (stub_discards_inline_args pipeline_class pipeline_attributes
              [PyStr "n"] pipeline_kwargs) as (Hstub & _ & Habsent).
  - vm_compute; reflexivity.
  - split; [exact Hstub|]. apply Habsent.
    apply (bool_decide_unpack _). vm_compute. exact I.
Defined.


(** * Further properties of the registry *)

Section Further.

Context {Param DeclarationSet RawParam : Type}.
Variable wrap : RawParam → Param.
Variable sort_ordered_objects : odict RawParam → odict RawParam.
Variable isinstance_Parameter : Param → bool.
Variable get_revdeps : Param → odict Param → list string.
Variable parse_declarations :
  odict attr → odict Param → outcome (DeclarationSet * DeclarationSet).
Variable StepBuilder_build :
  fid → kwargs → string → M (Param:=Param) (DeclarationSet:=DeclarationSet) pyobject.

Implicit Types (σ : @store Param DeclarationSet) (f g r : fid).
Implicit Types (cls : @Factory Param DeclarationSet).
Implicit Types (oc : OptionsClass).

#[local] Abbreviation contribute :=
  (contribute_to_class wrap sort_ordered_objects isinstance_Parameter
     get_revdeps parse_declarations).
#[local] Abbreviation contribute_until_check :=
  (contribute_to_class_until_check (DeclarationSet:=DeclarationSet)
     wrap sort_ordered_objects).
#[local] Abbreviation new_class :=
  (FactoryMetaClass_new wrap sort_ordered_objects isinstance_Parameter
     get_revdeps parse_declarations).
#[local] Abbreviation check_dependencies :=
  (_check_parameter_dependencies isinstance_Parameter get_revdeps).
#[local] Abbreviation check_step :=
  (check_parameter isinstance_Parameter get_revdeps).
#[local] Abbreviation revdep := (depends isinstance_Parameter get_revdeps).
#[local] Abbreviation is_reachable :=
  (reachable wrap sort_ordered_objects isinstance_Parameter get_revdeps
     parse_declarations).

(** ** Inversion of a class statement *)

Lemma fill_from_meta_inv factory_repr meta (base_meta : option (@FactoryOptions Param DeclarationSet)) opts :
  _fill_from_meta factory_repr meta base_meta = Return opts →
  opts =
    {| o_model := OptionDefault_apply None true meta_model model meta base_meta;
       o_abstract := OptionDefault_apply false false meta_abstract abstract meta base_meta;
       o_strategy :=
         OptionDefault_apply CREATE_STRATEGY true meta_strategy strategy meta base_meta;
       o_inline_args :=
         OptionDefault_apply [] true meta_inline_args inline_args meta base_meta;
       o_exclude := OptionDefault_apply [] true meta_exclude exclude meta base_meta;
       o_rename := OptionDefault_apply [] true meta_rename rename meta base_meta;
       o_introspector_class :=
         OptionDefault_apply None true meta_introspector_class introspector_class
           meta base_meta;
       o_default_auto_fields :=
         OptionDefault_apply false true meta_default_auto_fields default_auto_fields
           meta base_meta;
       o_include_auto_fields :=
         OptionDefault_apply [] false meta_include_auto_fields include_auto_fields
           meta base_meta;
       o_exclude_auto_fields :=
         OptionDefault_apply [] false meta_exclude_auto_fields exclude_auto_fields
           meta base_meta |}.
Proof.
  unfold _fill_from_meta. intros H.
  destruct (match meta with None => [] | Some m => _ end); [|done].
  by injection H as <-.
Qed.

(** The class object a successful class statement creates. *)
Lemma new_class_inv body σ f σ' :
  new_class body σ = (Return f, σ') →
  ∃ cls,
    f = length (classes σ)
    ∧ classes σ' = (classes σ ++ [cls])%list ∧ counters σ' = counters σ
    ∧ __name__ cls = body_name body ∧ __module__ cls = body_module body
    ∧ match body_base body with
      | None =>
          mro_tail cls = []
          ∧ contribute FactoryOptions_class (classes σ) f [] body None None = Return (_meta cls)
      | Some b =>
          ∃ bcls, classes σ !! b = Some bcls
            ∧ mro_tail cls = b :: mro_tail bcls
            ∧ contribute (_options_class bcls) (classes σ) f (b :: mro_tail bcls) body
                (Some (_meta bcls)) (Some b) = Return (_meta cls)
      end.
Proof.
  unfold FactoryMetaClass_new. intros H.
  destruct (body_base body) as [b|] eqn:Hbase; simpl in *.
  - destruct (classes σ !! b) as [bcls|] eqn:Hb; simpl in *; [|done].
    destruct (contribute _ _ _ _ _ _ _) as [meta|e] eqn:Hc; [|done].
    injection H as <- <-. eexists. repeat split; [..|exists bcls]; done.
  - destruct (contribute _ _ _ _ _ _ _) as [meta|e] eqn:Hc; [|done].
    injection H as <- <-. eexists. repeat split; done.
Qed.

Lemma new_class_lookup body σ f σ' cls g :
  new_class body σ = (Return f, σ') →
  classes σ' = (classes σ ++ [cls])%list →
  classes σ' !! g = if decide (g = f) then Some cls else classes σ !! g.
Proof.
  intros H Hcls. apply new_class_inv in H as (_ & -> & _).
  by apply appended_lookup.
Qed.

Lemma appended_last {A} (l : list A) x : (l ++ [x])%list !! length l = Some x.
Proof. rewrite lookup_app_r; [|lia]. by rewrite Nat.sub_diag. Qed.

Lemma appended_before {A} (l : list A) x g y :
  l !! g = Some y → (l ++ [x])%list !! g = Some y.
Proof. intros H. by apply lookup_app_l_Some. Qed.

(** ** Batches and generation by name *)

Lemma repeat_call_length {A} (action : M (Param:=Param) (DeclarationSet:=DeclarationSet) A) n :
  ∀ σ l σ', repeat_call action n σ = (Return l, σ') → length l = n.
Proof.
  induction n as [|n IH]; intros σ l σ' H; simpl in H.
  - by injection H as <- <-.
  - unfold mbind, M_bind in H.
    destruct (action σ) as [[x|e] σ1]; [|done].
    destruct (repeat_call action n σ1) as [[xs|e] σ2] eqn:Hrest; [|done].
    injection H as <- <-. simpl. f_equal. by eapply IH.
Qed.

Lemma repeat_call_raises {A} (action : M (Param:=Param) (DeclarationSet:=DeclarationSet) A) n σ e :
  action σ = (Raise e, σ) → (0 < n)%nat →
  repeat_call action n σ = (Raise e, σ).
Proof.
  intros H Hn. destruct n as [|n]; [lia|]. simpl.
  unfold mbind, M_bind. by rewrite H.
Qed.

Lemma generate_batch_repeat f s size kw :
  s ∈ [STUB_STRATEGY; BUILD_STRATEGY; CREATE_STRATEGY] →
  generate_batch StepBuilder_build f s size kw
  = repeat_call (generate StepBuilder_build f s kw) (Z.to_nat size).
Proof.
  intros Hs. unfold generate_batch, generate.
  rewrite bool_decide_eq_true_2 by done.
  repeat (apply elem_of_cons in Hs as [->|Hs]); [done..|].
  by apply elem_of_nil in Hs.
Qed.

(** What a single generation raises on an abstract definition. *)
Lemma generate_abstract_error σ f cls s kw :
  classes σ !! f = Some cls →
  s ∈ [STUB_STRATEGY; BUILD_STRATEGY; CREATE_STRATEGY] →
  abstract (_meta cls) = true →
  generate StepBuilder_build f s kw σ
  = (Raise (if decide (s = CREATE_STRATEGY)
            then match classmethod_create cls with
                 | BaseFactory_create =>
                     FactoryError (abstract_error_message (__name__ cls))
                 | StubFactory_create => UnsupportedStrategy
                 end
            else FactoryError (abstract_error_message (__name__ cls))), σ).
Proof.
  intros Hcls Hs Habs. unfold generate.
  rewrite bool_decide_eq_true_2 by done.
  repeat (apply elem_of_cons in Hs as [->|Hs]);
    [..|by apply elem_of_nil in Hs]; simpl.
  - by apply generate_abstract.
  - rewrite (build_run _ _ _ _ _ Hcls). by apply generate_abstract.
  - rewrite (create_run _ _ _ _ _ Hcls).
    destruct (classmethod_create cls); [|done]. by apply generate_abstract.
Qed.

(** X1: a batch is [size] successive single generations, made through the
    [build], [create] or [stub] the class has: it returns exactly [size]
    objects when it returns, and nothing is generated for [size <= 0].  On
    an abstract definition it raises, as soon as one object is asked for,
    the abstract-factory error, or [UnsupportedStrategy] when the strategy
    is create and the class has [StubFactory.create]; the latter holds for
    such a class abstract or not. *)
Theorem generate_batch_outcomes σ f cls s size kw :
  classes σ !! f = Some cls →
  s ∈ [STUB_STRATEGY; BUILD_STRATEGY; CREATE_STRATEGY] →
  generate_batch StepBuilder_build f s size kw σ
    = repeat_call (generate StepBuilder_build f s kw) (Z.to_nat size) σ
  ∧ (∀ objs σ',
       generate_batch StepBuilder_build f s size kw σ = (Return objs, σ') →
       length objs = Z.to_nat size)
  ∧ (abstract (_meta cls) = true →
     generate_batch StepBuilder_build f s size kw σ
     = if decide (0 < size)
       then (Raise (if decide (s = CREATE_STRATEGY)
                    then match classmethod_create cls with
                         | BaseFactory_create =>
                             FactoryError (abstract_error_message (__name__ cls))
                         | StubFactory_create => UnsupportedStrategy
                         end
                    else FactoryError (abstract_error_message (__name__ cls))),
             σ)
       else (Return [], σ))
  ∧ (classmethod_create cls = StubFactory_create →
     generate_batch StepBuilder_build f CREATE_STRATEGY size kw σ
     = if decide (0 < size)
       then (Raise UnsupportedStrategy, σ)
       else (Return [], σ)).
Proof.
  intros Hcls Hs. rewrite generate_batch_repeat by done.
  split; [done|]. split; [|split].
  - intros objs σ' H. by eapply repeat_call_length.
  - intros Habs. destruct (decide (0 < size)) as [Hpos|Hneg].
    + apply repeat_call_raises; [|lia]. by apply generate_abstract_error.
    + replace (Z.to_nat size) with 0%nat by lia. done.
  - intros Hcreate. unfold generate_batch, create_batch. simpl.
    destruct (decide (0 < size)) as [Hpos|Hneg].
    + apply repeat_call_raises; [|lia].
      rewrite (create_run _ _ _ _ _ Hcls). by rewrite Hcreate.
    + replace (Z.to_nat size) with 0%nat by lia. done.
Qed.

(** X2: calling a definition is [generate] with the definition's own
    strategy when that strategy is one of the three known names; for any
    other name the call raises [UnknownStrategy] while [generate] and
    [generate_batch] fail their assertion, whatever the size. *)
Theorem call_is_generate_with_own_strategy σ f cls size kw :
  classes σ !! f = Some cls →
  if bool_decide (strategy (_meta cls)
                    ∈ [STUB_STRATEGY; BUILD_STRATEGY; CREATE_STRATEGY])
  then FactoryMetaClass_call StepBuilder_build f kw σ
       = generate StepBuilder_build f (strategy (_meta cls)) kw σ
  else FactoryMetaClass_call StepBuilder_build f kw σ
       = (Raise (UnknownStrategy ("Unknown Meta.strategy: " +:+ strategy (_meta cls))), σ)
       ∧ generate StepBuilder_build f (strategy (_meta cls)) kw σ
         = (Raise AssertionError, σ)
       ∧ generate_batch StepBuilder_build f (strategy (_meta cls)) size kw σ
         = (Raise AssertionError, σ).
Proof.
  intros Hcls. unfold FactoryMetaClass_call.
  rewrite (bind_run _ _ _ _ _ (get_class_run _ _ _ Hcls)).
  destruct (bool_decide _) eqn:Hknown.
  - apply bool_decide_eq_true in Hknown. unfold generate.
    rewrite bool_decide_eq_true_2 by done.
    repeat (apply elem_of_cons in Hknown as [E|Hknown]);
      [rewrite E; done..|by apply elem_of_nil in Hknown].
  - unfold generate, generate_batch. rewrite Hknown.
    apply bool_decide_eq_false in Hknown.
    repeat (destruct (decide _) as [E|_];
            [exfalso; apply Hknown; rewrite E; set_solver|]).
    done.
Qed.

(** ** What every reachable registry satisfies *)

Lemma same_definitions_class σ σ' g cls' :
  same_definitions σ σ' → classes σ' !! g = Some cls' →
  ∃ cls, classes σ !! g = Some cls ∧ forget_counter cls = forget_counter cls'.
Proof.
  intros Hsame Hg. pose proof (same_definitions_lookup _ _ g Hsame) as H.
  rewrite Hg in H. destruct (classes σ !! g) as [cls|]; [|done].
  exists cls. split; [done|]. simpl in H. congruence.
Qed.

Lemma forget_counter_fields cls cls' :
  forget_counter cls = forget_counter cls' →
  mro_tail cls = mro_tail cls'
  ∧ base_declarations (_meta cls) = base_declarations (_meta cls')
  ∧ parameters (_meta cls) = parameters (_meta cls')
  ∧ strategy (_meta cls) = strategy (_meta cls')
  ∧ abstract (_meta cls) = abstract (_meta cls')
  ∧ model (_meta cls) = model (_meta cls').
Proof.
  intros H.
  pose proof (f_equal mro_tail H) as H1.
  pose proof (f_equal (λ c, base_declarations (_meta c)) H) as H2.
  pose proof (f_equal (λ c, parameters (_meta c)) H) as H3.
  pose proof (f_equal (λ c, strategy (_meta c)) H) as H4.
  pose proof (f_equal (λ c, abstract (_meta c)) H) as H5.
  pose proof (f_equal (λ c, model (_meta c)) H) as H6.
  done.
Qed.

(** A registry whose dictionaries have distinct keys and whose ancestor
    lists name registered definitions only. *)
Lemma registry_shape_same σ σ' :
  same_definitions σ σ' →
  mro_closed σ ∧ (∀ f cls, classes σ !! f = Some cls →
                    NoDup (od_keys (base_declarations (_meta cls)))) →
  mro_closed σ' ∧ (∀ f cls, classes σ' !! f = Some cls →
                     NoDup (od_keys (base_declarations (_meta cls)))).
Proof.
  intros Hsame [Hmro Hnd]. split.
  - intros f cls' Hf.
    destruct (same_definitions_class _ _ _ _ Hsame Hf) as (cls & Hcls & Hfg).
    destruct (forget_counter_fields _ _ Hfg) as (<- & _).
    eapply Forall_impl; [by eapply Hmro|].
    intros g Hg. by apply (same_definitions_registered _ _ g Hsame).
  - intros f cls' Hf.
    destruct (same_definitions_class _ _ _ _ Hsame Hf) as (cls & Hcls & Hfg).
    destruct (forget_counter_fields _ _ Hfg) as (_ & <- & _).
    by eapply Hnd.
Qed.

Lemma own_declarations_NoDup attrs (acc : odict attr) :
  NoDup (od_keys acc) → NoDup (od_keys (own_declarations attrs acc)).
Proof.
  unfold own_declarations. revert acc.
  induction attrs as [|[k v] attrs IH]; intros acc Hacc; simpl; [done|].
  apply IH. destruct (_is_declaration k v); [by apply od_set_NoDup|done].
Qed.

Lemma merge_auto_declarations_NoDup ic names auto : ∀ (acc acc' : odict attr),
  merge_auto_declarations ic names auto acc = Return acc' →
  NoDup (od_keys acc) → NoDup (od_keys acc').
Proof.
  induction auto as [|[k v] auto IH]; intros acc acc' H Hacc; simpl in H.
  - by injection H as <-.
  - destruct (decide (k ∈ names)); [|done].
    eapply IH; [done|]. by apply od_set_NoDup.
Qed.

Lemma until_check_declarations oc cs self mro body base_meta base col :
  contribute_until_check oc cs self mro body base_meta base = Return col →
  NoDup (od_keys (col_base_declarations col)).
Proof.
  unfold contribute_to_class_until_check. intros H.
  apply outcome_bind_inv in H as (opts & Hopts & H).
  apply outcome_bind_inv in H as (ref & Href & H).
  apply outcome_bind_inv in H as (parents & Hparents & H).
  apply outcome_bind_inv in H as (decls & Hdecls & H).
  injection H as <-. cbn [col_base_declarations].
  assert (NoDup (od_keys (own_declarations (body_attrs body)
            (foldl (λ acc parent, od_update acc (base_declarations parent))
                   [] parents)))) as Hm.
  { apply own_declarations_NoDup, (merged_NoDup base_declarations).
    apply NoDup_nil_2. }
  destruct (negb _ && _).
  - apply outcome_bind_inv in Hdecls as (names & Hnames & Hdecls).
    apply outcome_bind_inv in Hdecls as (auto & Hauto & Hdecls).
    by eapply merge_auto_declarations_NoDup.
  - by injection Hdecls as <-.
Qed.

Lemma contribute_inv oc cs self mro body base_meta base meta :
  contribute oc cs self mro body base_meta base = Return meta →
  ∃ col pre post,
    contribute_until_check oc cs self mro body base_meta base = Return col
    ∧ meta =
      {| factory := self; base_factory := base;
         model := col_model col; abstract := col_abstract col;
         strategy := o_strategy (col_options col);
         inline_args := o_inline_args (col_options col);
         exclude := o_exclude (col_options col);
         rename := o_rename (col_options col);
         introspector_class := o_introspector_class (col_options col);
         default_auto_fields := o_default_auto_fields (col_options col);
         include_auto_fields := o_include_auto_fields (col_options col);
         exclude_auto_fields := o_exclude_auto_fields (col_options col);
         base_declarations := col_base_declarations col;
         parameters := col_parameters col;
         pre_declarations := pre; post_declarations := post;
         introspector := col_introspector col;
         _counter := None; counter_reference := col_counter_reference col |}.
Proof.
  unfold contribute_to_class. intros H.
  apply outcome_bind_inv in H as (col & Hcol & H).
  apply outcome_bind_inv in H as (deps & Hdeps & H).
  apply outcome_bind_inv in H as ([pre post] & Hparse & H).
  injection H as <-. by exists col, pre, post.
Qed.

Lemma registry_shape_class body σ :
  mro_closed σ ∧ (∀ f cls, classes σ !! f = Some cls →
                    NoDup (od_keys (base_declarations (_meta cls)))) →
  mro_closed (new_class body σ).2
  ∧ (∀ f cls, classes (new_class body σ).2 !! f = Some cls →
       NoDup (od_keys (base_declarations (_meta cls)))).
Proof.
  intros [Hmro Hnd].
  destruct (new_class body σ) as [[h|e] σ'] eqn:Hnew; cycle 1.
  { pose proof (new_class_spec wrap sort_ordered_objects isinstance_Parameter
                  get_revdeps parse_declarations body σ) as Hs.
    rewrite Hnew in Hs. simpl. by subst. }
  apply new_class_inv in Hnew
    as (new & -> & Hclasses & _ & _ & _ & Hbody). simpl.
  assert (∀ g, registered σ g → registered σ' g) as Hmono.
  { intros g [c Hg]. exists c. rewrite Hclasses. by apply lookup_app_l_Some. }
  split.
  - intros f cls Hf. rewrite Hclasses in Hf.
    apply lookup_app_Some in Hf as [Hf|[_ Hf]].
    + eapply Forall_impl; [by eapply Hmro|]. exact Hmono.
    + apply list_lookup_singleton_Some in Hf as [_ <-].
      destruct (body_base body) as [b|].
      * destruct Hbody as (bcls & Hbcls & -> & _).
        apply Forall_cons. split; [apply Hmono; by exists bcls|].
        eapply Forall_impl; [by eapply Hmro|]. exact Hmono.
      * destruct Hbody as [-> _]. done.
  - intros f cls Hf. rewrite Hclasses in Hf.
    apply lookup_app_Some in Hf as [Hf|[_ Hf]]; [by eapply Hnd|].
    apply list_lookup_singleton_Some in Hf as [_ <-].
    assert (∃ oc mro base_meta base,
              contribute oc (classes σ) (length (classes σ)) mro body base_meta base
              = Return (_meta new)) as (oc & mro & base_meta & base & Hc).
    { destruct (body_base body) as [b|].
      - destruct Hbody as (bcls & _ & _ & Hc). eauto.
      - destruct Hbody as [_ Hc]. eauto. }
    apply contribute_inv in Hc as (col & pre & post & Hcol & ->).
    cbn [base_declarations]. by eapply until_check_declarations.
Qed.

Lemma use_strategy_lookup new_strategy klass σ cls g :
  classes σ !! klass = Some cls →
  classes (use_strategy new_strategy klass σ).2 !! g
  = if decide (g = klass)
    then Some (set__meta cls (set_strategy (_meta cls) new_strategy))
    else classes σ !! g.
Proof.
  intros Hk. unfold use_strategy. rewrite Hk. simpl.
  destruct (decide (g = klass)) as [->|].
  - apply list_lookup_insert_eq. by eapply lookup_lt_Some.
  - by apply list_lookup_insert_ne.
Qed.

Lemma registry_shape_use_strategy new_strategy klass σ :
  mro_closed σ ∧ (∀ f cls, classes σ !! f = Some cls →
                    NoDup (od_keys (base_declarations (_meta cls)))) →
  mro_closed (use_strategy new_strategy klass σ).2
  ∧ (∀ f cls, classes (use_strategy new_strategy klass σ).2 !! f = Some cls →
       NoDup (od_keys (base_declarations (_meta cls)))).
Proof.
  intros [Hmro Hnd].
  destruct (classes σ !! klass) as [kcls|] eqn:Hk; cycle 1.
  { unfold use_strategy. by rewrite Hk. }
  assert (∀ g, registered σ g → registered (use_strategy new_strategy klass σ).2 g)
    as Hmono.
  { intros g [c Hg]. unfold registered.
    rewrite (use_strategy_lookup _ _ _ _ _ Hk). destruct (decide _); eauto. }
  split.
  - intros f cls Hf. rewrite (use_strategy_lookup _ _ _ _ _ Hk) in Hf.
    destruct (decide (f = klass)) as [->|].
    + injection Hf as <-. simpl.
      eapply Forall_impl; [by eapply Hmro|]. exact Hmono.
    + eapply Forall_impl; [by eapply Hmro|]. exact Hmono.
  - intros f cls Hf. rewrite (use_strategy_lookup _ _ _ _ _ Hk) in Hf.
    destruct (decide (f = klass)) as [->|]; [|by eapply Hnd].
    injection Hf as <-. simpl. by eapply Hnd.
Qed.

Lemma reachable_shape σ :
  is_reachable σ →
  mro_closed σ ∧ (∀ f cls, classes σ !! f = Some cls →
                    NoDup (od_keys (base_declarations (_meta cls)))).
Proof.
  induction 1 as [|body σ _ IH|fuel f σ Hr IH Hf Hfuel
                  |fuel f value force σ Hr IH Hf Hfuel|s klass σ _ IH].
  - split; intros f cls Hf; by destruct f.
  - by apply registry_shape_class.
  - pose proof (reachable_wf _ _ _ _ _ _ Hr) as Hwf.
    destruct (next_sequence_spec σ fuel f Hwf Hf Hfuel) as (σ' & -> & _ & Hsame & _).
    by eapply registry_shape_same.
  - pose proof (reachable_wf _ _ _ _ _ _ Hr) as Hwf.
    destruct Hf as [fcls Hfcls].
    destruct (wf_reference _ Hwf f ltac:(by exists fcls)) as [[rcls Hrcls] _].
    destruct (reset_sequence_spec σ fuel f value force fcls rcls
                Hwf Hfcls Hrcls Hfuel) as (σ' & _ & Hsame & _ & _ & Hres).
    destruct (bool_decide (reference σ f ≠ f) && negb force);
      destruct Hres as [-> _]; by eapply registry_shape_same.
  - by apply registry_shape_use_strategy.
Qed.

(** ** Sequences on reachable registries *)

(** X3: in every registry a program can reach, the counter reference of a
    registered definition is an owner (its own counter reference), and
    [next_sequence] on it returns the owner's next value and leaves a
    reachable registry: it never raises, and two levels of recursion in
    [_initialize_counter] are enough. *)
Theorem reachable_sequence_calls_succeed σ f :
  is_reachable σ → registered σ f →
  registered σ (reference σ f)
  ∧ reference σ (reference σ f) = reference σ f
  ∧ ∃ σ', next_sequence 2 f σ = (Return (cursor σ (reference σ f)), σ')
          ∧ is_reachable σ'
          ∧ cursor σ' (reference σ f) = cursor σ (reference σ f) + 1.
Proof.
  intros Hr Hf. pose proof (reachable_wf _ _ _ _ _ _ Hr) as Hwf.
  destruct (wf_reference _ Hwf f Hf) as [Hreg Href].
  split; [done|]. split; [done|].
  destruct (next_sequence_spec σ 2 f Hwf Hf ltac:(lia))
    as (σ' & Hrun & _ & _ & _ & Hcur & _).
  exists σ'. split; [done|]. split; [|done].
  replace σ' with (next_sequence 2 f σ).2 by by rewrite Hrun.
  by apply reachable_next.
Qed.

Lemma run_unrelated σ0 fuel q calls : ∀ σ,
  wf_store σ → same_definitions σ0 σ → (2 ≤ fuel)%nat →
  registered σ0 q → reference σ0 q = q →
  Forall (λ c, registered σ0 (call_target c)
               ∧ reference σ0 (call_target c) ≠ q) calls →
  cursor (run fuel calls σ).2 q = cursor σ q.
Proof.
  intros σ Hwf Hsame Hfuel Hq Hroot Hcalls. revert σ Hwf Hsame.
  induction calls as [|c calls IH]; intros σ Hwf Hsame; [done|].
  apply Forall_cons in Hcalls as [[Hc Hne] Hcalls]. specialize (IH Hcalls).
  assert (registered σ q) as Hq'
    by by apply (same_definitions_registered _ _ q Hsame).
  assert (reference σ q = q) as Hroot'
    by by rewrite (same_definitions_reference _ _ _ Hsame).
  assert (registered σ (call_target c)) as Hc'
    by by apply (same_definitions_registered _ _ _ Hsame).
  assert (q ≠ reference σ (call_target c)) as Hne'.
  { rewrite (same_definitions_reference _ _ _ Hsame). congruence. }
  assert (∃ o σ1, do_call fuel c σ = (o, σ1) ∧ wf_store σ1
                  ∧ same_definitions σ σ1 ∧ cursor σ1 q = cursor σ q)
    as (o & σ1 & Hdo & Hwf1 & Hsame1 & Hcur).
  { destruct c as [f|f value force]; simpl in Hc', Hne'.
    - destruct (next_sequence_spec σ fuel f Hwf Hc' Hfuel)
        as (σ1 & Hrun & Hwf1 & Hsame1 & _ & _ & Hoth).
      eexists _, σ1. split; [|split; [done|split; [done|by apply Hoth]]].
      cbn [do_call]. by rewrite (bind_run _ _ _ _ _ Hrun).
    - destruct Hc' as [fcls Hfcls].
      destruct (wf_reference _ Hwf f ltac:(by exists fcls)) as [[rcls Hrcls] _].
      destruct (reset_sequence_spec σ fuel f value force fcls rcls
                  Hwf Hfcls Hrcls Hfuel)
        as (σ1 & Hwf1 & Hsame1 & _ & Hoth & Hres).
      destruct (bool_decide (reference σ f ≠ f) && negb force);
        destruct Hres as [Hrun _].
      + eexists _, σ1. split; [|split; [done|split; [done|by apply Hoth]]].
        cbn [do_call]. by rewrite (bind_raise _ _ _ _ _ Hrun).
      + eexists _, σ1. split; [|split; [done|split; [done|by apply Hoth]]].
        cbn [do_call]. by rewrite (bind_run _ _ _ _ _ Hrun). }
  cbn [run]. rewrite Hdo.
  specialize (IH σ1 Hwf1 (same_definitions_trans _ _ _ Hsame Hsame1)).
  destruct (run fuel calls σ1) as [log σ2] eqn:Hlog. cbn [snd] in *.
  congruence.
Qed.

(** X4: sequences of unrelated definitions are independent: whatever
    [next_sequence] and [reset_sequence] calls (forced or not, failing or
    not) are made on definitions whose counter reference is not [q], the
    value the owner [q] yields next is unchanged. *)
Theorem unrelated_sequences_untouched σ fuel calls q :
  wf_store σ → (2 ≤ fuel)%nat → registered σ q → reference σ q = q →
  Forall (λ c, registered σ (call_target c)
               ∧ reference σ (call_target c) ≠ q) calls →
  cursor (run fuel calls σ).2 q = cursor σ q.
Proof.
  intros Hwf Hfuel Hq Hroot Hcalls.
  by apply (run_unrelated σ).
Qed.

(** ** Options *)

Lemma OptionDefault_apply_spec {T} (value : T) (inherit : bool)
    (from_meta : MetaBlock → option T)
    (from_base : @FactoryOptions Param DeclarationSet → T) meta base_meta :
  OptionDefault_apply value inherit from_meta from_base meta base_meta
  = default (if inherit then from_option from_base value base_meta else value)
            (meta ≫= from_meta).
Proof.
  unfold OptionDefault_apply.
  destruct meta as [m|], base_meta as [b|], inherit; simpl;
    try destruct (from_meta m); done.
Qed.

Lemma new_class_options body σ f σ' cls :
  new_class body σ = (Return f, σ') → classes σ' !! f = Some cls →
  ∃ col opts pre post,
    let base_meta := _meta <$> (body_base body ≫= (λ b, classes σ !! b)) in
    let oc :=
      from_option _options_class FactoryOptions_class
        (body_base body ≫= (λ b, classes σ !! b)) in
    contribute_until_check oc (classes σ) f (mro_tail cls) body base_meta
      (body_base body) = Return col
    ∧ _fill_from_meta (repr_body body) (body_Meta body) base_meta = Return opts
    ∧ col_options col = opts
    ∧ col_model col = o_model opts
    ∧ col_abstract col
      = match o_model opts with None => true | Some _ => o_abstract opts end
    ∧ _meta cls =
      {| factory := f; base_factory := body_base body;
         model := col_model col; abstract := col_abstract col;
         strategy := o_strategy opts; inline_args := o_inline_args opts;
         exclude := o_exclude opts; rename := o_rename opts;
         introspector_class := o_introspector_class opts;
         default_auto_fields := o_default_auto_fields opts;
         include_auto_fields := o_include_auto_fields opts;
         exclude_auto_fields := o_exclude_auto_fields opts;
         base_declarations := col_base_declarations col;
         parameters := col_parameters col;
         pre_declarations := pre; post_declarations := post;
         introspector := col_introspector col;
         _counter := None; counter_reference := col_counter_reference col |}.
Proof.
  intros Hnew Hcls.
  pose proof Hnew as Hinv.
  apply new_class_inv in Hinv as (new & Hf & Hclasses & _ & _ & _ & Hbody).
  rewrite (new_class_lookup _ _ _ _ _ f Hnew Hclasses) in Hcls.
  rewrite decide_True in Hcls by done. injection Hcls as ->.
  assert (contribute
            (from_option _options_class FactoryOptions_class
               (body_base body ≫= (λ b, classes σ !! b)))
            (classes σ) f (mro_tail cls) body
            (_meta <$> (body_base body ≫= (λ b, classes σ !! b)))
            (body_base body) = Return (_meta cls)) as Hc.
  { destruct (body_base body) as [b|]; simpl.
    - destruct Hbody as (bcls & -> & -> & Hc). done.
    - by destruct Hbody as [-> Hc]. }
  apply contribute_inv in Hc as (col & pre & post & Hcol & Hmeta).
  pose proof Hcol as Hparts. unfold contribute_to_class_until_check in Hparts.
  apply outcome_bind_inv in Hparts as (opts & Hopts & Hparts).
  apply outcome_bind_inv in Hparts as (ref & Href & Hparts).
  apply outcome_bind_inv in Hparts as (parents & Hparents & Hparts).
  apply outcome_bind_inv in Hparts as (decls & Hdecls & Hparts).
  injection Hparts as Hparts.
  exists col, opts, pre, post. cbv zeta.
  split; [done|]. split; [done|].
  rewrite <- Hparts in *. cbn [col_options col_model col_abstract] in *.
  repeat split; done.
Qed.

Lemma new_class_strategy body σ f σ' cls :
  new_class body σ = (Return f, σ') → classes σ' !! f = Some cls →
  strategy (_meta cls)
  = default (from_option strategy CREATE_STRATEGY
               (_meta <$> (body_base body ≫= (λ b, classes σ !! b))))
            (body_Meta body ≫= meta_strategy).
Proof.
  intros Hnew Hcls.
  destruct (new_class_options _ _ _ _ _ Hnew Hcls)
    as (col & opts & pre & post & _ & Hopts & _ & _ & _ & ->).
  apply fill_from_meta_inv in Hopts. cbn [strategy].
  rewrite Hopts. cbn [o_strategy]. by rewrite OptionDefault_apply_spec.
Qed.

(** X5: how each option of a new definition is resolved: the value set in
    its own [class Meta], else the base definition's resolved value for the
    inheritable options, else the built-in default.  [abstract],
    [include_auto_fields] and [exclude_auto_fields] are never taken from the
    base; a definition without a model is abstract whatever its [Meta]
    says, and one with a model is abstract only if its own [Meta] says so. *)
Theorem options_resolved_against_base body σ f σ' cls :
  new_class body σ = (Return f, σ') → classes σ' !! f = Some cls →
  let base := _meta <$> (body_base body ≫= (λ b, classes σ !! b)) in
  let meta := body_Meta body in
  model (_meta cls) = default (from_option model None base) (meta ≫= meta_model)
  ∧ strategy (_meta cls)
    = default (from_option strategy CREATE_STRATEGY base) (meta ≫= meta_strategy)
  ∧ inline_args (_meta cls)
    = default (from_option inline_args [] base) (meta ≫= meta_inline_args)
  ∧ exclude (_meta cls)
    = default (from_option exclude [] base) (meta ≫= meta_exclude)
  ∧ rename (_meta cls)
    = default (from_option rename [] base) (meta ≫= meta_rename)
  ∧ introspector_class (_meta cls)
    = default (from_option introspector_class None base)
              (meta ≫= meta_introspector_class)
  ∧ default_auto_fields (_meta cls)
    = default (from_option default_auto_fields false base)
              (meta ≫= meta_default_auto_fields)
  ∧ include_auto_fields (_meta cls) = default [] (meta ≫= meta_include_auto_fields)
  ∧ exclude_auto_fields (_meta cls) = default [] (meta ≫= meta_exclude_auto_fields)
  ∧ abstract (_meta cls)
    = match model (_meta cls) with
      | None => true
      | Some _ => default false (meta ≫= meta_abstract)
      end.
Proof.
  intros Hnew Hcls. cbv zeta.
  destruct (new_class_options _ _ _ _ _ Hnew Hcls)
    as (col & opts & pre & post & _ & Hopts & _ & Hmodel & Habs & ->).
  apply fill_from_meta_inv in Hopts. cbn [model strategy inline_args exclude
    rename introspector_class default_auto_fields include_auto_fields
    exclude_auto_fields abstract].
  rewrite Hmodel, Habs, Hopts. cbn [o_model o_abstract o_strategy o_inline_args
    o_exclude o_rename o_introspector_class o_default_auto_fields
    o_include_auto_fields o_exclude_auto_fields].
  rewrite !OptionDefault_apply_spec. done.
Qed.



(** X7: [use_strategy] changes the default strategy of the one definition
    it is applied to: every definition registered before keeps its own
    (options are copied when a class statement runs), no counter is
    touched, and a definition derived afterwards without a strategy of its
    own takes the new one. *)
Theorem use_strategy_effect σ klass cls s :
  classes σ !! klass = Some cls →
  ∃ σ' cls',
    use_strategy s klass σ = (Return klass, σ')
    ∧ classes σ' !! klass = Some cls'
    ∧ strategy (_meta cls') = s
    ∧ set__meta cls' (set_strategy (_meta cls') (strategy (_meta cls))) = cls
    ∧ (∀ g, g ≠ klass → classes σ' !! g = classes σ !! g)
    ∧ counters σ' = counters σ
    ∧ (∀ body h σ'' hcls,
         body_base body = Some klass → body_Meta body ≫= meta_strategy = None →
         new_class body σ' = (Return h, σ'') → classes σ'' !! h = Some hcls →
         strategy (_meta hcls) = s).
Proof.
  intros Hk.
  exists (use_strategy s klass σ).2,
         (set__meta cls (set_strategy (_meta cls) s)).
  assert (∀ g, classes (use_strategy s klass σ).2 !! g
               = if decide (g = klass)
                 then Some (set__meta cls (set_strategy (_meta cls) s))
                 else classes σ !! g) as Hl
    by (intros g; by apply use_strategy_lookup).
  split; [by unfold use_strategy; rewrite Hk|].
  split; [by rewrite Hl, decide_True|].
  split; [done|]. split; [by destruct cls as [? ? ? ? []]|].
  split; [by intros g Hg; rewrite Hl, decide_False|].
  split; [by unfold use_strategy; rewrite Hk|].
  intros body h σ'' hcls Hbase Hown Hnew Hh.
  rewrite (new_class_strategy body _ h σ'' hcls Hnew Hh), Hown, Hbase. simpl. rewrite Hl, decide_True by done. done.
Qed.

(** ** Declarations of a new definition *)

Lemma od_get_None {V} (d : odict V) k : k ∉ od_keys d → od_get d k = None.
Proof.
  induction d as [|[k' v'] d IH]; simpl; [done|].
  intros Hk. apply not_elem_of_cons in Hk as [Hne Hk].
  rewrite decide_False by done. by apply IH.
Qed.

Lemma od_get_keys {V} (d : odict V) k v : od_get d k = Some v → k ∈ od_keys d.
Proof.
  intros H. apply od_get_elem in H. unfold od_keys.
  apply list_elem_of_fmap. by exists (k, v).
Qed.

Lemma od_keys_get {V} (d : odict V) k : k ∈ od_keys d → is_Some (od_get d k).
Proof.
  induction d as [|[k' v'] d IH]; simpl; [by intros ?%elem_of_nil|].
  intros [->|Hk]%elem_of_cons.
  - rewrite decide_True by done. eauto.
  - destruct (decide (k' = k)); eauto.
Qed.

Lemma od_get_update {V} (e : odict V) : ∀ (d : odict V) k,
  NoDup (od_keys e) →
  od_get (od_update d e) k
  = match od_get e k with Some v => Some v | None => od_get d k end.
Proof.
  unfold od_update.
  induction e as [|[k' v'] e IH]; intros d k Hnd; simpl; [done|].
  apply NoDup_cons in Hnd as [Hk' Hnd]. rewrite IH by done.
  destruct (decide (k' = k)) as [->|Hne].
  - rewrite od_get_None by done. rewrite od_get_set. by rewrite decide_True.
  - destruct (od_get e k); [done|]. rewrite od_get_set. by rewrite decide_False.
Qed.

Lemma first_defined_app {V} (ds es : list (odict V)) k :
  first_defined (ds ++ es) k
  = match first_defined ds k with Some v => Some v | None => first_defined es k end.
Proof.
  induction ds as [|d ds IH]; simpl; [done|].
  destruct (od_get d k); [done|]. apply IH.
Qed.

(** Merging the dictionaries of the ancestors, furthest first: the nearest
    ancestor that binds a name decides. *)
Lemma merged_lookup {V} (get : @FactoryOptions Param DeclarationSet → odict V)
    (parents : list FactoryOptions) k : ∀ acc,
  Forall (λ p, NoDup (od_keys (get p))) parents →
  od_get (foldl (λ acc parent, od_update acc (get parent)) acc parents) k
  = match first_defined (get <$> reverse parents) k with
    | Some v => Some v
    | None => od_get acc k
    end.
Proof.
  induction parents as [|p parents IH]; intros acc Hnd; simpl; [done|].
  apply Forall_cons in Hnd as [Hp Hnd]. rewrite IH by done.
  rewrite reverse_cons, fmap_app, first_defined_app. simpl.
  destruct (first_defined (get <$> reverse parents) k); [done|].
  rewrite od_get_update by done. by destruct (od_get (get p) k).
Qed.

(** The attributes of the class body go on top of what was inherited. *)
Lemma own_declarations_lookup attrs k : ∀ (acc acc' inherited : odict attr),
  (∀ k, od_get acc k
        = match od_get acc' k with Some v => Some v | None => od_get inherited k end) →
  od_get (own_declarations attrs acc) k
  = match od_get (own_declarations attrs acc') k with
    | Some v => Some v
    | None => od_get inherited k
    end.
Proof.
  unfold own_declarations.
  induction attrs as [|[k0 v0] attrs IH]; intros acc acc' inherited H; simpl.
  - apply H.
  - apply IH. intros k1. destruct (_is_declaration k0 v0); [|apply H].
    rewrite !od_get_set. destruct (decide (k0 = k1)); [done|apply H].
Qed.

Lemma merge_auto_declarations_lookup ic names auto : ∀ (acc acc' : odict attr) k,
  merge_auto_declarations ic names auto acc = Return acc' →
  k ∉ names → od_get acc' k = od_get acc k.
Proof.
  induction auto as [|[k0 v0] auto IH]; intros acc acc' k H Hk; simpl in H.
  - by injection H as <-.
  - destruct (decide (k0 ∈ names)) as [Hin|]; [|done].
    rewrite (IH _ _ _ H Hk), od_get_set.
    rewrite decide_False; [done|]. by intros ->.
Qed.

Lemma mapM_lookup_meta (cs : list (@Factory Param DeclarationSet)) (l : list fid) :
  ∀ parents,
  mapM (lookup_meta cs) l = Return parents →
  Forall2 (λ g p, ∃ c, cs !! g = Some c ∧ p = _meta c) l parents.
Proof.
  induction l as [|g l IH]; intros parents H; simpl in H.
  - injection H as <-. constructor.
  - apply outcome_bind_inv in H as (p & Hp & H).
    apply outcome_bind_inv in H as (ps & Hps & H).
    injection H as <-. constructor; [|by apply IH].
    unfold lookup_meta in Hp. destruct (cs !! g) as [c|]; [|done].
    injection Hp as <-. eauto.
Qed.

Lemma mapM_lookup_meta_total (cs : list (@Factory Param DeclarationSet))
    (l : list fid) :
  Forall (λ g, is_Some (cs !! g)) l →
  ∃ parents, mapM (lookup_meta cs) l = Return parents.
Proof.
  induction l as [|g l IH]; intros H; [by eexists|].
  apply Forall_cons in H as [[c Hc] H]. destruct (IH H) as [ps Hps].
  exists (_meta c :: ps). cbn [mapM]. rewrite Hps.
  unfold lookup_meta. by rewrite Hc.
Qed.

Lemma parents_declarations (cs : list (@Factory Param DeclarationSet))
    (l : list fid) parents :
  Forall2 (λ g p, ∃ c, cs !! g = Some c ∧ p = _meta c) l parents →
  base_declarations <$> parents
  = (λ g, from_option (λ c, base_declarations (_meta c)) [] (cs !! g)) <$> l.
Proof.
  induction 1 as [|g p l parents (c & Hc & ->) _ IH]; [done|].
  rewrite !fmap_cons, Hc, IH. done.
Qed.

Lemma candidate_not_declared (dflt : bool) default_names
    (parents : list (@FactoryOptions Param DeclarationSet))
    self_include self_exclude declared x :
  x ∈ candidate_field_names dflt default_names parents self_include
        self_exclude declared →
  x ∉ declared.
Proof.
  unfold candidate_field_names. rewrite elem_of_difference, not_elem_of_union.
  rewrite elem_of_list_to_set. tauto.
Qed.

(** The declarations of a new definition, name by name. *)
Lemma until_check_declarations_lookup oc cs self mro body base_meta base col k :
  (∀ g c, cs !! g = Some c → NoDup (od_keys (base_declarations (_meta c)))) →
  contribute_until_check oc cs self mro body base_meta base = Return col →
  let own := od_get (own_declarations (body_attrs body) []) k in
  let inherited :=
    first_defined
      ((λ g, from_option (λ c, base_declarations (_meta c)) [] (cs !! g)) <$> mro)
      k in
  match own, inherited with
  | Some v, _ | None, Some v => od_get (col_base_declarations col) k = Some v
  | None, None =>
      col_abstract col = true
      ∨ (o_default_auto_fields (col_options col) = false
         ∧ o_include_auto_fields (col_options col) = []) →
      od_get (col_base_declarations col) k = None
  end.
Proof.
  intros Hnd H. unfold contribute_to_class_until_check in H.
  apply outcome_bind_inv in H as (opts & Hopts & H).
  apply outcome_bind_inv in H as (ref & Href & H).
  apply outcome_bind_inv in H as (parents & Hparents & H).
  apply outcome_bind_inv in H as (decls & Hdecls & H).
  injection H as <-. cbn [col_base_declarations col_abstract col_options].
  apply mapM_lookup_meta in Hparents.
  set (declared := own_declarations (body_attrs body)
         (foldl (λ acc parent, od_update acc (base_declarations parent))
                [] parents)) in *.
  assert (od_get declared k
          = match od_get (own_declarations (body_attrs body) []) k with
            | Some v => Some v
            | None =>
                first_defined
                  ((λ g, from_option (λ c, base_declarations (_meta c)) []
                                     (cs !! g)) <$> mro) k
            end) as Hdeclared.
  { unfold declared.
    rewrite (own_declarations_lookup _ _ _ []
               (foldl (λ acc parent, od_update acc (base_declarations parent))
                      [] parents)) by done.
    destruct (od_get (own_declarations (body_attrs body) []) k); [done|].
    rewrite merged_lookup.
    - rewrite fmap_reverse, (parents_declarations _ _ _ Hparents).
      rewrite <- fmap_reverse, reverse_involutive.
      by destruct (first_defined _ k).
    - clear -Hparents Hnd. induction Hparents as [|g p l ps (c & Hc & ->) _ IH];
        constructor; [by eapply Hnd|done]. }
  cbv zeta.
  destruct (negb _ && _) eqn:Hauto.
  - apply outcome_bind_inv in Hdecls as (names & Hnames & Hdecls).
    apply outcome_bind_inv in Hdecls as (auto & Hbuild & Hmerge).
    assert (is_Some (od_get declared k) → od_get decls k = od_get declared k)
      as Hkeep.
    { intros [v Hv]. eapply merge_auto_declarations_lookup; [done|].
      intros Hin%candidate_not_declared. by apply Hin, od_get_keys with v. }
    rewrite Hdeclared in Hkeep.
    destruct (od_get (own_declarations (body_attrs body) []) k) as [v|].
    + apply Hkeep. eauto.
    + destruct (first_defined _ k) as [v|]; [apply Hkeep; eauto|].
      apply andb_true_iff in Hauto as [Habs Hflags].
      apply negb_true_iff in Habs.
      intros [Habs'|[Hd Hi]]; [congruence|].
      rewrite Hd, Hi in Hflags. done.
  - injection Hdecls as <-. rewrite Hdeclared.
    destruct (od_get (own_declarations (body_attrs body) []) k); [done|].
    destruct (first_defined _ k); done.
Qed.

(** X8: precedence among the declarations of a new definition, name by
    name: an attribute of the class body that counts as a declaration wins;
    otherwise the nearest ancestor that declares the name decides;
    declarations derived by the introspector only ever fill names that
    neither the body nor any ancestor declares, and without auto-field
    derivation such names stay undeclared. *)
Theorem declarations_precedence body σ f σ' cls k :
  is_reachable σ →
  new_class body σ = (Return f, σ') → classes σ' !! f = Some cls →
  let own := od_get (own_declarations (body_attrs body) []) k in
  let inherited :=
    first_defined
      ((λ g, from_option (λ c, base_declarations (_meta c)) [] (classes σ !! g))
         <$> mro_tail cls) k in
  match own, inherited with
  | Some v, _ | None, Some v => od_get (base_declarations (_meta cls)) k = Some v
  | None, None =>
      abstract (_meta cls) = true
      ∨ (default_auto_fields (_meta cls) = false
         ∧ include_auto_fields (_meta cls) = []) →
      od_get (base_declarations (_meta cls)) k = None
  end.
Proof.
  intros Hr Hnew Hcls.
  destruct (new_class_options _ _ _ _ _ Hnew Hcls)
    as (col & opts & pre & post & Hcol & _ & Hopts & _ & _ & ->).
  cbn [base_declarations abstract default_auto_fields include_auto_fields].
  rewrite <- Hopts.
  apply (until_check_declarations_lookup _ _ _ _ _ _ _ _ k) in Hcol; [done|].
  intros g c Hg. by eapply (proj2 (reachable_shape _ Hr)).
Qed.

(** ** The base introspector *)

Lemma build_declarations_loop_keys ic factory_class model skip_fields :
  ∀ for_fields acc decls,
  build_declarations_loop ic factory_class model for_fields skip_fields acc
  = Return decls →
  (∀ k, k ∈ od_keys decls →
        k ∈ od_keys acc ∨ (k ∈ for_fields ∧ k ∉ skip_fields))
  ∧ (NoDup (od_keys acc) → NoDup (od_keys decls)).
Proof.
  induction for_fields as [|name rest IH]; intros acc decls H; simpl in H.
  - injection H as <-. split; [by left|done].
  - destruct (decide (name ∈ skip_fields)) as [Hskip|Hskip].
    + destruct (IH _ _ H) as [Hkeys Hnd]. split; [|done].
      intros k Hk. destruct (Hkeys k Hk) as [?|[? ?]]; [by left|].
      right. split; [by right|done].
    + apply outcome_bind_inv in H as (fld & _ & H).
      apply outcome_bind_inv in H as (declaration & _ & H).
      destruct (IH _ _ H) as [Hkeys Hnd]. split.
      * intros k Hk. destruct (Hkeys k Hk) as [Hacc|[? ?]].
        -- destruct declaration as [d|]; [|by left].
           apply od_keys_set in Hacc as [->|?]; [|by left].
           right. split; [by left|done].
        -- right. split; [by right|done].
      * intros Hacc. apply Hnd.
        destruct declaration; [by apply od_set_NoDup|done].
Qed.

Lemma merge_auto_declarations_total ic (names : gset string) auto :
  ∀ acc : odict attr,
  (∀ k, k ∈ od_keys auto → k ∈ names) →
  ∃ acc', merge_auto_declarations ic names auto acc = Return acc'.
Proof.
  induction auto as [|[k v] auto IH]; intros acc Hin; simpl; [by eexists|].
  rewrite decide_True by (apply Hin; by left).
  apply IH. intros k' Hk'. apply Hin. by right.
Qed.

(** X9: [BaseIntrospector.build_declarations] only returns declarations
    for names it was asked for and that are not to be skipped, each name
    once; so merging its result never raises the "returned a field that it
    was not asked for" error, and the merge leaves every name outside the
    asked set as it was. *)
Theorem introspector_returns_asked_fields ic factory_class model
    (for_fields skip_fields : gset string) decls :
  build_declarations ic factory_class model for_fields skip_fields = Return decls →
  (∀ k, k ∈ od_keys decls → k ∈ for_fields ∧ k ∉ skip_fields)
  ∧ NoDup (od_keys decls)
  ∧ ∀ declared, ∃ merged,
      merge_auto_declarations ic for_fields decls declared = Return merged
      ∧ ∀ k, k ∉ for_fields → od_get merged k = od_get declared k.
Proof.
  unfold build_declarations. intros H.
  destruct (build_declarations_loop_keys _ _ _ _ _ _ _ H) as [Hkeys Hnd].
  assert (∀ k, k ∈ od_keys decls → k ∈ for_fields ∧ k ∉ skip_fields) as Hasked.
  { intros k Hk. destruct (Hkeys k Hk) as [Hnil|[Hin Hskip]].
    - by apply elem_of_nil in Hnil.
    - split; [by apply elem_of_elements|done]. }
  split; [done|]. split; [apply Hnd, NoDup_nil_2|].
  intros declared.
  destruct (merge_auto_declarations_total ic for_fields decls declared)
    as [merged Hmerged]; [intros k Hk; by apply Hasked|].
  exists merged. split; [done|].
  intros k Hk. by eapply merge_auto_declarations_lookup.
Qed.

(** ** Factories assembled at run time *)

Lemma get_counter_reference_total (cs : list (@Factory Param DeclarationSet))
    self self_model b c :
  cs !! b = Some c →
  ∃ ref, _get_counter_reference cs self self_model (Some b) = Return ref.
Proof.
  intros Hc. unfold _get_counter_reference, lookup_meta.
  destruct self_model as [m|]; [|by eexists]. rewrite Hc. simpl.
  destruct (model (_meta c)) as [bm|]; [|by eexists].
  destruct (issubclass m bm); by eexists.
Qed.

Lemma contribute_default_names_raise oc cs self mro body base_meta base
    opts m ref parents e :
  _fill_from_meta (repr_body body) (body_Meta body) base_meta = Return opts →
  o_model opts = Some m → o_abstract opts = false →
  o_default_auto_fields opts = true → o_introspector_class opts = None →
  _get_counter_reference cs self (o_model opts) base = Return ref →
  mapM (lookup_meta cs) (reverse mro) = Return parents →
  get_default_field_names (DEFAULT_INTROSPECTOR_CLASS oc) (Some m) = Raise e →
  contribute oc cs self mro body base_meta base = Raise e.
Proof.
  intros Hfill Hm Habs Hdflt Hic Href Hparents Hnames.
  unfold contribute_to_class, contribute_to_class_until_check.
  rewrite Hfill. cbn [mbind outcome_bind]. rewrite Href. cbn [mbind outcome_bind].
  rewrite Hparents. cbn [mbind outcome_bind].
  rewrite Hm, Habs, Hdflt, Hic. cbn [negb andb orb]. by rewrite Hnames.
Qed.

(** X10: [auto_factory] with its default [default_auto_fields=True] asks
    an introspector for the default field names of the model.  Called
    without [introspector_class] on a definition that has none configured,
    it asks the default introspector of that definition's
    [_options_class]; when that request raises, [auto_factory] raises the
    same error and registers nothing.  So it does with the options class
    [FactoryOptions], whose default is [BaseIntrospector]:
    [NotImplementedError]. *)
Theorem auto_factory_needs_introspector σ f cls target
    include_names exclude_names overrides :
  is_reachable σ → classes σ !! f = Some cls →
  introspector_class (_meta cls) = None →
  (∀ e,
     get_default_field_names (DEFAULT_INTROSPECTOR_CLASS (_options_class cls))
       (Some target) = Raise e →
     auto_factory wrap sort_ordered_objects isinstance_Parameter get_revdeps
       parse_declarations f target true include_names exclude_names None overrides σ
     = (Raise e, σ))
  ∧ (DEFAULT_INTROSPECTOR_CLASS (_options_class cls) = BaseIntrospector →
     ∃ msg,
       auto_factory wrap sort_ordered_objects isinstance_Parameter get_revdeps
         parse_declarations f target true include_names exclude_names None
         overrides σ
       = (Raise (NotImplementedError msg), σ)).
Proof.
  intros Hr Hcls Hic.
  assert (∀ e,
     get_default_field_names (DEFAULT_INTROSPECTOR_CLASS (_options_class cls))
       (Some target) = Raise e →
     auto_factory wrap sort_ordered_objects isinstance_Parameter get_revdeps
       parse_declarations f target true include_names exclude_names None overrides σ
     = (Raise e, σ)) as Hraise.
  { intros e Hnames.
    destruct (reachable_shape _ Hr) as [Hmro _].
    destruct (mapM_lookup_meta_total (classes σ) (reverse (f :: mro_tail cls)))
      as [parents Hparents].
    { apply Forall_reverse, Forall_cons. split; [by eexists|].
      by apply (Hmro f cls). }
    destruct (get_counter_reference_total (classes σ) (length (classes σ))
                (Some target) f cls Hcls) as [ref Href].
    unfold auto_factory, FactoryMetaClass_new.
    cbn [body_base]. simpl (Some f ≫= _). rewrite Hcls.
    erewrite contribute_default_names_raise;
      [reflexivity|reflexivity|..|exact Hparents|exact Hnames].
    - cbn [o_model]. rewrite OptionDefault_apply_spec. reflexivity.
    - cbn [o_abstract]. by rewrite OptionDefault_apply_spec.
    - cbn [o_default_auto_fields]. by rewrite OptionDefault_apply_spec.
    - cbn [o_introspector_class]. rewrite OptionDefault_apply_spec. exact Hic.
    - cbn [o_model]. rewrite OptionDefault_apply_spec. exact Href. }
  split; [exact Hraise|].
  intros Hdefault. eexists. apply Hraise. by rewrite Hdefault.
Qed.

(** X11: what [auto_factory] registers when it succeeds: a concrete
    definition named after the model, derived from the definition it was
    called on, with the auto-field options as given; and every field
    override that counts as a declaration is a declaration of the new
    definition, whatever the introspector derives. *)
Theorem auto_factory_definition σ f target dflt include_names exclude_names ic
    overrides h σ' hcls :
  is_reachable σ →
  auto_factory wrap sort_ordered_objects isinstance_Parameter get_revdeps
    parse_declarations f target dflt include_names exclude_names ic overrides σ
  = (Return h, σ') →
  classes σ' !! h = Some hcls →
  __name__ hcls = cls_name target +:+ "AutoFactory"
  ∧ mro_tail hcls = f :: from_option mro_tail [] (classes σ !! f)
  ∧ base_factory (_meta hcls) = Some f
  ∧ model (_meta hcls) = Some target
  ∧ abstract (_meta hcls) = false
  ∧ default_auto_fields (_meta hcls) = dflt
  ∧ include_auto_fields (_meta hcls) = include_names
  ∧ exclude_auto_fields (_meta hcls) = exclude_names
  ∧ (∀ c, ic = Some c → introspector (_meta hcls) = c)
  ∧ (∀ k v,
       od_get (own_declarations (filter (λ kv, kv.1 ≠ "Meta") overrides) []) k
       = Some v →
       od_get (base_declarations (_meta hcls)) k = Some v).
Proof.
  intros Hr Hnew Hh. unfold auto_factory in Hnew.
  pose proof Hnew as Hinv.
  apply new_class_inv in Hinv as (new & Hf & Hclasses & _ & Hname & _ & Hbody).
  rewrite (new_class_lookup _ _ _ _ _ h Hnew Hclasses) in Hh.
  rewrite decide_True in Hh by done. injection Hh as ->.
  cbn [body_base] in Hbody. destruct Hbody as (bcls & Hbcls & Hmro & Hc).
  split; [done|]. split; [by rewrite Hmro, Hbcls|].
  apply contribute_inv in Hc as (col & pre & post & Hcol & ->).
  cbn [base_factory model abstract default_auto_fields include_auto_fields
       exclude_auto_fields introspector base_declarations].
  split; [done|].
  assert (∀ k v,
            od_get (own_declarations (filter (λ kv, kv.1 ≠ "Meta") overrides) []) k
            = Some v →
            od_get (col_base_declarations col) k = Some v) as Hdecls.
  { intros k v Hk.
    eapply (until_check_declarations_lookup _ _ _ _ _ _ _ _ k) in Hcol.
    - cbn [body_attrs] in Hcol. by rewrite Hk in Hcol.
    - intros g c Hg. by eapply (proj2 (reachable_shape _ Hr)). }
  unfold contribute_to_class_until_check in Hcol.
  apply outcome_bind_inv in Hcol as (opts & Hopts & Hcol).
  apply outcome_bind_inv in Hcol as (ref & Href & Hcol).
  apply outcome_bind_inv in Hcol as (parents & Hparents & Hcol).
  apply outcome_bind_inv in Hcol as (decls & _ & Hcol).
  apply fill_from_meta_inv in Hopts. cbn [body_Meta] in Hopts.
  rewrite !OptionDefault_apply_spec in Hopts.
  cbn [mbind option_bind meta_model meta_abstract meta_default_auto_fields
       meta_include_auto_fields meta_exclude_auto_fields
       meta_introspector_class default] in Hopts.
  injection Hcol as Hcol. rewrite <- Hcol in *.
  cbn [col_model col_abstract col_options col_introspector] in *.
  rewrite Hopts. cbn [o_model o_abstract o_default_auto_fields
    o_include_auto_fields o_exclude_auto_fields o_introspector_class].
  repeat split; try done.
  by intros c ->.
Qed.

(** ** The argument pipeline *)

Lemma pop_raises (kw : kwargs) name e :
  pop kw name = Raise e → e = KeyError name ∧ kw !! name = None.
Proof. unfold pop. destruct (kw !! name); [done|]. by intros [= <-]. Qed.

Lemma rename_fields_raises renames : ∀ (kw : kwargs) e,
  rename_fields renames kw = Raise e →
  ∃ k, e = KeyError k ∧ k ∈ od_keys renames.
Proof.
  induction renames as [|[old_name new_name] rest IH]; intros kw e H;
    simpl in H; [done|].
  destruct (pop kw old_name) as [[v kw1]|e1] eqn:Hpop; simpl in H.
  - destruct (IH _ _ H) as (k & -> & Hk). exists k. split; [done|by right].
  - injection H as <-. apply pop_raises in Hpop as [-> _].
    exists old_name. split; [done|by left].
Qed.

Lemma extract_inline_args_raises names : ∀ (kw : kwargs) e,
  extract_inline_args names kw = Raise e →
  ∃ k, e = KeyError k ∧ k ∈ names.
Proof.
  induction names as [|name rest IH]; intros kw e H; simpl in H; [done|].
  destruct (pop kw name) as [[v kw1]|e1] eqn:Hpop; simpl in H.
  - destruct (extract_inline_args rest kw1) as [[args kw2]|e2] eqn:Hrest;
      simpl in H; [done|].
    injection H as <-. destruct (IH _ _ Hrest) as (k & -> & Hk).
    exists k. split; [done|by right].
  - injection H as <-. apply pop_raises in Hpop as [-> _].
    exists name. split; [done|by left].
Qed.

(** X12: the only way [prepare_arguments] fails is a [KeyError], and the
    missing key is then a source name of the rename map or one of the
    inline argument names. *)
Theorem prepare_arguments_fails_with_KeyError
    (cls : @Factory Param DeclarationSet) (attributes : kwargs) e :
  prepare_arguments cls attributes = Raise e →
  ∃ k, e = KeyError k
       ∧ (k ∈ od_keys (rename (_meta cls)) ∨ k ∈ inline_args (_meta cls)).
Proof.
  unfold prepare_arguments. intros H.
  destruct (rename_fields _ _) as [kw|e1] eqn:Hrename; simpl in H.
  - apply extract_inline_args_raises in H as (k & -> & Hk). eauto.
  - injection H as <-.
    apply rename_fields_raises in Hrename as (k & -> & Hk). eauto.
Qed.

(** X13: renaming happens after hidden entries are dropped: when the first
    source name of the rename map is absent, excluded, a parameter name or
    bound to [SKIP], [prepare_arguments] raises [KeyError] for it. *)
Theorem renaming_hidden_attribute_fails
    (cls : @Factory Param DeclarationSet) (attributes : kwargs)
    old_name new_name rest :
  rename (_meta cls) = (old_name, new_name) :: rest →
  (∀ v, _adjust_kwargs cls attributes !! old_name = Some v →
        hidden (_meta cls) old_name v) →
  prepare_arguments cls attributes = Raise (KeyError old_name).
Proof.
  intros Hrename Hhidden. unfold prepare_arguments. rewrite Hrename. simpl.
  unfold pop.
  destruct (remove_hidden _ _ !! old_name) as [v|] eqn:Hv; [|done].
  apply remove_hidden_lookup in Hv as [Hv Hvis]. by apply Hhidden in Hv.
Qed.

Lemma renamed_by_values renames (kw kw' : kwargs) :
  renamed_by renames kw kw' →
  ∀ k v, kw' !! k = Some v → ∃ k0, kw !! k0 = Some v.
Proof.
  induction 1 as [kw|old_name new_name rest kw v0 kw' Hold _ IH];
    intros k v Hk; [eauto|].
  destruct (IH _ _ Hk) as (k0 & Hk0).
  apply lookup_insert_Some in Hk0 as [[_ <-]|[_ Hk0]]; [eauto|].
  apply lookup_delete_Some in Hk0 as [_ Hk0]. eauto.
Qed.

(** X14: what reaches the model: every positional or keyword value that
    [prepare_arguments] returns is the value of an attribute (after
    [_adjust_kwargs]) that is neither [SKIP] nor bound to an excluded name
    or a parameter name. *)
Theorem hidden_values_never_passed
    (cls : @Factory Param DeclarationSet) (attributes : kwargs) args kw v :
  prepare_arguments cls attributes = Return (args, kw) →
  v ∈ passed_values args kw →
  v ≠ SKIP
  ∧ ∃ k, _adjust_kwargs cls attributes !! k = Some v
         ∧ (k ∉ exclude (_meta cls)) ∧ (k ∉ od_keys (parameters (_meta cls))).
Proof.
  intros H Hv. apply prepare_arguments_prepared in H
    as (visible & renamed & Hvisible & Hrenamed & _ & Hargs & Hkw).
  assert (∃ k, renamed !! k = Some v) as (k & Hk).
  { unfold passed_values in Hv. apply elem_of_app in Hv as [Hv|Hv].
    - apply list_elem_of_lookup in Hv as [i Hi].
      destruct (Forall2_lookup_r _ _ _ _ _ Hargs Hi) as (name & _ & Hname).
      eauto.
    - apply list_elem_of_fmap in Hv as ([k v'] & -> & Hin).
      apply elem_of_map_to_list in Hin. rewrite Hkw in Hin.
      destruct (decide _); [done|]. eauto. }
  destruct (renamed_by_values _ _ _ Hrenamed _ _ Hk) as (k0 & Hk0).
  apply Hvisible in Hk0 as [Hk0 Hvis]. unfold hidden in Hvis.
  split; [tauto|]. exists k0. tauto.
Qed.

(** ** Dictionary and list factories *)

(** X15: a dictionary factory builds and creates alike, and does not
    support inline arguments: once [Meta.inline_args] names anything, every
    prepared call makes [build] and [create] raise [ValueError], while the
    stub strategy is unaffected; without inline arguments both call the
    model with the keyword arguments only. *)
Theorem dict_factory_instantiation (cls : @Factory Param DeclarationSet)
    cls_repr (attributes : kwargs) args kw :
  _build cls = BaseDictFactory_build cls_repr →
  _create cls = BaseDictFactory_create cls_repr →
  prepare_arguments cls attributes = Return (args, kw) →
  instantiate cls CREATE_STRATEGY args kw = instantiate cls BUILD_STRATEGY args kw
  ∧ instantiate cls BUILD_STRATEGY args kw
    = (if decide (inline_args (_meta cls) = [])
       then call_model (model (_meta cls)) [] kw
       else Raise (inline_args_error "DictFactory" cls_repr))
  ∧ instantiate cls STUB_STRATEGY args kw = Return (Stub kw).
Proof.
  intros Hbuild Hcreate H.
  apply prepare_arguments_prepared in H
    as (visible & renamed & _ & _ & _ & Hargs & _).
  apply Forall2_length in Hargs.
  unfold instantiate. cbn. rewrite Hbuild, Hcreate.
  split; [done|]. split; [|by rewrite StubObject_attrs].
  unfold BaseDictFactory_build, get_model_class.
  destruct (decide (inline_args (_meta cls) = [])) as [E|E].
  - rewrite E in Hargs. by destruct args.
  - destruct args; [|done]. by destruct (inline_args (_meta cls)).
Qed.

Lemma ascii_compare_trans (a b c : Ascii.ascii) o :
  Ascii.compare a b = o → Ascii.compare b c = o → Ascii.compare a c = o.
Proof.
  unfold Ascii.compare. intros <-.
  destruct (N.compare_spec (Ascii.N_of_ascii a) (Ascii.N_of_ascii b)) as [E|E|E];
    intros H.
  - by rewrite E.
  - rewrite N.compare_lt_iff in *. lia.
  - rewrite N.compare_gt_iff in *. lia.
Qed.

Lemma string_le_trans : Transitive string_le.
Proof.
  unfold string_le, String.leb. intros a.
  induction a as [|ca a IH]; intros b c Hab Hbc.
  - by destruct c.
  - destruct b as [|cb b]; [done|]. destruct c as [|cc c]; [by destruct b|].
    simpl in *.
    destruct (Ascii.compare ca cb) eqn:E1; [| |done].
    + apply Ascii.compare_eq_iff in E1 as ->.
      destruct (Ascii.compare cb cc) eqn:E2; [|done|done].
      by eapply IH.
    + destruct (Ascii.compare cb cc) eqn:E2; [| |done].
      * apply Ascii.compare_eq_iff in E2 as <-. by rewrite E1.
      * by rewrite (ascii_compare_trans _ _ _ _ E1 E2).
Qed.

Lemma StronglySorted_lookup {A} (R : relation A) (l : list A) :
  StronglySorted R l →
  ∀ i j a b, (i < j)%nat → l !! i = Some a → l !! j = Some b → R a b.
Proof.
  induction 1 as [|x l _ IH Hall]; intros i j a b Hij Hi Hj; [done|].
  destruct j as [|j]; [lia|]. simpl in Hj.
  destruct i as [|i]; simpl in Hi.
  - injection Hi as <-. rewrite Forall_forall in Hall.
    apply Hall. by eapply list_elem_of_lookup_2.
  - eapply IH; [|done..]. lia.
Qed.

(** X16: a list factory hands its model the keyword values ordered by
    the string order of their keys, each key once, and builds and creates
    alike; any inline argument makes it raise [ValueError]. *)
Theorem list_factory_orders_by_key cls_repr c (kw : kwargs) :
  ∃ keys values,
    BaseListFactory_build cls_repr (Some c) [] kw = Return (ListOf c values)
    ∧ BaseListFactory_create cls_repr (Some c) [] kw = Return (ListOf c values)
    ∧ Forall2 (λ k v, kw !! k = Some v) keys values
    ∧ (∀ k, k ∈ keys ↔ is_Some (kw !! k))
    ∧ (∀ i j a b, (i < j)%nat → keys !! i = Some a → keys !! j = Some b →
                  string_le a b ∧ a ≠ b)
    ∧ (∀ a args model_class,
         BaseListFactory_build cls_repr model_class (a :: args) kw
         = Raise (inline_args_error "ListFactory" cls_repr)).
Proof.
  exists (sorted_items kw).*1, (sorted_items kw).*2.
  assert (sorted_items kw ≡ₚ map_to_list kw) as Hperm
    by apply merge_sort_Permutation.
  split; [done|]. split; [done|]. split; [|split; [|split; [|done]]].
  - apply Forall2_fmap, Forall_Forall2_diag, Forall_forall.
    intros [k v] Hin. rewrite Hperm in Hin. by apply elem_of_map_to_list.
  - intros k. rewrite list_elem_of_fmap. split.
    + intros ([k' v] & -> & Hin). rewrite Hperm in Hin.
      apply elem_of_map_to_list in Hin. eauto.
    + intros [v Hv]. exists (k, v). split; [done|].
      rewrite Hperm. by apply elem_of_map_to_list.
  - intros i j a b Hij Hi Hj.
    assert (StronglySorted string_le (sorted_items kw).*1) as Hsorted.
    { eapply (StronglySorted_fmap fst (λ a b : string * value, string_le a.1 b.1));
        [done|].
      apply StronglySorted_merge_sort.
      - intros x y z. apply string_le_trans.
      - intros x y. apply String.leb_total. }
    split; [by eapply (StronglySorted_lookup _ _ Hsorted i j)|].
    assert (NoDup (sorted_items kw).*1) as Hnd.
    { rewrite Hperm. apply NoDup_fst_map_to_list. }
    intros ->. assert (i = j) by by eapply NoDup_lookup. lia.
Qed.

(** ** What the dependency check accumulates *)

Lemma check_parameter_value (ps : odict Param) st name p y :
  y ∈ dd_value (check_step ps st (name, p)).1 name
  ↔ (y ∈ dd_value st.1 name
     ∧ (isinstance_Parameter p = false ∨ get_revdeps p ps = []))
    ∨ (isinstance_Parameter p = true
       ∧ (y ∈ get_revdeps p ps
          ∨ ∃ dep, dep ∈ get_revdeps p ps ∧ y ∈ dd_value st.1 dep)).
Proof.
  destruct st as [deep deps]. unfold check_parameter.
  destruct (isinstance_Parameter p) eqn:Hp; simpl;
    [|split; [by left; eauto|by intros [[? _]|[? _]]]].
  destruct (get_revdeps p ps) as [|dep0 rest] eqn:Hrev.
  { split; [by left; eauto|]. intros [[? _]|[_ [?%elem_of_nil|(? & ?%elem_of_nil & _)]]];
      done. }
  cbv beta iota. rewrite <- Hrev.
  pose proof (union_of_revdeps_spec (get_revdeps p ps) ∅ deep) as Hu.
  unfold union_of_revdeps.
  destruct (foldl _ (∅, deep) (get_revdeps p ps)) as [u d1] eqn:Hfold.
  simpl in Hu. destruct Hu as (Hx & Hv & He & Hn).
  assert (dd_get (od_set d1 name u) name = (u, od_set d1 name u)) as ->.
  { unfold dd_get. rewrite od_get_set. by rewrite decide_True. }
  simpl. rewrite dd_value_set, decide_True by done.
  rewrite elem_of_union, Hx, elem_of_list_to_set, elem_of_empty. split.
  - intros [[[]|?]|?]; right; (split; [done|]); eauto.
  - intros [[_ [?|Hnil]]|[_ [?|?]]]; [done| |by right|by left; right].
    rewrite Hnil in Hrev. done.
Qed.

Lemma od_keys_unique {V} (d : odict V) k v v' :
  NoDup (od_keys d) → (k, v) ∈ d → (k, v') ∈ d → v = v'.
Proof.
  intros Hnd [i Hi]%list_elem_of_lookup [j Hj]%list_elem_of_lookup.
  assert (i = j) as ->.
  { eapply NoDup_lookup; [exact Hnd|..]; unfold od_keys;
      rewrite list_lookup_fmap; [by rewrite Hi|by rewrite Hj]. }
  congruence.
Qed.

Lemma od_get_unique {V} (d : odict V) k v :
  NoDup (od_keys d) → (k, v) ∈ d → od_get d k = Some v.
Proof.
  intros Hnd Hin.
  destruct (od_keys_get d k) as [v' Hv'].
  { unfold od_keys. apply list_elem_of_fmap. by exists (k, v). }
  apply od_get_elem in Hv' as Hin'.
  by rewrite (od_keys_unique _ _ _ _ Hnd Hin Hin').
Qed.

(** After the loop has gone through a prefix of the mapping, the set kept
    for a name of the prefix is what [accumulated] describes, and no other
    name has a non-empty set. *)
Lemma check_loop_accumulated (ps : odict Param) :
  NoDup (od_keys ps) →
  ∀ l rest, ps = (l ++ rest)%list →
  ∀ n y, y ∈ dd_value (foldl (check_step ps) ([], []) l).1 n
         ↔ n ∈ l.*1 ∧ accumulated isinstance_Parameter get_revdeps ps n y.
Proof.
  intros Hnd l. induction l as [|[name p] l IH] using rev_ind; intros rest Hps n y.
  - simpl. unfold dd_value. simpl. rewrite elem_of_empty, elem_of_nil. tauto.
  - rewrite foldl_app. cbn [foldl].
    rewrite <- app_assoc in Hps. cbn [app] in Hps.
    specialize (IH _ Hps).
    assert (od_keys ps = (l.*1 ++ name :: rest.*1)%list) as Hkeys.
    { unfold od_keys. rewrite Hps, fmap_app. done. }
    assert (name ∉ l.*1) as Hfresh.
    { rewrite Hkeys in Hnd. apply NoDup_app in Hnd as (_ & Hdis & _).
      intros Hin. apply (Hdis _ Hin). by left. }
    assert ((name, p) ∈ ps) as Hin.
    { rewrite Hps. apply elem_of_app. right. by left. }
    assert (od_keys ps !! length l = Some name) as Hpos.
    { rewrite Hkeys, lookup_app_r by (by rewrite length_fmap).
      by rewrite length_fmap, Nat.sub_diag. }
    rewrite fmap_app, elem_of_app. cbn [fmap list_fmap fst].
    rewrite list_elem_of_singleton.
    destruct (decide (n = name)) as [->|Hne].
    + rewrite check_parameter_value. split.
      * intros [[Hold _]|[Hp Hcase]].
        { apply IH in Hold as [? _]. done. }
        split; [by right|].
        destruct Hcase as [Hy|(dep & Hdep & Hy)].
        -- apply accumulated_direct. by exists p.
        -- apply IH in Hy as [Hdepl Hacc].
           eapply accumulated_through; [by exists p| |done].
           apply list_elem_of_lookup in Hdepl as [i Hi].
           exists i, (length l). split; [|split; [|done]].
           ++ apply lookup_lt_Some in Hi. by rewrite length_fmap in Hi.
           ++ rewrite Hkeys. by apply lookup_app_l_Some.
      * intros [_ Hacc]. right.
        inversion Hacc as [n0 y0 (p' & Hp' & Hinst & Hy)
                          |n0 d y0 (p' & Hp' & Hinst & Hd) Hbefore Hrest];
          subst; rewrite (od_keys_unique _ _ _ _ Hnd Hp' Hin) in *.
        -- split; [done|by left].
        -- split; [done|]. right. exists d. split; [done|].
           apply IH. split; [|done].
           destruct Hbefore as (i & j & Hij & Hi & Hj).
           assert (j = length l) as -> by by eapply NoDup_lookup.
           rewrite Hkeys, lookup_app_l in Hi by (by rewrite length_fmap).
           by eapply list_elem_of_lookup_2.
    + destruct (check_parameter_spec isinstance_Parameter get_revdeps ps
                  (foldl (check_step ps) ([], []) l) name p) as (_ & Hk & _).
      rewrite Hk, IH by done. split; [intros [? ?]; split; [by left|done]|].
      intros [[?|?] ?]; done.
Qed.

Lemma accumulated_tc (ps : odict Param) n y :
  accumulated isinstance_Parameter get_revdeps ps n y → tc (revdep ps) n y.
Proof.
  induction 1 as [n y H|n d y H _ _ IH]; [by apply tc_once|by eapply tc_l].
Qed.

Lemma cyclic_names_accumulated (ps : odict Param) :
  NoDup (od_keys ps) →
  NoDup (cyclic_names (foldl (check_step ps) ([], []) ps).1)
  ∧ ∀ n, n ∈ cyclic_names (foldl (check_step ps) ([], []) ps).1
         ↔ accumulated isinstance_Parameter get_revdeps ps n n.
Proof.
  intros Hnd.
  pose proof (check_loop_NoDup isinstance_Parameter get_revdeps ps ps ([], [])
                (NoDup_nil_2)) as Hkeys.
  pose proof (check_loop_accumulated ps Hnd ps [] (eq_sym (app_nil_r ps)))
    as Hacc.
  destruct (foldl (check_step ps) ([], []) ps) as [deep deps]; simpl in *.
  split; [by apply cyclic_names_NoDup|].
  intros n. split.
  - intros (s & Hs & Hn)%cyclic_names_inv.
    apply (Hacc n n). unfold dd_value.
    by rewrite (od_get_unique _ _ _ Hkeys Hs).
  - intros H. apply cyclic_names_elem, Hacc. split; [|done].
    inversion H as [n0 y0 (p & Hp & _)|n0 d y0 (p & Hp & _) _ _]; subst;
      apply list_elem_of_fmap; by exists (n, p).
Qed.

(** X17: what the dependency check detects, exactly.  It raises if and
    only if some parameter [n] reaches itself through a chain of
    reverse-dependencies on which every parameter after [n] was declared
    before the parameter that names it; the message lists exactly these
    parameters, each once, and every one of them lies on a real cycle. *)
Theorem cyclic_check_characterised factory_repr (ps : odict Param) :
  NoDup (od_keys ps) →
  match check_dependencies factory_repr ps with
  | Return deps =>
      ∀ n, ¬ accumulated isinstance_Parameter get_revdeps ps n n
  | Raise e =>
      ∃ cyclic,
        e = CyclicDefinitionError (cyclic_message factory_repr cyclic)
        ∧ cyclic ≠ [] ∧ NoDup cyclic
        ∧ (∀ n, n ∈ cyclic
                ↔ accumulated isinstance_Parameter get_revdeps ps n n)
        ∧ (∀ n, n ∈ cyclic → tc (revdep ps) n n)
  end.
Proof.
  intros Hnd. unfold _check_parameter_dependencies.
  destruct (cyclic_names_accumulated ps Hnd) as [Hnames Hcyc].
  destruct (foldl (check_step ps) ([], []) ps) as [deep deps]; simpl in *.
  destruct (cyclic_names deep) as [|c cs] eqn:Hc.
  - intros n Hn. apply Hcyc in Hn. by apply elem_of_nil in Hn.
  - exists (c :: cs). split; [done|]. split; [done|]. split; [done|].
    split; [done|]. intros n Hn. by apply accumulated_tc, Hcyc.
Qed.

(** X18: the check makes a single pass in declaration order, so a cycle
    through three parameters declared in the order of the cycle is not
    detected: the check returns although each of the three depends on
    itself. *)
Theorem cycle_in_declaration_order_undetected factory_repr a b c pa pb pc :
  a ≠ b → b ≠ c → a ≠ c →
  isinstance_Parameter pa = true → isinstance_Parameter pb = true →
  isinstance_Parameter pc = true →
  get_revdeps pa [(a, pa); (b, pb); (c, pc)] = [b] →
  get_revdeps pb [(a, pa); (b, pb); (c, pc)] = [c] →
  get_revdeps pc [(a, pa); (b, pb); (c, pc)] = [a] →
  tc (depends isinstance_Parameter get_revdeps [(a, pa); (b, pb); (c, pc)]) a a
  ∧ ∃ deps,
      _check_parameter_dependencies isinstance_Parameter get_revdeps
        factory_repr [(a, pa); (b, pb); (c, pc)] = Return deps.
Proof.
  intros Hab Hbc Hac Hpa Hpb Hpc Ha Hb Hc.
  set (ps := [(a, pa); (b, pb); (c, pc)]) in *.
  assert (revdep ps a b) as Hab'.
  { exists pa. split; [by left|]. split; [done|]. rewrite Ha. by left. }
  assert (revdep ps b c) as Hbc'.
  { exists pb. split; [right; by left|]. split; [done|]. rewrite Hb. by left. }
  assert (revdep ps c a) as Hca'.
  { exists pc. split; [right; right; by left|]. split; [done|].
    rewrite Hc. by left. }
  split; [eapply tc_l; [exact Hab'|eapply tc_l; [exact Hbc'|by apply tc_once]]|].
  assert (∀ n y, revdep ps n y →
                 (n = a ∧ y = b) ∨ (n = b ∧ y = c) ∨ (n = c ∧ y = a)) as Hedges.
  { intros n y (p & Hin & _ & Hy). unfold ps in Hin.
    repeat (apply elem_of_cons in Hin as [[= -> ->]|Hin]);
      [rewrite Ha in Hy|rewrite Hb in Hy|rewrite Hc in Hy|by apply elem_of_nil in Hin];
      apply list_elem_of_singleton in Hy; tauto. }
  assert (∀ d n, declared_before ps d n →
                 (d = a ∧ n = b) ∨ (d = a ∧ n = c) ∨ (d = b ∧ n = c)) as Horder.
  { intros d n (i & j & Hij & Hi & Hj). unfold ps in Hi, Hj. cbn in Hi, Hj.
    destruct j as [|[|[|j]]]; [lia| | |done];
      destruct i as [|[|i]]; try lia;
      injection Hi as <-; injection Hj as <-; tauto. }
  assert (∀ n y, accumulated isinstance_Parameter get_revdeps ps n y →
                 (n = a ∧ y = b) ∨ (n = b ∧ y = c)
                 ∨ (n = c ∧ (y = a ∨ y = b))) as Hacc.
  { induction 1 as [n y H|n d y H Hbefore _ IH].
    - apply Hedges in H. tauto.
    - apply Hedges in H. apply Horder in Hbefore.
      destruct H as [[-> ->]|[[-> ->]|[-> ->]]];
        destruct Hbefore as [[? ?]|[[? ?]|[? ?]]]; try congruence.
      destruct IH as [[_ ->]|[[? _]|[? _]]]; [tauto|congruence..]. }
  assert (NoDup (od_keys ps)) as Hnd.
  { unfold ps, od_keys. cbn.
    repeat (apply NoDup_cons; split); [..|apply NoDup_nil_2];
      rewrite ?not_elem_of_cons; repeat split; try done; apply not_elem_of_nil. }
  unfold _check_parameter_dependencies.
  destruct (cyclic_names_accumulated ps Hnd) as [_ Hcyc].
  destruct (foldl (check_step ps) ([], []) ps) as [deep deps]; simpl in *.
  destruct (cyclic_names deep) as [|n ns]; [by eexists|].
  exfalso. destruct (Hacc n n) as [[? ?]|[[? ?]|[? [?|?]]]];
    [apply Hcyc; by left|congruence..].
Qed.

Lemma add_deps_value name revs : ∀ (deps : odict (gset string)) x y,
  y ∈ dd_value (add_deps deps name revs) x
  ↔ y ∈ dd_value deps x ∨ (y = name ∧ x ∈ revs).
Proof.
  unfold add_deps.
  induction revs as [|dep revs IH]; intros deps x y; simpl.
  - rewrite elem_of_nil. tauto.
  - destruct (dd_get_spec deps dep) as (Hs & Hv & _).
    destruct (dd_get deps dep) as [s d1]; simpl in *. subst s.
    rewrite IH, dd_value_set, elem_of_cons.
    destruct (decide (dep = x)) as [->|Hne].
    + rewrite elem_of_union, elem_of_singleton. tauto.
    + rewrite Hv. split; [tauto|]. intros [?|[? [?|?]]]; [tauto|congruence|tauto].
Qed.

Lemma check_parameter_deps (ps : odict Param) st name p x y :
  y ∈ dd_value (check_step ps st (name, p)).2 x
  ↔ y ∈ dd_value st.2 x
    ∨ (y = name ∧ isinstance_Parameter p = true ∧ x ∈ get_revdeps p ps).
Proof.
  destruct st as [deep deps]. unfold check_parameter.
  destruct (isinstance_Parameter p) eqn:Hp; simpl;
    [|split; [by left|by intros [?|(_ & ? & _)]]].
  destruct (get_revdeps p ps) as [|dep0 rest] eqn:Hrev.
  { simpl. rewrite elem_of_nil. tauto. }
  cbv beta iota. rewrite <- Hrev.
  unfold union_of_revdeps.
  destruct (foldl _ (∅, deep) (get_revdeps p ps)) as [u d1].
  destruct (dd_get (od_set d1 name u) name) as [s d2]. simpl.
  rewrite add_deps_value. tauto.
Qed.

Lemma check_loop_deps (ps : odict Param) : ∀ l x y,
  y ∈ dd_value (foldl (check_step ps) ([], []) l).2 x
  ↔ ∃ p, (y, p) ∈ l ∧ isinstance_Parameter p = true ∧ x ∈ get_revdeps p ps.
Proof.
  induction l as [|[name p] l IH] using rev_ind; intros x y.
  - simpl. unfold dd_value. simpl. rewrite elem_of_empty.
    split; [done|]. by intros (p & ?%elem_of_nil & _).
  - rewrite foldl_app. cbn [foldl]. rewrite check_parameter_deps, IH. split.
    + intros [(p' & Hin & ?)|(-> & ? & ?)].
      * exists p'. split; [apply elem_of_app; by left|done].
      * exists p. split; [apply elem_of_app; right; by left|done].
    + intros (p' & [Hin|Hin]%elem_of_app & Hp & Hx).
      * left. eauto.
      * apply list_elem_of_singleton in Hin. injection Hin as -> ->. by right.
Qed.

(** X19: when the check passes, the mapping it returns is the declared
    reverse-dependencies turned around: [y] is recorded under [x] exactly
    when the parameter [y] names [x] among its reverse-dependencies. *)
Theorem dependencies_are_reversed factory_repr (ps : odict Param) deps :
  check_dependencies factory_repr ps = Return deps →
  ∀ x y, y ∈ dd_value deps x ↔ revdep ps y x.
Proof.
  unfold _check_parameter_dependencies. intros H x y.
  pose proof (check_loop_deps ps ps x y) as Hdeps.
  destruct (foldl (check_step ps) ([], []) ps) as [deep deps0]; simpl in *.
  destruct (cyclic_names deep); [|done]. injection H as <-.
  by rewrite Hdeps.
Qed.

(** ** Concrete definitions *)

Lemma reachable_concrete_model σ :
  is_reachable σ →
  ∀ f cls, classes σ !! f = Some cls → abstract (_meta cls) = false →
           is_Some (model (_meta cls)).
Proof.
  induction 1 as [|body σ _ IH|fuel f σ Hr IH Hf Hfuel
                  |fuel f value force σ Hr IH Hf Hfuel|s klass σ _ IH].
  - intros f cls Hf. by destruct f.
  - intros f cls Hf Habs.
    destruct (new_class body σ) as [[h|e] σ'] eqn:Hnew; cycle 1.
    { pose proof (new_class_spec wrap sort_ordered_objects isinstance_Parameter
                    get_revdeps parse_declarations body σ) as Hs.
      rewrite Hnew in Hs. simpl in Hf. subst σ'. by eapply IH. }
    simpl in Hf.
    pose proof Hnew as Hinv.
    apply new_class_inv in Hinv as (new & Hh & Hclasses & _).
    rewrite (new_class_lookup _ _ _ _ _ f Hnew Hclasses) in Hf.
    destruct (decide (f = h)) as [->|]; [|by eapply IH].
    injection Hf as ->.
    assert (classes σ' !! h = Some cls) as Hcls.
    { rewrite (new_class_lookup _ _ _ _ _ h Hnew Hclasses).
      by rewrite decide_True. }
    destruct (new_class_options _ _ _ _ _ Hnew Hcls)
      as (col & opts & pre & post & _ & _ & _ & Hmodel & Hcolabs & Hmeta).
    rewrite Hmeta in Habs |- *. cbn [abstract model] in *.
    rewrite Hmodel. rewrite Hcolabs in Habs.
    by destruct (o_model opts).
  - pose proof (reachable_wf _ _ _ _ _ _ Hr) as Hwf.
    destruct (next_sequence_spec σ fuel f Hwf Hf Hfuel) as (σ' & -> & _ & Hsame & _).
    intros g cls' Hg Habs.
    destruct (same_definitions_class _ _ _ _ Hsame Hg) as (cls & Hcls & Hfg).
    destruct (forget_counter_fields _ _ Hfg) as (_ & _ & _ & _ & Ha & Hm).
    rewrite <- Hm. eapply IH; [done|]. by rewrite Ha.
  - pose proof (reachable_wf _ _ _ _ _ _ Hr) as Hwf.
    destruct Hf as [fcls Hfcls].
    destruct (wf_reference _ Hwf f ltac:(by exists fcls)) as [[rcls Hrcls] _].
    destruct (reset_sequence_spec σ fuel f value force fcls rcls
                Hwf Hfcls Hrcls Hfuel) as (σ' & _ & Hsame & _ & _ & Hres).
    assert ((reset_sequence fuel f value force σ).2 = σ') as ->.
    { destruct (bool_decide (reference σ f ≠ f) && negb force);
        by destruct Hres as [-> _]. }
    intros g cls' Hg Habs.
    destruct (same_definitions_class _ _ _ _ Hsame Hg) as (cls & Hcls & Hfg).
    destruct (forget_counter_fields _ _ Hfg) as (_ & _ & _ & _ & Ha & Hm).
    rewrite <- Hm. eapply IH; [done|]. by rewrite Ha.
  - intros f cls Hf Habs.
    destruct (classes σ !! klass) as [kcls|] eqn:Hk; cycle 1.
    { unfold use_strategy in Hf. rewrite Hk in Hf. by eapply IH. }
    rewrite (use_strategy_lookup _ _ _ _ _ Hk) in Hf.
    destruct (decide (f = klass)) as [->|]; [|by eapply IH].
    injection Hf as <-. simpl in *. by eapply IH.
Qed.

(** X27: a concrete definition always has a model.  [contribute_to_class]
    forces [abstract] whenever the resolved model is [None], and neither the
    sequence interface nor [use_strategy] touches either option; so in every
    registry a program can reach, a definition that is not abstract has a
    model class.  For such a definition [instantiate] under the build or the
    create strategy, with the hooks [BaseFactory] provides, returns
    [model( *args, **kwargs )]: the call on [None] never happens. *)
Theorem concrete_definition_has_model σ f cls :
  is_reachable σ → classes σ !! f = Some cls → abstract (_meta cls) = false →
  ∃ m, model (_meta cls) = Some m
    ∧ ∀ strategy_name args kw,
        strategy_name ∈ [BUILD_STRATEGY; CREATE_STRATEGY] →
        _build cls = call_model → _create cls = call_model →
        instantiate cls strategy_name args kw = Return (Instance m args kw).
Proof.
  intros Hr Hf Habs.
  destruct (reachable_concrete_model σ Hr f cls Hf Habs) as [m Hm].
  exists m. split; [done|].
  intros s args kw Hs Hb Hc. unfold instantiate, get_model_class.
  rewrite Hm, Hb, Hc.
  apply elem_of_cons in Hs as [->|Hs]; [done|].
  apply elem_of_cons in Hs as [->|Hs]; [done|].
  by apply elem_of_nil in Hs.
Qed.

End Further.

(** * The further properties on concrete definitions *)


Lemma base_store_reachable :
  reachable id id (λ _ : Trait, true) trait_revdeps partition_declarations
    base_store.
Proof. apply reachable_class, reachable_start. Qed.

Lemma three_factories_reachable :
  reachable id id (λ _ : Trait, true) trait_revdeps partition_declarations
    three_factories.
Proof. do 3 apply reachable_class. apply base_store_reachable. Qed.

(** X1 on concrete definitions: a batch of two from the abstract
    [Factory] raises, a batch of none returns the empty list, and a batch
    created from [StubFactory] is unsupported. *)
Lemma generate_batch_outcomes_witness :
  generate_batch resolve_and_instantiate 0%nat BUILD_STRATEGY 2 ∅ base_store
  = (Raise (FactoryError (abstract_error_message "Factory")), base_store)
  ∧ generate_batch resolve_and_instantiate 0%nat BUILD_STRATEGY 0 ∅ base_store
    = (Return [], base_store)
  ∧ generate_batch resolve_and_instantiate 1%nat CREATE_STRATEGY 2 ∅ stub_store
    = (Raise UnsupportedStrategy, stub_store).
Proof.
  set (cls := default pipeline_class (classes base_store !! 0%nat)).
  set (scls := default pipeline_class (classes stub_store !! 1%nat)).
  assert (classes base_store !! 0%nat = Some cls) as Hcls
    by (vm_compute; reflexivity).
  assert (classes stub_store !! 1%nat = Some scls) as Hscls
    by (vm_compute; reflexivity).
  assert (BUILD_STRATEGY ∈ [STUB_STRATEGY; BUILD_STRATEGY; CREATE_STRATEGY])
    as Hbuild by (apply (bool_decide_unpack _); vm_compute; exact I).
  assert (CREATE_STRATEGY ∈ [STUB_STRATEGY; BUILD_STRATEGY; CREATE_STRATEGY])
    as Hcreate by (apply (bool_decide_unpack _); vm_compute; exact I).
  split; [|split].
  - destruct (generate_batch_outcomes resolve_and_instantiate base_store 0%nat
                cls BUILD_STRATEGY 2 ∅ Hcls Hbuild) as (_ & _ & Habstract & _).
    etransitivity; [apply Habstract; vm_compute; reflexivity|].
    vm_compute; reflexivity.
  - destruct (generate_batch_outcomes resolve_and_instantiate base_store 0%nat
                cls BUILD_STRATEGY 0 ∅ Hcls Hbuild) as (_ & _ & Habstract & _).
    etransitivity; [apply Habstract; vm_compute; reflexivity|].
    vm_compute; reflexivity.
  - destruct (generate_batch_outcomes resolve_and_instantiate stub_store 1%nat
                scls CREATE_STRATEGY 2 ∅ Hscls Hcreate) as (_ & _ & _ & Hstub).
    etransitivity; [apply Hstub; vm_compute; reflexivity|].
    vm_compute; reflexivity.
Defined.

(** X2 on concrete definitions: [UserFactory()] is
    [UserFactory.generate('create')]. *)
Lemma call_is_generate_with_own_strategy_witness :
  FactoryMetaClass_call resolve_and_instantiate 1%nat ∅ three_factories
  = generate resolve_and_instantiate 1%nat CREATE_STRATEGY ∅ three_factories.
Proof.
  assert (∃ cls, classes three_factories !! 1%nat = Some cls
                 ∧ strategy (_meta cls) = CREATE_STRATEGY) as (cls & Hcls & Hs)
    by (eexists; split; vm_compute; reflexivity).
  pose proof (call_is_generate_with_own_strategy resolve_and_instantiate
                three_factories 1%nat cls 0 ∅ Hcls) as Hcall.
  rewrite Hs in Hcall. exact Hcall.
Defined.

(** X3 on concrete definitions: [AdminFactory] draws the first value of the
    counter owned by [UserFactory]. *)
Lemma reachable_sequence_calls_succeed_witness :
  reference three_factories 2%nat = 1%nat
  ∧ ∃ σ', next_sequence 2 2%nat three_factories = (Return 0, σ').
Proof.
  split; [reflexivity|].
  edestruct (reachable_sequence_calls_succeed id id (λ _ : Trait, true)
               trait_revdeps partition_declarations three_factories 2%nat)
    as (_ & _ & σ' & Hnext & _).
  - apply three_factories_reachable.
  - eexists; vm_compute; reflexivity.
  - exists σ'. exact Hnext.
Defined.

(** X4 on concrete definitions: calls on [UserFactory] and [AdminFactory],
    a forced reset included, leave [OrderFactory] at 0. *)
Lemma unrelated_sequences_untouched_witness :
  cursor (run 2 [Next 1%nat; Next 2%nat; Reset 2%nat (Some 9) true; Next 1%nat]
            three_factories).2 3%nat
  = cursor three_factories 3%nat.
Proof.
  apply (unrelated_sequences_untouched three_factories 2).
  - apply three_factories_wf.
  - lia.
  - eexists; vm_compute; reflexivity.
  - reflexivity.
  - repeat constructor; try (eexists; vm_compute; reflexivity);
      vm_compute; discriminate.
Defined.

(** X5 on concrete definitions: [PremiumUserFactory(UserFactory)] has no
    [Meta]; it takes model and strategy from [UserFactory] and is not
    abstract. *)
Lemma options_resolved_against_base_witness :
  ∃ σ' cls,
    new_class premium_body three_factories = (Return 4%nat, σ')
    ∧ classes σ' !! 4%nat = Some cls
    ∧ model (_meta cls) = Some User
    ∧ strategy (_meta cls) = CREATE_STRATEGY
    ∧ abstract (_meta cls) = false.
Proof.
  eexists _, _.
  split; [vm_compute; reflexivity|]. split; [vm_compute; reflexivity|].
  edestruct (options_resolved_against_base id id (λ _ : Trait, true)
               trait_revdeps partition_declarations premium_body
               three_factories 4%nat)
    as (Hmodel & Hstrategy & _ & _ & _ & _ & _ & _ & _ & Habstract).
  - vm_compute; reflexivity.
  - vm_compute; reflexivity.
  - split; [rewrite Hmodel; vm_compute; reflexivity|].
    split; [rewrite Hstrategy; vm_compute; reflexivity|].
    rewrite Habstract. vm_compute; reflexivity.
Defined.


(** X7 on concrete definitions: after [use_strategy('build')(UserFactory)]
    the earlier [AdminFactory] still creates, and a new
    [PremiumUserFactory(UserFactory)] builds. *)
Lemma use_strategy_effect_witness :
  ∃ σ' cls' admin,
    use_strategy BUILD_STRATEGY 1%nat three_factories = (Return 1%nat, σ')
    ∧ classes σ' !! 1%nat = Some cls'
    ∧ strategy (_meta cls') = BUILD_STRATEGY
    ∧ classes σ' !! 2%nat = Some admin
    ∧ strategy (_meta admin) = CREATE_STRATEGY
    ∧ ∀ h σ'' hcls,
        new_class premium_body σ' = (Return h, σ'') →
        classes σ'' !! h = Some hcls →
        strategy (_meta hcls) = BUILD_STRATEGY.
Proof.
  edestruct (use_strategy_effect id id (λ _ : Trait, true) trait_revdeps
               partition_declarations three_factories 1%nat)
    as (σ' & cls' & Hrun & Hcls' & Hs & _ & Hothers & _ & Hlater).
  - vm_compute; reflexivity.
  - exists σ', cls'. eexists.
    split; [exact Hrun|]. split; [exact Hcls'|]. split; [exact Hs|].
    split; [rewrite (Hothers 2%nat) by discriminate; vm_compute; reflexivity|].
    split; [reflexivity|].
    intros h σ'' hcls. apply Hlater; reflexivity.
Defined.

(** X8 on concrete definitions: [EmployeeFactory(PersonFactory)] overrides
    [age], inherits [name], and neither the private [_cache] nor the class
    method [make] is a declaration. *)
Lemma declarations_precedence_witness :
  ∃ σ' cls,
    new_class employee_body person_store = (Return 2%nat, σ')
    ∧ classes σ' !! 2%nat = Some cls
    ∧ od_get (base_declarations (_meta cls)) "age" = Some (Plain (PyInt 40))
    ∧ od_get (base_declarations (_meta cls)) "name" = Some (Plain (PyStr "anon"))
    ∧ od_get (base_declarations (_meta cls)) "make" = None.
Proof.
  assert (reachable id id (λ _ : Trait, true) trait_revdeps
            partition_declarations person_store) as Hreach
    by apply reachable_class, base_store_reachable.
  set (σ' := (new_class employee_body person_store).2).
  set (cls := default pipeline_class (classes σ' !! 2%nat)).
  assert (new_class employee_body person_store = (Return 2%nat, σ')) as Hnew
    by (vm_compute; reflexivity).
  assert (classes σ' !! 2%nat = Some cls) as Hcls by (vm_compute; reflexivity).
  exists σ', cls. split; [exact Hnew|]. split; [exact Hcls|].
  split; [|split].
  - pose proof (declarations_precedence id id (λ _ : Trait, true) trait_revdeps
                  partition_declarations employee_body person_store 2%nat σ' cls
                  "age" Hreach Hnew Hcls) as H.
    vm_compute in H. vm_compute. exact H.
  - pose proof (declarations_precedence id id (λ _ : Trait, true) trait_revdeps
                  partition_declarations employee_body person_store 2%nat σ' cls
                  "name" Hreach Hnew Hcls) as H.
    vm_compute in H. vm_compute. exact H.
  - pose proof (declarations_precedence id id (λ _ : Trait, true) trait_revdeps
                  partition_declarations employee_body person_store 2%nat σ' cls
                  "make" Hreach Hnew Hcls) as H.
    vm_compute in H. vm_compute. apply H. right. split; reflexivity.
Defined.

(** X9 on concrete definitions: asked for [name], [email] and [nick] with
    [email] to be skipped, the introspector returns declarations for
    [name] and [nick] only, and the merge goes through. *)
Lemma introspector_returns_asked_fields_witness :
  ∃ decls merged,
    build_declarations FieldIntrospector 1%nat (Some User)
      (list_to_set ["name"; "email"; "nick"]) (list_to_set ["email"])
    = Return decls
    ∧ (∀ k, k ∈ od_keys decls → k ≠ "email")
    ∧ merge_auto_declarations FieldIntrospector
        (list_to_set ["name"; "email"; "nick"]) decls []
      = Return merged.
Proof.
  set (decls := match build_declarations FieldIntrospector 1%nat (Some User)
                        (list_to_set ["name"; "email"; "nick"])
                        (list_to_set ["email"]) with
                | Return d => d
                | Raise _ => []
                end).
  assert (build_declarations FieldIntrospector 1%nat (Some User)
            (list_to_set ["name"; "email"; "nick"]) (list_to_set ["email"])
          = Return decls) as Hbuild by (vm_compute; reflexivity).
  destruct (introspector_returns_asked_fields _ _ _ _ _ _ Hbuild)
    as (Hasked & _ & Hmerge).
  destruct (Hmerge []) as (merged & Hmerged & _).
  exists decls, merged. split; [exact Hbuild|]. split; [|exact Hmerged].
  intros k Hk ->. apply (Hasked _ Hk). vm_compute. reflexivity.
Defined.

(** X10 on concrete definitions: [Factory.auto_factory(User)] raises. *)
Lemma auto_factory_needs_introspector_witness :
  ∃ msg,
    auto_factory id id (λ _ : Trait, true) trait_revdeps partition_declarations
      0%nat User true [] [] None [] base_store
    = (Raise (NotImplementedError msg), base_store).
Proof.
  set (cls := default pipeline_class (classes base_store !! 0%nat)).
  assert (classes base_store !! 0%nat = Some cls) as Hcls
    by (vm_compute; reflexivity).
  assert (introspector_class (_meta cls) = None) as Hic
    by (vm_compute; reflexivity).
  assert (DEFAULT_INTROSPECTOR_CLASS (_options_class cls) = BaseIntrospector)
    as Hdefault by (vm_compute; reflexivity).
  destruct (auto_factory_needs_introspector id id (λ _ : Trait, true)
              trait_revdeps partition_declarations base_store 0%nat cls
              User [] [] [] base_store_reachable Hcls Hic) as [_ Hbase].
  exact (Hbase Hdefault).
Defined.

(** With an options class that brings an introspector, as the subclasses
    of [ModelFactory] get from its [_options_class], the same call
    registers a definition with the fields the introspector lists. *)
Lemma auto_factory_with_options_class :
  ∃ σ' cls,
    auto_factory id id (λ _ : Trait, true) trait_revdeps partition_declarations
      1%nat User true [] [] None [] model_store
    = (Return 2%nat, σ')
    ∧ classes σ' !! 2%nat = Some cls
    ∧ od_keys (base_declarations (_meta cls)) ≡ₚ ["name"; "email"].
Proof.
  eexists _, _. split; [vm_compute; reflexivity|].
  split; [vm_compute; reflexivity|].
  vm_compute. apply perm_swap.
Qed.

(** X11 on concrete definitions: without default fields,
    [Factory.auto_factory(User, default_auto_fields=False, name='anon')]
    registers [UserAutoFactory] with the override as its declaration. *)
Lemma auto_factory_definition_witness :
  ∃ σ' hcls,
    auto_factory id id (λ _ : Trait, true) trait_revdeps partition_declarations
      0%nat User false [] [] None [("name", Plain (PyStr "anon"))] base_store
    = (Return 1%nat, σ')
    ∧ classes σ' !! 1%nat = Some hcls
    ∧ __name__ hcls = "UserAutoFactory"
    ∧ model (_meta hcls) = Some User
    ∧ abstract (_meta hcls) = false
    ∧ od_get (base_declarations (_meta hcls)) "name" = Some (Plain (PyStr "anon")).
Proof.
  set (σ' := (auto_factory id id (λ _ : Trait, true) trait_revdeps
                partition_declarations 0%nat User false [] [] None
                [("name", Plain (PyStr "anon"))] base_store).2).
  set (hcls := default pipeline_class (classes σ' !! 1%nat)).
  assert (auto_factory id id (λ _ : Trait, true) trait_revdeps
            partition_declarations 0%nat User false [] [] None
            [("name", Plain (PyStr "anon"))] base_store
          = (Return 1%nat, σ')) as Hnew by (vm_compute; reflexivity).
  assert (classes σ' !! 1%nat = Some hcls) as Hh by (vm_compute; reflexivity).
  destruct (auto_factory_definition id id (λ _ : Trait, true) trait_revdeps
              partition_declarations base_store 0%nat User false [] [] None
              [("name", Plain (PyStr "anon"))] 1%nat σ' hcls
              base_store_reachable Hnew Hh)
    as (Hname & _ & _ & Hmodel & Habstract & _ & _ & _ & _ & Hdecl).
  exists σ', hcls. split; [exact Hnew|]. split; [exact Hh|].
  split; [exact Hname|]. split; [exact Hmodel|]. split; [exact Habstract|].
  apply Hdecl. vm_compute; reflexivity.
Defined.

(** X12 on concrete definitions: without [kind], the rename of the
    pipeline factory fails with [KeyError('kind')]. *)
Lemma prepare_arguments_fails_with_KeyError_witness :
  prepare_arguments pipeline_class {[ "name" := PyStr "n" ]}
  = Raise (KeyError "kind")
  ∧ ∃ k, KeyError "kind" = KeyError k
         ∧ (k ∈ od_keys (rename (_meta pipeline_class))
            ∨ k ∈ inline_args (_meta pipeline_class)).
Proof.
  assert (prepare_arguments pipeline_class {[ "name" := PyStr "n" ]}
          = Raise (KeyError "kind")) as H by (vm_compute; reflexivity).
  split; [exact H|].
  exact (prepare_arguments_fails_with_KeyError pipeline_class _ _ H).
Defined.

(** X13 on concrete definitions: [kind=SKIP] cannot be renamed. *)
Lemma renaming_hidden_attribute_fails_witness :
  prepare_arguments pipeline_class
    {[ "name" := PyStr "n"; "kind" := SKIP ]}
  = Raise (KeyError "kind").
Proof.
  apply (renaming_hidden_attribute_fails pipeline_class _ "kind" "type" []).
  - reflexivity.
  - intros v Hv. right. right.
    assert (({[ "name" := PyStr "n"; "kind" := SKIP ]} : kwargs) !! "kind"
            = Some SKIP) as Hk by (vm_compute; reflexivity).
    change (({[ "name" := PyStr "n"; "kind" := SKIP ]} : kwargs) !! "kind"
            = Some v) in Hv.
    congruence.
Defined.

(** X14 on concrete definitions: the value 3 passed by the pipeline
    factory is the visible attribute [age]. *)
Lemma hidden_values_never_passed_witness :
  PyInt 3 ≠ SKIP
  ∧ ∃ k, _adjust_kwargs pipeline_class pipeline_attributes !! k = Some (PyInt 3)
         ∧ (k ∉ exclude (_meta pipeline_class))
         ∧ (k ∉ od_keys (parameters (_meta pipeline_class))).
Proof.
  apply (hidden_values_never_passed pipeline_class pipeline_attributes
           [PyStr "n"] pipeline_kwargs).
  - vm_compute; reflexivity.
  - apply (bool_decide_unpack _). vm_compute. exact I.
Defined.

(** X15 on concrete definitions: a dictionary factory with
    [inline_args = ('name',)] cannot build. *)
Lemma dict_factory_instantiation_witness :
  instantiate (dict_factory_class "NamedDictFactory" ["name"]) BUILD_STRATEGY
    [PyStr "n"] {[ "size" := PyInt 1 ]}
  = Raise (inline_args_error "DictFactory"
             "<class 'factory.base.NamedDictFactory'>")
  ∧ instantiate (dict_factory_class "NamedDictFactory" ["name"]) STUB_STRATEGY
      [PyStr "n"] {[ "size" := PyInt 1 ]}
    = Return (Stub {[ "size" := PyInt 1 ]}).
Proof.
  destruct (dict_factory_instantiation
              (dict_factory_class "NamedDictFactory" ["name"])
              "<class 'factory.base.NamedDictFactory'>"
              {[ "name" := PyStr "n"; "size" := PyInt 1 ]}
              [PyStr "n"] {[ "size" := PyInt 1 ]})
    as (_ & Hbuild & Hstub).
  - reflexivity.
  - reflexivity.
  - vm_compute; reflexivity.
  - split; [exact Hbuild|exact Hstub].
Defined.

(** The order is that of strings: the value under ["10"] comes before the
    value under ["2"]. *)
Lemma list_factory_ten_before_two :
  BaseListFactory_build "<class 'factory.base.ListFactory'>"
    (Some {| cls_id := 8; cls_name := "list"; cls_mro_tail := [object] |}) []
    {[ "2" := PyStr "second"; "10" := PyStr "tenth" ]}
  = Return
      (ListOf {| cls_id := 8; cls_name := "list"; cls_mro_tail := [object] |}
         [PyStr "tenth"; PyStr "second"]).
Proof. vm_compute. reflexivity. Qed.

(** X17 on concrete definitions: of the two traits that name each other,
    the check reports the later one. *)
Lemma cyclic_check_characterised_witness :
  ∃ cyclic,
    _check_parameter_dependencies (λ _ : Trait, true) trait_revdeps
      "<class 'tests.TraitFactory'>" mutual_traits
    = Raise (CyclicDefinitionError
               (cyclic_message "<class 'tests.TraitFactory'>" cyclic))
    ∧ ∀ n, n ∈ cyclic
           ↔ accumulated (λ _ : Trait, true) trait_revdeps mutual_traits n n.
Proof.
  assert (NoDup (od_keys mutual_traits)) as Hnd
    by (apply (bool_decide_unpack _); vm_compute; exact I).
  pose proof (cyclic_check_characterised (λ _ : Trait, true) trait_revdeps
                "<class 'tests.TraitFactory'>" mutual_traits Hnd) as H.
  destruct (_check_parameter_dependencies (λ _ : Trait, true) trait_revdeps
              "<class 'tests.TraitFactory'>" mutual_traits) as [deps|e] eqn:E.
  - vm_compute in E. discriminate E.
  - destruct H as (cyclic & -> & _ & _ & Hiff & _). by exists cyclic.
Defined.

(** X19 on concrete definitions: in the diamond, [d] is read by [a] and
    [b]. *)
Lemma dependencies_are_reversed_witness :
  ∃ deps,
    _check_parameter_dependencies (λ _ : Trait, true) trait_revdeps
      "<class 'tests.TraitFactory'>" diamond_traits = Return deps
    ∧ ∀ x y, y ∈ dd_value deps x
             ↔ depends (λ _ : Trait, true) trait_revdeps diamond_traits y x.
Proof.
  set (deps := match _check_parameter_dependencies (λ _ : Trait, true)
                       trait_revdeps "<class 'tests.TraitFactory'>"
                       diamond_traits with
               | Return d => d
               | Raise _ => []
               end).
  assert (_check_parameter_dependencies (λ _ : Trait, true) trait_revdeps
            "<class 'tests.TraitFactory'>" diamond_traits = Return deps) as H
    by (vm_compute; reflexivity).
  exists deps. split; [exact H|].
  exact (dependencies_are_reversed (λ _ : Trait, true) trait_revdeps _ _ _ H).
Defined.

(** X18 on concrete definitions: the traits [a], [b], [c], each naming the
    next and the last naming the first, pass the check. *)
Lemma cycle_in_declaration_order_undetected_witness :
  tc (depends (λ _ : Trait, true) trait_revdeps cycle_of_three) "a" "a"
  ∧ ∃ deps,
      _check_parameter_dependencies (λ _ : Trait, true) trait_revdeps
        "<class 'tests.TraitFactory'>" cycle_of_three = Return deps.
Proof.
  apply (cycle_in_declaration_order_undetected (λ _ : Trait, true)
           trait_revdeps "<class 'tests.TraitFactory'>" "a" "b" "c");
    first [discriminate | reflexivity].
Defined.

(** X27 on concrete definitions: [AdminFactory] is concrete, its model is
    [Admin], and building it with no attributes returns [Admin()]. *)
Lemma concrete_definition_has_model_witness :
  ∃ cls,
    classes three_factories !! 2%nat = Some cls
    ∧ model (_meta cls) = Some Admin
    ∧ instantiate cls BUILD_STRATEGY [] ∅ = Return (Instance Admin [] ∅).
Proof.
  set (cls := default pipeline_class (classes three_factories !! 2%nat)).
  assert (classes three_factories !! 2%nat = Some cls) as Hcls
    by (vm_compute; reflexivity).
  assert (abstract (_meta cls) = false) as Habs by (vm_compute; reflexivity).
  destruct (concrete_definition_has_model id id (λ _ : Trait, true)
              trait_revdeps partition_declarations three_factories 2%nat cls
              three_factories_reachable Hcls Habs) as (m & Hm & Hinst).
  assert (model (_meta cls) = Some Admin) as HAdmin by (vm_compute; reflexivity).
  assert (m = Admin) as -> by congruence.
  exists cls. split; [exact Hcls|]. split; [exact HAdmin|].
  apply Hinst; [|vm_compute; reflexivity..].
  apply elem_of_cons. by left.
Defined.

(** * Properties of the fuzzy attributes *)

Section FuzzyProperties.

Import Fuzzy.
#[local] Open Scope Z_scope.

Context {G : Type}.
Variable randbelow : Z → G → Z * G.
Variable repr_date : Z → string.
Variable repr_time : time → string.

Hypothesis randbelow_contract : generator_contract randbelow.

Lemma randrange_forward (start stop step : Z) (g : G) :
  0 < step →
  if decide (start < stop) then
    ∃ v g', randrange randbelow start stop step g = (Ok v, g')
            ∧ start ≤ v < stop ∧ (v - start) mod step = 0
  else
    ∃ msg, randrange randbelow start stop step g = (Err (ValueError msg), g).
Proof.
  intros Hstep. unfold randrange.
  rewrite (decide_False (P := step = 0)) by lia.
  rewrite (decide_True (P := 0 < step)) by done.
  pose proof (Z.div_mod (stop - start + step - 1) step ltac:(lia)) as Hdiv.
  pose proof (Z.mod_pos_bound (stop - start + step - 1) step Hstep) as Hmod.
  set (n := (stop - start + step - 1) / step) in *.
  destruct (decide (start < stop)) as [Hlt|Hge].
  - rewrite decide_False by nia.
    pose proof (randbelow_contract n g ltac:(nia)) as Hi.
    destruct (randbelow n g) as [i g']. simpl in Hi.
    exists (start + step * i), g'. split; [done|]. split; [nia|].
    replace (start + step * i - start) with (i * step) by lia.
    apply Z.mod_mul. lia.
  - rewrite decide_True by nia. by eexists.
Qed.

Lemma randint_between (a b : Z) (g : G) :
  if decide (a ≤ b) then
    ∃ v g', randint randbelow a b g = (Ok v, g') ∧ a ≤ v ≤ b
  else ∃ msg, randint randbelow a b g = (Err (ValueError msg), g).
Proof.
  unfold randint.
  pose proof (randrange_forward a (b + 1) 1 g ltac:(lia)) as H.
  destruct (decide (a ≤ b)).
  - rewrite decide_True in H by lia. destruct H as (v & g' & Hr & Hv & _).
    exists v, g'. split; [done|lia].
  - rewrite decide_False in H by lia. done.
Qed.

Lemma choice_member {A} (seq : list A) (g : G) :
  seq ≠ [] →
  ∃ x g', choice randbelow seq g = (Ok x, g') ∧ x ∈ seq.
Proof.
  intros Hseq. unfold choice. destruct seq as [|x0 seq0] eqn:E; [done|].
  rewrite <- E in *.
  assert (0 < Z.of_nat (length seq)) as Hlen by (rewrite E; simpl; lia).
  pose proof (randbelow_contract _ g Hlen) as Hi.
  destruct (randbelow (Z.of_nat (length seq)) g) as [i g']. simpl in Hi.
  destruct (lookup_lt_is_Some_2 seq (Z.to_nat i) ltac:(lia)) as [x Hx].
  rewrite Hx. exists x, g'. split; [done|]. by eapply list_elem_of_lookup_2.
Qed.

Lemma draws_all {A} (action : Gen (G:=G) A) (P : A → Prop) :
  (∀ g, ∃ x g', action g = (Ok x, g') ∧ P x) →
  ∀ n g, ∃ xs g', draws action n g = (Ok xs, g')
                  ∧ length xs = n ∧ Forall P xs.
Proof.
  intros Haction. induction n as [|n IH]; intros g; simpl.
  - exists [], g. by repeat split.
  - destruct (Haction g) as (x & g1 & Hx & HP).
    destruct (IH g1) as (xs & g2 & Hxs & Hlen & Hall).
    exists (x :: xs), g2. unfold gen_bind, gen_ret. rewrite Hx, Hxs.
    split; [done|]. split; [simpl; by f_equal|by constructor].
Qed.

(** X20: [FuzzyInteger(low, high, step)] with a positive step yields
    [low], [low + step], ... up to [high] and nothing else; called with one
    bound only, it ranges from 0 to that bound; with [high < low] every
    draw raises [ValueError]. *)
Theorem FuzzyInteger_fuzz_in_range (low : Z) (high : option Z) (step : Z) (g : G) :
  0 < step →
  integer_low (FuzzyInteger_init low high step)
    = match high with None => 0 | Some _ => low end
  ∧ integer_high (FuzzyInteger_init low high step) = default low high
  ∧ if decide (integer_low (FuzzyInteger_init low high step)
                 ≤ integer_high (FuzzyInteger_init low high step))
    then
      ∃ v g',
        FuzzyInteger_fuzz randbelow (FuzzyInteger_init low high step) g
        = (Ok v, g')
        ∧ integer_low (FuzzyInteger_init low high step) ≤ v
          ≤ integer_high (FuzzyInteger_init low high step)
        ∧ (v - integer_low (FuzzyInteger_init low high step)) mod step = 0
    else
      ∃ msg,
        FuzzyInteger_fuzz randbelow (FuzzyInteger_init low high step) g
        = (Err (ValueError msg), g).
Proof.
  intros Hstep.
  split; [by destruct high|]. split; [by destruct high|].
  set (self := FuzzyInteger_init low high step).
  assert (integer_step self = step) as Hs by by destruct high.
  unfold FuzzyInteger_fuzz. rewrite Hs.
  pose proof (randrange_forward (integer_low self) (integer_high self + 1)
                step g Hstep) as H.
  destruct (decide (integer_low self ≤ integer_high self)).
  - rewrite decide_True in H by lia. destruct H as (v & g' & Hr & Hv & Hmod).
    exists v, g'. split; [done|]. split; [lia|done].
  - rewrite decide_False in H by lia. done.
Qed.

Lemma time_gt_int (a b : time) :
  valid_time a → valid_time b →
  time_gt a b = true ↔ _time_as_int a > _time_as_int b.
Proof.
  intros (Ha1 & Ha2 & Ha3 & Ha4) (Hb1 & Hb2 & Hb3 & Hb4).
  unfold time_gt, _time_as_int.
  destruct (Z.compare_spec (hour a) (hour b));
    [|split; [done|intros; exfalso; lia]|split; [intros _; lia|done]].
  destruct (Z.compare_spec (minute a) (minute b));
    [|split; [done|intros; exfalso; lia]|split; [intros _; lia|done]].
  destruct (Z.compare_spec (second a) (second b));
    [|split; [done|intros; exfalso; lia]|split; [intros _; lia|done]].
  rewrite bool_decide_eq_true. lia.
Qed.

Lemma time_of_microseconds_day (msec : Z) :
  0 ≤ msec < 86400000000 →
  ∃ t, time_of_microseconds msec = Ok t ∧ valid_time t ∧ _time_as_int t = msec.
Proof.
  intros Hmsec. unfold time_of_microseconds, max_ordinal.
  rewrite decide_True by lia. eexists. split; [done|].
  unfold valid_time, _time_as_int. simpl.
  pose proof (Z.mod_pos_bound (msec / 3600000000) 24 ltac:(lia)).
  pose proof (Z.mod_pos_bound (msec / 60000000) 60 ltac:(lia)).
  pose proof (Z.mod_pos_bound (msec / 1000000) 60 ltac:(lia)).
  pose proof (Z.mod_pos_bound msec 1000000 ltac:(lia)).
  repeat split; try lia.
  pose proof (Z.div_mod msec 1000000 ltac:(lia)).
  pose proof (Z.div_mod (msec / 1000000) 60 ltac:(lia)).
  pose proof (Z.div_mod (msec / 60000000) 60 ltac:(lia)).
  pose proof (Z.div_mod (msec / 3600000000) 24 ltac:(lia)).
  assert (msec / 60000000 = msec / 1000000 / 60) as E1
    by (rewrite Z.div_div by lia; done).
  assert (msec / 3600000000 = msec / 60000000 / 60) as E2
    by (rewrite Z.div_div by lia; done).
  assert (msec / 3600000000 / 24 = 0) as E3.
  { rewrite Z.div_div by lia. apply Z.div_small. lia. }
  lia.
Qed.

Lemma time_as_int_inj (a b : time) :
  valid_time a → valid_time b → _time_as_int a = _time_as_int b → a = b.
Proof.
  intros (Ha1 & Ha2 & Ha3 & Ha4) (Hb1 & Hb2 & Hb3 & Hb4).
  destruct a, b. unfold _time_as_int. simpl in *. intros H.
  f_equal; lia.
Qed.

(** X21: [_time_as_int] numbers the microseconds of the day: on valid
    times it stays below 86 400 000 000, preserves the order of times, and
    is undone by the conversion [fuzz] applies to its draw. *)
Theorem time_as_int_round_trip (a b : time) :
  valid_time a → valid_time b →
  0 ≤ _time_as_int a < 86400000000
  ∧ time_of_microseconds (_time_as_int a) = Ok a
  ∧ (time_le a b ↔ _time_as_int a ≤ _time_as_int b).
Proof.
  intros Ha Hb.
  assert (0 ≤ _time_as_int a < 86400000000) as Hrange.
  { destruct Ha as (? & ? & ? & ?). unfold _time_as_int. lia. }
  split; [done|]. split.
  - destruct (time_of_microseconds_day _ Hrange) as (t & Ht & Hvalid & Hint).
    rewrite Ht. f_equal. by apply time_as_int_inj.
  - unfold time_le. pose proof (time_gt_int a b Ha Hb) as Hgt.
    destruct (time_gt a b); [|split; [|done]].
    + split; [done|]. intros Hle. assert (_time_as_int a > _time_as_int b) by by apply Hgt.
      lia.
    + intros _. destruct (decide (_time_as_int a ≤ _time_as_int b)); [done|].
      assert (false = true) by (apply Hgt; lia). done.
Qed.

(** X22: the constructor of [FuzzyTime] refuses exactly the bounds with
    [start > end] (the defaults being midnight and the last microsecond of
    the day); a [FuzzyTime] that was constructed draws valid times between
    its bounds, both included, and never raises. *)
Theorem FuzzyTime_fuzz_within_bounds (start_bound end_bound : option time) (g : G) :
  from_option valid_time True start_bound →
  from_option valid_time True end_bound →
  match FuzzyTime_init repr_time start_bound end_bound with
  | Ok self =>
      start_time self
      = default {| hour := 0; minute := 0; second := 0; microsecond := 0 |}
                start_bound
      ∧ end_time self
        = default {| hour := 23; minute := 59; second := 59;
                     microsecond := 999999 |} end_bound
      ∧ time_le (start_time self) (end_time self)
      ∧ ∃ t g', FuzzyTime_fuzz randbelow self g = (Ok t, g')
                ∧ valid_time t
                ∧ time_le (start_time self) t ∧ time_le t (end_time self)
  | Err e =>
      (∃ msg, e = ValueError msg)
      ∧ time_gt
          (default {| hour := 0; minute := 0; second := 0; microsecond := 0 |}
                   start_bound)
          (default {| hour := 23; minute := 59; second := 59;
                      microsecond := 999999 |} end_bound)
        = true
  end.
Proof.
  intros Hstart Hend. unfold FuzzyTime_init.
  set (s := default {| hour := 0; minute := 0; second := 0; microsecond := 0 |}
                    start_bound).
  set (e := default {| hour := 23; minute := 59; second := 59;
                       microsecond := 999999 |} end_bound).
  assert (valid_time s) as Hs.
  { unfold s. destruct start_bound; [done|]. unfold valid_time. simpl. lia. }
  assert (valid_time e) as He.
  { unfold e. destruct end_bound; [done|]. unfold valid_time. simpl. lia. }
  destruct (time_gt s e) eqn:Hgt; [split; [by eexists|done]|].
  cbn [start_time end_time]. split; [done|]. split; [done|]. split; [done|].
  unfold FuzzyTime_fuzz, gen_bind, gen_ret. cbn [_start_time_int _end_time_int].
  assert (_time_as_int s ≤ _time_as_int e) as Hle.
  { destruct (decide (_time_as_int s ≤ _time_as_int e)); [done|].
    assert (time_gt s e = true) by (apply time_gt_int; [done..|lia]).
    congruence. }
  pose proof (randint_between (_time_as_int s) (_time_as_int e) g) as Hr.
  rewrite decide_True in Hr by done.
  destruct Hr as (msec & g' & -> & Hmsec).
  assert (0 ≤ msec < 86400000000) as Hday.
  { destruct Hs as (? & ? & ? & ?), He as (? & ? & ? & ?).
    unfold _time_as_int in Hmsec. lia. }
  destruct (time_of_microseconds_day msec Hday) as (t & -> & Ht & Hint).
  exists t, g'. split; [done|]. split; [done|].
  unfold time_le. split.
  - destruct (time_gt s t) eqn:E; [|done].
    apply (time_gt_int s t Hs Ht) in E. lia.
  - destruct (time_gt t e) eqn:E; [|done].
    apply (time_gt_int t e Ht He) in E. lia.
Qed.

Lemma string_length_app (a b : string) :
  String.length (a +:+ b) = (String.length a + String.length b)%nat.
Proof. induction a as [|c a IH]; simpl; [done|]. by rewrite IH. Qed.

Lemma concat_single_chars (picks : list string) :
  Forall (λ c, String.length c = 1%nat) picks →
  String.length (String.concat "" picks) = length picks.
Proof.
  induction 1 as [|c picks Hc _ IH]; [done|].
  destruct picks as [|c' picks]; [by simpl|].
  change (String.concat "" (c :: c' :: picks))
    with (c +:+ "" +:+ String.concat "" (c' :: picks)).
  rewrite !string_length_app, IH, Hc. done.
Qed.

(** X23: [FuzzyText.fuzz] returns the prefix, then [length] items drawn
    from [chars], then the suffix; when every item of [chars] is one
    character the result is [length] characters longer than prefix and
    suffix together.  A length of zero or less draws nothing and returns
    prefix and suffix alone; with no [chars] and a positive length it
    raises [IndexError]. *)
Theorem FuzzyText_fuzz_shape (self : FuzzyText) (g : G) :
  if decide (0 < text_length self) then
    match text_chars self with
    | [] => ∃ msg, FuzzyText_fuzz randbelow self g = (Err (IndexError msg), g)
    | _ =>
        ∃ picks g',
          FuzzyText_fuzz randbelow self g
          = (Ok (text_prefix self +:+ String.concat "" picks
                 +:+ text_suffix self), g')
          ∧ length picks = Z.to_nat (text_length self)
          ∧ Forall (λ c, c ∈ text_chars self) picks
          ∧ (Forall (λ c, String.length c = 1%nat) (text_chars self) →
             String.length (text_prefix self +:+ String.concat "" picks
                            +:+ text_suffix self)
             = (String.length (text_prefix self) + Z.to_nat (text_length self)
                + String.length (text_suffix self))%nat)
    end
  else
    FuzzyText_fuzz randbelow self g
    = (Ok (text_prefix self +:+ text_suffix self), g).
Proof.
  unfold FuzzyText_fuzz.
  destruct (decide (0 < text_length self)) as [Hpos|Hneg]; cycle 1.
  { replace (Z.to_nat (text_length self)) with 0%nat by lia. done. }
  destruct (text_chars self) as [|c0 chars] eqn:Hchars.
  - destruct (Z.to_nat (text_length self)) as [|n] eqn:Hn; [lia|].
    eexists. simpl. unfold gen_bind. simpl. done.
  - rewrite <- Hchars.
    destruct (draws_all (choice randbelow (text_chars self))
                (λ c, c ∈ text_chars self)) with
      (n := Z.to_nat (text_length self)) (g := g)
      as (picks & g' & Hdraws & Hlen & Hall).
    { intros g0. apply choice_member. by rewrite Hchars. }
    exists picks, g'. unfold gen_bind, gen_ret. rewrite Hdraws.
    split; [done|]. split; [done|]. split; [done|].
    intros Hsingle. rewrite !string_length_app, concat_single_chars, Hlen; [lia|].
    rewrite Forall_forall in *. intros c Hc. by apply Hsingle, Hall.
Qed.

Lemma bytes_spec (values : list Z) :
  match bytes values with
  | Ok bs => bs = values ∧ Forall (λ v, 0 ≤ v < 256) values
  | Err e => (∃ msg, e = ValueError msg) ∧ ¬ Forall (λ v, 0 ≤ v < 256) values
  end.
Proof. unfold bytes. destruct (decide _); [done|]. split; [by eexists|done]. Qed.

(** X24: [FuzzyBytes] can be constructed exactly when its byte range is
    empty or lies within 0..255; its draws then have [length] bytes, all
    between [min_byte] and [max_byte].  With an empty range and a positive
    length every draw raises [IndexError]. *)
Theorem FuzzyBytes_fuzz_in_range (length min_byte max_byte : Z) (g : G) :
  match FuzzyBytes_init length min_byte max_byte with
  | Ok self =>
      (max_byte < min_byte ∨ (0 ≤ min_byte ∧ max_byte ≤ 255))
      ∧ if decide (0 < length ∧ max_byte < min_byte) then
          ∃ msg, FuzzyBytes_fuzz randbelow self g = (Err (IndexError msg), g)
        else
          ∃ bs g',
            FuzzyBytes_fuzz randbelow self g = (Ok bs, g')
            ∧ Datatypes.length bs = Z.to_nat length
            ∧ Forall (λ b, min_byte ≤ b ≤ max_byte) bs
  | Err e =>
      (∃ msg, e = ValueError msg)
      ∧ min_byte ≤ max_byte ∧ (min_byte < 0 ∨ 255 < max_byte)
  end.
Proof.
  unfold FuzzyBytes_init.
  pose proof (bytes_spec (range min_byte (max_byte + 1))) as Hb.
  unfold range in *.
  destruct (bytes (seqZ min_byte (max_byte + 1 - min_byte))) as [choices|e];
    rewrite Forall_seqZ in Hb.
  - destruct Hb as [-> Hall]. split.
    { destruct (decide (max_byte < min_byte)); [by left|right].
      pose proof (Hall min_byte ltac:(lia)). pose proof (Hall max_byte ltac:(lia)).
      lia. }
    unfold FuzzyBytes_fuzz. cbn [byte_choices bytes_length].
    destruct (decide (0 < length ∧ max_byte < min_byte)) as [[Hlen Hempty]|Hok].
    + rewrite seqZ_nil by lia.
      destruct (Z.to_nat length) as [|n] eqn:Hn; [lia|].
      eexists. simpl. unfold gen_bind. simpl. done.
    + destruct (decide (0 < length)) as [Hlen|Hlen]; cycle 1.
      { replace (Z.to_nat length) with 0%nat by lia.
        exists [], g. done. }
      assert (seqZ min_byte (max_byte + 1 - min_byte) ≠ []) as Hne.
      { rewrite seqZ_cons by lia. done. }
      destruct (draws_all
                  (choice randbelow (seqZ min_byte (max_byte + 1 - min_byte)))
                  (λ b, b ∈ seqZ min_byte (max_byte + 1 - min_byte)))
        with (n := Z.to_nat length) (g := g)
        as (items & g' & Hdraws & Hitems & Hin).
      { intros g0. by apply choice_member. }
      exists items, g'. unfold gen_bind, gen_ret. rewrite Hdraws.
      assert (Forall (λ v, 0 ≤ v < 256) items) as Hbytes.
      { eapply Forall_impl; [exact Hin|]. intros b Hb.
        apply elem_of_seqZ in Hb. apply Hall. lia. }
      unfold bytes. rewrite decide_True by done.
      split; [done|]. split; [done|].
      eapply Forall_impl; [exact Hin|]. intros b Hb.
      apply elem_of_seqZ in Hb. lia.
  - destruct Hb as [Hmsg Hnot]. split; [done|].
    destruct (decide (min_byte ≤ max_byte)) as [Hle|Hgt]; cycle 1.
    { exfalso. apply Hnot. intros v Hv. lia. }
    split; [done|].
    destruct (decide (min_byte < 0)); [by left|].
    destruct (decide (255 < max_byte)); [by right|].
    exfalso. apply Hnot. intros v Hv. lia.
Qed.

(** X25: [FuzzyChoice] touches its iterable at the first draw only: that
    draw unrolls it and returns one of its items; every later draw returns
    one of the same items and leaves the object as it is, even when the
    iterable was a generator that is exhausted by then.  Without items the
    draw raises [IndexError]. *)
Theorem FuzzyChoice_unrolls_once {A} (it : iterable A) (g : G) :
  choices (FuzzyChoice_init it) = None
  ∧ (FuzzyChoice_fuzz randbelow (FuzzyChoice_init it) g).1
    = {| choices := Some (list_of it).1; choices_generator := (list_of it).2 |}
  ∧ ∀ (self : FuzzyChoice A) items g0,
      choices self = Some items →
      (FuzzyChoice_fuzz randbelow self g0).1 = self
      ∧ match items with
        | [] => ∃ msg, (FuzzyChoice_fuzz randbelow self g0).2
                       = (Err (IndexError msg), g0)
        | _ => ∃ x g', (FuzzyChoice_fuzz randbelow self g0).2 = (Ok x, g')
                       ∧ x ∈ items
        end.
Proof.
  split; [done|]. split.
  - unfold FuzzyChoice_fuzz, FuzzyChoice_init. simpl. by destruct (list_of it).
  - intros self items g0 Hself. unfold FuzzyChoice_fuzz. rewrite Hself. simpl.
    rewrite Hself. simpl. split; [done|].
    destruct items as [|x0 rest] eqn:E; [by eexists|].
    rewrite <- E. apply choice_member. by rewrite E.
Qed.

(** X26: a [FuzzyDate] that was constructed has [start <= end], the
    missing bounds being 100 days ago and today; it warns about the random
    seed exactly when no end date was given while the seed was set; and
    its draws are dates between the bounds, both included. *)
Theorem FuzzyDate_fuzz_within_bounds cls_name (today : Z) (state_set : bool)
    (start_bound end_bound : option Z) self warnings (g : G) :
  1 ≤ today ≤ max_ordinal →
  from_option (λ d, 1 ≤ d ≤ max_ordinal) True start_bound →
  from_option (λ d, 1 ≤ d ≤ max_ordinal) True end_bound →
  FuzzyDate_init repr_date cls_name today state_set start_bound end_bound
  = (Ok self, warnings) →
  start_date self = default (today - 100) start_bound
  ∧ end_date self = default today end_bound
  ∧ start_date self ≤ end_date self
  ∧ warnings = (if bool_decide (end_bound = None) && state_set
                then [random_seed_warning cls_name] else [])
  ∧ ∃ d g', FuzzyDate_fuzz randbelow self g = (Ok d, g')
            ∧ start_date self ≤ d ≤ end_date self.
Proof.
  intros Htoday Hstart Hend. unfold FuzzyDate_init.
  destruct (match start_bound with
            | Some d => Ok d
            | None => date_minus_days today 100
            end) as [s|e] eqn:Hs; [|done].
  assert (s = default (today - 100) start_bound ∧ 1 ≤ s ≤ max_ordinal)
    as [Hsv Hsr].
  { destruct start_bound as [d|]; simpl in *.
    - by injection Hs as <-.
    - unfold date_minus_days in Hs. destruct (decide _); [|done].
      by injection Hs as <-. }
  set (e := default today end_bound).
  assert (1 ≤ e ≤ max_ordinal) as Her by (unfold e; by destruct end_bound).
  destruct (decide (s > e)) as [Hgt|Hle]; [done|].
  intros [= <- <-]. cbn [start_date end_date].
  split; [done|]. split; [done|]. split; [lia|]. split.
  { destruct end_bound; [done|]. by destruct state_set. }
  unfold FuzzyDate_fuzz, gen_bind, gen_ret. cbn [start_date end_date].
  pose proof (randint_between s e g) as Hr. rewrite decide_True in Hr by lia.
  destruct Hr as (d & g' & -> & Hd).
  exists d, g'. unfold fromordinal. rewrite decide_True by lia. done.
Qed.

End FuzzyProperties.

(** * The fuzzy attributes on a concrete generator *)

Section FuzzyWitnesses.

Import Fuzzy.
#[local] Open Scope Z_scope.

Lemma lcg_contract : generator_contract lcg.
Proof. intros n g Hn. unfold lcg. simpl. by apply Z.mod_pos_bound. Qed.

(** X20 on concrete definitions: [FuzzyInteger(3, 10, step=2)] yields an
    odd number from 3 to 9. *)
Lemma FuzzyInteger_fuzz_in_range_witness :
  ∃ v g',
    FuzzyInteger_fuzz lcg (FuzzyInteger_init 3 (Some 10) 2) 7 = (Ok v, g')
    ∧ 3 ≤ v ≤ 10 ∧ (v - 3) mod 2 = 0.
Proof.
  destruct (FuzzyInteger_fuzz_in_range lcg lcg_contract 3 (Some 10) 2 7
              ltac:(lia)) as (_ & _ & H).
  exact H.
Defined.

(** X21 on concrete definitions: 12:34:56.000789 and 13:00. *)
Lemma time_as_int_round_trip_witness :
  time_of_microseconds
    (_time_as_int {| hour := 12; minute := 34; second := 56; microsecond := 789 |})
  = Ok {| hour := 12; minute := 34; second := 56; microsecond := 789 |}
  ∧ _time_as_int {| hour := 12; minute := 34; second := 56; microsecond := 789 |}
    ≤ _time_as_int {| hour := 13; minute := 0; second := 0; microsecond := 0 |}.
Proof.
  destruct (time_as_int_round_trip
              {| hour := 12; minute := 34; second := 56; microsecond := 789 |}
              {| hour := 13; minute := 0; second := 0; microsecond := 0 |})
    as (_ & Hround & Horder).
  - unfold valid_time. simpl. lia.
  - unfold valid_time. simpl. lia.
  - split; [exact Hround|]. apply Horder. reflexivity.
Defined.

(** X22 on concrete definitions: [FuzzyTime()] draws a valid time. *)
Lemma FuzzyTime_fuzz_within_bounds_witness :
  ∃ self t g',
    FuzzyTime_init (λ _, "") None None = Ok self
    ∧ FuzzyTime_fuzz lcg self 7 = (Ok t, g')
    ∧ valid_time t.
Proof.
  pose proof (FuzzyTime_fuzz_within_bounds lcg (λ _, "") lcg_contract None None 7
                I I) as H.
  destruct (FuzzyTime_init (λ _, "") None None) as [self|e] eqn:E.
  - destruct H as (_ & _ & _ & t & g' & Hfuzz & Hvalid & _).
    exists self, t, g'. split; [reflexivity|]. split; [exact Hfuzz|exact Hvalid].
  - destruct H as [_ H]. vm_compute in H. discriminate H.
Defined.

(** X23 on concrete definitions: [FuzzyText('id-', 4, chars='abc')]
    yields seven characters. *)
Lemma FuzzyText_fuzz_shape_witness :
  ∃ picks g',
    FuzzyText_fuzz lcg (FuzzyText_init "id-" 4 "" (unroll "abc")) 1
    = (Ok ("id-" +:+ String.concat "" picks +:+ ""), g')
    ∧ String.length ("id-" +:+ String.concat "" picks +:+ "") = 7%nat.
Proof.
  pose proof (FuzzyText_fuzz_shape lcg lcg_contract
                (FuzzyText_init "id-" 4 "" (unroll "abc")) 1) as H.
  cbn in H. destruct H as (picks & g' & Hfuzz & _ & _ & Hlen).
  exists picks, g'. split; [exact Hfuzz|].
  apply Hlen. repeat constructor.
Defined.

(** X24 on concrete definitions: [FuzzyBytes(3, 65, 90)] yields three
    capital letters; [FuzzyBytes(3, 0, 256)] cannot be constructed. *)
Lemma FuzzyBytes_fuzz_in_range_witness :
  (∃ self bs g',
     FuzzyBytes_init 3 65 90 = Ok self
     ∧ FuzzyBytes_fuzz lcg self 1 = (Ok bs, g')
     ∧ Forall (λ b, 65 ≤ b ≤ 90) bs)
  ∧ ∃ msg, FuzzyBytes_init 3 0 256 = Err (ValueError msg).
Proof.
  split.
  - pose proof (FuzzyBytes_fuzz_in_range lcg lcg_contract 3 65 90 1) as H.
    destruct (FuzzyBytes_init 3 65 90) as [self|e] eqn:E.
    + destruct H as [_ H]. rewrite decide_False in H by lia.
      destruct H as (bs & g' & Hfuzz & _ & Hall).
      exists self, bs, g'. split; [reflexivity|]. split; [exact Hfuzz|exact Hall].
    + destruct H as (_ & _ & [H|H]); lia.
  - pose proof (FuzzyBytes_fuzz_in_range lcg lcg_contract 3 0 256 1) as H.
    destruct (FuzzyBytes_init 3 0 256) as [self|e] eqn:E.
    + destruct H as [[H|[_ H]] _]; lia.
    + destruct H as [[msg ->] _]. by exists msg.
Defined.

(** X25 on concrete definitions: two draws from a generator of three
    items. *)
Lemma FuzzyChoice_unrolls_once_witness :
  ∃ self x g',
    (FuzzyChoice_fuzz lcg (FuzzyChoice_init (Generator ["a"; "b"; "c"])) 5).1
    = self
    ∧ choices_generator self = Generator []
    ∧ (FuzzyChoice_fuzz lcg self 6).1 = self
    ∧ (FuzzyChoice_fuzz lcg self 6).2 = (Ok x, g')
    ∧ x ∈ ["a"; "b"; "c"].
Proof.
  destruct (FuzzyChoice_unrolls_once lcg lcg_contract
              (Generator ["a"; "b"; "c"]) 5) as (_ & Hfirst & Hlater).
  destruct (Hlater {| choices := Some ["a"; "b"; "c"];
                      choices_generator := Generator [] |}
              ["a"; "b"; "c"] 6 eq_refl) as (Hsame & x & g' & Hfuzz & Hx).
  exists {| choices := Some ["a"; "b"; "c"]; choices_generator := Generator [] |},
         x, g'.
  split; [exact Hfirst|]. split; [reflexivity|].
  split; [exact Hsame|]. split; [exact Hfuzz|exact Hx].
Defined.

(** X26 on concrete definitions: [FuzzyDate()] on day 738000 with the
    seed set draws one of the last 101 days and warns. *)
Lemma FuzzyDate_fuzz_within_bounds_witness :
  ∃ self d g',
    FuzzyDate_init (λ _, "") "FuzzyDate" 738000 true None None
    = (Ok self, [random_seed_warning "FuzzyDate"])
    ∧ FuzzyDate_fuzz lcg self 3 = (Ok d, g')
    ∧ 737900 ≤ d ≤ 738000.
Proof.
  destruct (FuzzyDate_fuzz_within_bounds lcg (λ _, "") lcg_contract "FuzzyDate"
              738000 true None None
              {| start_date := 737900; end_date := 738000 |}
              [random_seed_warning "FuzzyDate"] 3)
    as (_ & _ & _ & _ & d & g' & Hfuzz & Hd).
  - unfold max_ordinal. lia.
  - exact I.
  - exact I.
  - reflexivity.
  - eexists _, d, g'. split; [reflexivity|]. split; [exact Hfuzz|exact Hd].
Defined.

End FuzzyWitnesses.
